(** * The 0G Drive ledgers: OGStorage, OGRegistry and OGFees

    A shallow embedding of the three Solidity contracts of the repository
    ([OGStorage], [OGRegistry], [OGFees]) together with the properties their
    specification states about them.

    Conventions of the embedding.
    - [uint256], [address] and [bytes32] are binary naturals; arithmetic on
      [uint256] is the checked arithmetic of Solidity 0.8 (an overflow
      aborts the call with [Panic 0x11]).
    - A Solidity [mapping] is a total function with the zero value as
      default, updated pointwise.
    - An external function is a computation in the contract monad [M]:
      it either aborts with an [Error] (the whole call is rolled back, so
      the caller keeps the state it started from) or returns a value, the
      new storage and the effects of the call (emitted events and value
      transfers), in order.
    - The members the contracts inherit from OpenZeppelin 4.x
      ([Initializable], [Pausable], [AccessControl], [Counters]) are
      embedded as that library defines them. The UUPS upgrade entry points,
      which replace the code itself, are outside the model.
    - An external call that hands control to another account
      ([user.call], [treasury.call] in OGFees) lets that account call back
      into the contract before the call returns: the functions that make
      such a call take the callee's behaviour as an argument. *)

From Stdlib Require Import NArith ZArith Ascii String HexString List Bool Lia.
From stdpp Require Import base list.
Import ListNotations.

Local Open Scope string_scope.
Local Open Scope list_scope.
Local Open Scope N_scope.

(** ** Value types *)

Definition uint256 : Type := N.
Definition address : Type := N.
Definition bytes32 : Type := N.

Definition MAX_UINT256 : uint256 := 2 ^ 256 - 1.

(** [address(0)], the null principal. *)
Definition address0 : address := 0.

(** The role tags of the three contracts. In the source they are the
    [bytes32] constants [keccak256("ADMIN_ROLE")] and so on, and
    [DEFAULT_ADMIN_ROLE] is [0x00]; only their being distinct matters. *)
Inductive Role : Type :=
| DEFAULT_ADMIN_ROLE
| ADMIN_ROLE
| OPERATOR_ROLE
| VERIFIER_ROLE
| FEE_MANAGER_ROLE.

Definition Role_eqb (a b : Role) : bool :=
  match a, b with
  | DEFAULT_ADMIN_ROLE, DEFAULT_ADMIN_ROLE
  | ADMIN_ROLE, ADMIN_ROLE
  | OPERATOR_ROLE, OPERATOR_ROLE
  | VERIFIER_ROLE, VERIFIER_ROLE
  | FEE_MANAGER_ROLE, FEE_MANAGER_ROLE => true
  | _, _ => false
  end.

(** ** Events and effects *)

Inductive Event : Type :=
(* Initializable, Pausable, AccessControl *)
| Initialized (version : N)
| Paused (account : address)
| Unpaused (account : address)
| RoleGranted (role : Role) (account sender : address)
| RoleRevoked (role : Role) (account sender : address)
(* OGStorage *)
| FileUploaded (fileId : bytes32) (rootHash : string) (owner : address)
| FileShared (fileId : bytes32) (owner sharedWith : address)
| FileUnshared (fileId : bytes32) (owner unsharedWith : address)
| FileDeleted (fileId : bytes32) (owner : address)
(* OGRegistry *)
| UserRegistered (user : address) (username : string)
| StorageLimitUpdated (user : address) (newLimit : uint256)
| UsedStorageUpdated (user : address) (newUsed : uint256)
| DefaultStorageLimitUpdated (newLimit : uint256)
(* OGFees *)
| FeeConfigUpdated (baseStorageFee networkFee sharingFee minimumFee : uint256)
| TreasuryUpdated (oldTreasury newTreasury : address)
| DiscountedUserAdded (user : address)
| DiscountedUserRemoved (user : address)
| DiscountPercentageUpdated (oldPercentage newPercentage : uint256)
| FeeCollected (user : address) (amount : uint256) (feeType : string)
| FeeDistributed (recipient : address) (amount : uint256).

(** What a successful call leaves behind besides its storage: the events
    it emitted and the value it sent out. *)
Inductive Effect : Type :=
| Emit (ev : Event)
| Send (recipient : address) (value : uint256).

(** ** Errors and the contract monad *)

Inductive Error : Type :=
| Revert (reason : string)                       (* [require(..., reason)] *)
| MissingRole (account : address) (role : Role)  (* AccessControl's revert *)
| Panic (code : N).                              (* 0x11: arithmetic overflow *)

Inductive result (A : Type) : Type :=
| Ok (a : A)
| Err (e : Error).
Arguments Ok {A} a.
Arguments Err {A} e.

Definition M (S A : Type) : Type := S -> result (A * S * list Effect).

Definition ret {S A} (a : A) : M S A := fun s => Ok (a, s, []).

Definition bind {S A B} (m : M S A) (k : A -> M S B) : M S B :=
  fun s =>
    match m s with
    | Err e => Err e
    | Ok (a, s1, l1) =>
        match k a s1 with
        | Err e => Err e
        | Ok (b, s2, l2) => Ok (b, s2, l1 ++ l2)
        end
    end.

Notation "x <- m ;; k" := (bind m (fun x => k))
  (at level 100, m at next level, right associativity).
Notation "m ;; k" := (bind m (fun _ => k))
  (at level 100, right associativity).

Definition abort {S A} (e : Error) : M S A := fun _ => Err e.
Definition get {S} : M S S := fun s => Ok (s, s, []).
Definition modify {S} (f : S -> S) : M S unit := fun s => Ok (tt, f s, []).
Definition effect {S} (e : Effect) : M S unit := fun s => Ok (tt, s, [e]).
Definition emit {S} (ev : Event) : M S unit := effect (Emit ev).

Definition require {S} (cond : bool) (reason : string) : M S unit :=
  if cond then ret tt else abort (Revert reason).

(** The state a call leaves: the new storage when it returns, the old one
    when it aborts. *)
Definition state_after {S A} (m : M S A) (s : S) : S :=
  match m s with
  | Ok (_, s', _) => s'
  | Err _ => s
  end.

(** A call made by a contract that goes on whatever the outcome: a call
    that aborts is rolled back alone and leaves neither state change nor
    effect. *)
Definition attempt {S A} (m : M S A) : M S unit :=
  fun s =>
    match m s with
    | Ok (_, s', l) => Ok (tt, s', l)
    | Err _ => Ok (tt, s, [])
    end.

(** Checked [uint256] arithmetic (Solidity 0.8). *)
Definition checked_add {S} (a b : uint256) : M S uint256 :=
  if a + b <=? MAX_UINT256 then ret (a + b) else abort (Panic 0x11).
Definition checked_mul {S} (a b : uint256) : M S uint256 :=
  if a * b <=? MAX_UINT256 then ret (a * b) else abort (Panic 0x11).
Definition checked_sub {S} (a b : uint256) : M S uint256 :=
  if b <=? a then ret (a - b) else abort (Panic 0x11).
Definition checked_div {S} (a b : uint256) : M S uint256 :=
  if b =? 0 then abort (Panic 0x12) else ret (a / b).

(** Pointwise update of a mapping. *)
Definition upd {V} (m : N -> V) (k : N) (v : V) : N -> V :=
  fun k' => if k' =? k then v else m k'.

(** ** The execution environment of a call *)

Record Env : Type := {
  msg_sender : address;
  block_timestamp : uint256;
  (** [address(this)] *)
  this : address;
  (** whether a plain value transfer to an account other than the contract
      is accepted by that account (its code is not part of the repository) *)
  accepts_value : address -> bool
}.

(** The environment of a call made during another call of the same
    transaction: the time and the contract are the same, the caller and
    what recipients accept are those of the new call. *)
Definition nested (env : Env) (sender : address) (accepts : address -> bool) : Env :=
  {| msg_sender := sender;
     block_timestamp := block_timestamp env;
     this := this env;
     accepts_value := accepts |}.

(** ** The access gate: OpenZeppelin's Initializable, Pausable and
    AccessControl

    All three contracts inherit [Initializable], [PausableUpgradeable] and
    [AccessControlUpgradeable] of OpenZeppelin 4.x, imported by the sources
    and not part of the repository. Their members are embedded once, over
    any storage that carries a [Gate]. [_initialized] is the version
    counter of [Initializable], which only ever takes the values 0 and 1
    here (no contract has a [reinitializer]). *)

Record Gate : Type := {
  _initialized : bool;
  _paused : bool;
  _roles : Role -> address -> bool
}.

Class Gated (S : Type) : Type := {
  gate : S -> Gate;
  with_gate : Gate -> S -> S;
  gate_with_gate : forall g s, gate (with_gate g s) = g;
  with_gate_gate : forall s, with_gate (gate s) s = s
}.

Definition set_initialized (b : bool) (g : Gate) : Gate :=
  {| _initialized := b; _paused := _paused g; _roles := _roles g |}.

Definition set_paused (b : bool) (g : Gate) : Gate :=
  {| _initialized := _initialized g; _paused := b; _roles := _roles g |}.

Definition set_role (role : Role) (account : address) (b : bool) (g : Gate) : Gate :=
  {| _initialized := _initialized g;
     _paused := _paused g;
     _roles := fun r a => if Role_eqb r role && (a =? account) then b else _roles g r a |}.

Section GateOps.
Context {S : Type} `{Gated S}.

Definition paused (s : S) : bool := _paused (gate s).
Definition hasRole (role : Role) (account : address) (s : S) : bool :=
  _roles (gate s) role account.
Definition initialized (s : S) : bool := _initialized (gate s).

(** [modifier initializer] of [Initializable], for a call from outside
    (no initializer is running): the body runs if the version counter is
    still 0, which the modifier sets to 1 before the body;
    [Initialized(1)] is emitted after it. The modifier's second
    alternative, for a contract under construction, does not apply to a
    deployed proxy. *)
Definition initializer (body : M S unit) : M S unit :=
  s <- get ;;
  require (negb (initialized s)) "Initializable: contract is already initialized" ;;
  modify (fun s => with_gate (set_initialized true (gate s)) s) ;;
  body ;;
  emit (Initialized 1).

(** [__Pausable_init], which [initialize] calls: [_paused = false]. The
    two other initializers that [initialize] calls, [__AccessControl_init]
    and [__UUPSUpgradeable_init], have empty bodies. *)
Definition __Pausable_init : M S unit :=
  modify (fun s => with_gate (set_paused false (gate s)) s).

(** [modifier whenNotPaused] *)
Definition whenNotPaused {A} (body : M S A) : M S A :=
  s <- get ;;
  require (negb (paused s)) "Pausable: paused" ;;
  body.

(** [modifier whenPaused] *)
Definition whenPaused {A} (body : M S A) : M S A :=
  s <- get ;;
  require (paused s) "Pausable: not paused" ;;
  body.

(** [modifier onlyRole(role)] *)
Definition onlyRole {A} (role : Role) (env : Env) (body : M S A) : M S A :=
  s <- get ;;
  if hasRole role (msg_sender env) s then body
  else abort (MissingRole (msg_sender env) role).

(** [Pausable._pause], itself [whenNotPaused] *)
Definition _pause (env : Env) : M S unit :=
  whenNotPaused (
    modify (fun s => with_gate (set_paused true (gate s)) s) ;;
    emit (Paused (msg_sender env))).

(** [Pausable._unpause], itself [whenPaused] *)
Definition _unpause (env : Env) : M S unit :=
  whenPaused (
    modify (fun s => with_gate (set_paused false (gate s)) s) ;;
    emit (Unpaused (msg_sender env))).

(** [AccessControl._grantRole] *)
Definition _grantRole (role : Role) (account : address) (env : Env) : M S unit :=
  s <- get ;;
  if hasRole role account s then ret tt
  else
    modify (fun s => with_gate (set_role role account true (gate s)) s) ;;
    emit (RoleGranted role account (msg_sender env)).

(** [AccessControl._revokeRole] *)
Definition _revokeRole (role : Role) (account : address) (env : Env) : M S unit :=
  s <- get ;;
  if hasRole role account s then
    modify (fun s => with_gate (set_role role account false (gate s)) s) ;;
    emit (RoleRevoked role account (msg_sender env))
  else ret tt.

(** [AccessControl.grantRole]: the admin role of every role is
    [DEFAULT_ADMIN_ROLE], none of the contracts calls [_setRoleAdmin]. *)
Definition grantRole (env : Env) (role : Role) (account : address) : M S unit :=
  onlyRole DEFAULT_ADMIN_ROLE env (_grantRole role account env).

Definition revokeRole (env : Env) (role : Role) (account : address) : M S unit :=
  onlyRole DEFAULT_ADMIN_ROLE env (_revokeRole role account env).

Definition renounceRole (env : Env) (role : Role) (account : address) : M S unit :=
  require (account =? msg_sender env) "AccessControl: can only renounce roles for self" ;;
  _revokeRole role account env.

(** [function pause() external onlyRole(ADMIN_ROLE)] *)
Definition pause (env : Env) : M S unit :=
  onlyRole ADMIN_ROLE env (_pause env).

(** [function unpause() external onlyRole(ADMIN_ROLE)] *)
Definition unpause (env : Env) : M S unit :=
  onlyRole ADMIN_ROLE env (_unpause env).
End GateOps.

(** ** OGFees: fee pricing, collection and distribution *)

Module OGFees.

Record FeeConfig : Type := {
  baseStorageFee : uint256;
  networkFee : uint256;
  sharingFee : uint256;
  minimumFee : uint256
}.

(** The storage of the contract, with the balance it holds
    ([address(this).balance]). *)
Record Storage : Type := {
  access : Gate;
  feeConfig : FeeConfig;
  treasury : address;
  discountedUsers : address -> bool;
  discountPercentage : uint256;
  balance : uint256
}.

Definition set_access (g : Gate) (s : Storage) : Storage :=
  {| access := g; feeConfig := feeConfig s; treasury := treasury s;
     discountedUsers := discountedUsers s;
     discountPercentage := discountPercentage s; balance := balance s |}.
Definition set_feeConfig (c : FeeConfig) (s : Storage) : Storage :=
  {| access := access s; feeConfig := c; treasury := treasury s;
     discountedUsers := discountedUsers s;
     discountPercentage := discountPercentage s; balance := balance s |}.
Definition set_treasury (t : address) (s : Storage) : Storage :=
  {| access := access s; feeConfig := feeConfig s; treasury := t;
     discountedUsers := discountedUsers s;
     discountPercentage := discountPercentage s; balance := balance s |}.
Definition set_discountedUsers (d : address -> bool) (s : Storage) : Storage :=
  {| access := access s; feeConfig := feeConfig s; treasury := treasury s;
     discountedUsers := d;
     discountPercentage := discountPercentage s; balance := balance s |}.
Definition set_discountPercentage (p : uint256) (s : Storage) : Storage :=
  {| access := access s; feeConfig := feeConfig s; treasury := treasury s;
     discountedUsers := discountedUsers s;
     discountPercentage := p; balance := balance s |}.
Definition set_balance (b : uint256) (s : Storage) : Storage :=
  {| access := access s; feeConfig := feeConfig s; treasury := treasury s;
     discountedUsers := discountedUsers s;
     discountPercentage := discountPercentage s; balance := b |}.

#[global] Instance gated : Gated Storage :=
  {| gate := access; with_gate := set_access;
     gate_with_gate := fun _ _ => eq_refl;
     with_gate_gate := fun s => match s with Build_Storage _ _ _ _ _ _ => eq_refl end |}.

(** The storage of a proxy before [initialize]: every slot is zero. *)
Definition zero : Storage :=
  {| access := {| _initialized := false; _paused := false;
                 _roles := fun _ _ => false |};
     feeConfig := {| baseStorageFee := 0; networkFee := 0;
                     sharingFee := 0; minimumFee := 0 |};
     treasury := address0;
     discountedUsers := fun _ => false;
     discountPercentage := 0;
     balance := 0 |}.

(** [initialize]: [initializer public] *)
Definition initialize (env : Env) (_treasury : address)
    (_baseStorageFee _networkFee _sharingFee _minimumFee _discountPercentage : uint256)
    : M Storage unit :=
  initializer (
    require (negb (_treasury =? address0)) "Invalid treasury address" ;;
    require (_discountPercentage <=? 100) "Invalid discount percentage" ;;
    __Pausable_init ;;
    _grantRole DEFAULT_ADMIN_ROLE (msg_sender env) env ;;
    _grantRole ADMIN_ROLE (msg_sender env) env ;;
    _grantRole FEE_MANAGER_ROLE (msg_sender env) env ;;
    modify (set_treasury _treasury) ;;
    modify (set_discountPercentage _discountPercentage) ;;
    modify (set_feeConfig {| baseStorageFee := _baseStorageFee;
                             networkFee := _networkFee;
                             sharingFee := _sharingFee;
                             minimumFee := _minimumFee |})).

(** [calculateStorageFee] (view) *)
Definition calculateStorageFee (size : uint256) : M Storage uint256 :=
  s <- get ;;
  product <- checked_mul size (baseStorageFee (feeConfig s)) ;;
  fee <- checked_add product (networkFee (feeConfig s)) ;;
  if fee <? minimumFee (feeConfig s) then ret (minimumFee (feeConfig s))
  else ret fee.

(** [getSharingFee] (view) *)
Definition getSharingFee : M Storage uint256 :=
  s <- get ;; ret (sharingFee (feeConfig s)).

(** [applyDiscount] (view) *)
Definition applyDiscount (user : address) (amount : uint256) : M Storage uint256 :=
  s <- get ;;
  if negb (discountedUsers s user) then ret amount
  else
    product <- checked_mul amount (discountPercentage s) ;;
    discount <- checked_div product 100 ;;
    checked_sub amount discount.

(** Entering a [payable] function: the attached value is already part of
    the contract's balance when the body runs. *)
Definition payable (msg_value : uint256) : M Storage unit :=
  modify (fun s => set_balance (balance s + msg_value) s).

(** [receive() external payable {}] *)
Definition receive (msg_value : uint256) : M Storage unit :=
  payable msg_value.

(** [recipient.call{value: value}("")], returning the success flag. The
    call fails when the balance does not cover the value or the recipient
    refuses it. When the recipient is the contract itself, its own empty
    [receive] takes the value, which so never leaves the balance. The code
    of other recipients is outside the repository: they refuse (and all
    they did is rolled back) or accept, by [accepts_value]; a recipient
    that accepts has been given the value and the control, with all the
    gas, and [callee] is what its code does to the contract by calling
    back into it before the transfer returns. *)
Definition call_value (env : Env) (recipient : address) (value : uint256)
    (callee : M Storage unit) : M Storage bool :=
  s <- get ;;
  if balance s <? value then ret false
  else if recipient =? this env then
    modify (set_balance (balance s - value)) ;;
    effect (Send recipient value) ;;
    receive value ;;
    ret true
  else if accepts_value env recipient then
    modify (set_balance (balance s - value)) ;;
    effect (Send recipient value) ;;
    callee ;;
    ret true
  else ret false.

(** [collectFee]: [external payable whenNotPaused onlyRole(FEE_MANAGER_ROLE)];
    [callee] is what [user] does when it is handed the excess. *)
Definition collectFee (env : Env) (msg_value : uint256)
    (user : address) (amount : uint256) (feeType : string)
    (callee : M Storage unit) : M Storage unit :=
  payable msg_value ;;
  whenNotPaused (onlyRole FEE_MANAGER_ROLE env (
    require (amount <=? msg_value) "Insufficient fee" ;;
    emit (FeeCollected user amount feeType) ;;
    if amount <? msg_value then
      excess <- checked_sub msg_value amount ;;
      success <- call_value env user excess callee ;;
      require success "Failed to return excess fee"
    else ret tt)).

(** [distributeFees]: [external onlyRole(ADMIN_ROLE)]; [callee] is what
    the treasury does when it is handed the balance. [balance] is a local
    variable, [treasury] a storage slot, read again for the event. *)
Definition distributeFees (env : Env) (callee : M Storage unit) : M Storage unit :=
  onlyRole ADMIN_ROLE env (
    s <- get ;;
    let balance_ := balance s in
    require (0 <? balance_) "No fees to distribute" ;;
    success <- call_value env (treasury s) balance_ callee ;;
    require success "Failed to distribute fees" ;;
    s' <- get ;;
    emit (FeeDistributed (treasury s') balance_)).

(** [updateFeeConfig]: [external onlyRole(ADMIN_ROLE)] *)
Definition updateFeeConfig (env : Env)
    (_baseStorageFee _networkFee _sharingFee _minimumFee : uint256) : M Storage unit :=
  onlyRole ADMIN_ROLE env (
    modify (set_feeConfig {| baseStorageFee := _baseStorageFee;
                             networkFee := _networkFee;
                             sharingFee := _sharingFee;
                             minimumFee := _minimumFee |}) ;;
    emit (FeeConfigUpdated _baseStorageFee _networkFee _sharingFee _minimumFee)).

(** [updateTreasury]: [external onlyRole(ADMIN_ROLE)] *)
Definition updateTreasury (env : Env) (_treasury : address) : M Storage unit :=
  onlyRole ADMIN_ROLE env (
    require (negb (_treasury =? address0)) "Invalid treasury address" ;;
    s <- get ;;
    let oldTreasury := treasury s in
    modify (set_treasury _treasury) ;;
    emit (TreasuryUpdated oldTreasury _treasury)).

(** [addDiscountedUser]: [external onlyRole(FEE_MANAGER_ROLE)] *)
Definition addDiscountedUser (env : Env) (user : address) : M Storage unit :=
  onlyRole FEE_MANAGER_ROLE env (
    s <- get ;;
    require (negb (discountedUsers s user)) "Already a discounted user" ;;
    modify (set_discountedUsers (upd (discountedUsers s) user true)) ;;
    emit (DiscountedUserAdded user)).

(** [removeDiscountedUser]: [external onlyRole(FEE_MANAGER_ROLE)] *)
Definition removeDiscountedUser (env : Env) (user : address) : M Storage unit :=
  onlyRole FEE_MANAGER_ROLE env (
    s <- get ;;
    require (discountedUsers s user) "Not a discounted user" ;;
    modify (set_discountedUsers (upd (discountedUsers s) user false)) ;;
    emit (DiscountedUserRemoved user)).

(** [updateDiscountPercentage]: [external onlyRole(ADMIN_ROLE)] *)
Definition updateDiscountPercentage (env : Env) (_discountPercentage : uint256) : M Storage unit :=
  onlyRole ADMIN_ROLE env (
    require (_discountPercentage <=? 100) "Invalid discount percentage" ;;
    s <- get ;;
    let oldPercentage := discountPercentage s in
    modify (set_discountPercentage _discountPercentage) ;;
    emit (DiscountPercentageUpdated oldPercentage _discountPercentage)).

(** The external calls that can change the storage or the balance of a
    deployed fee contract; [CollectFee] and [Receive] carry the value
    attached to the call. *)
Inductive Call : Type :=
| CollectFee (msg_value : uint256) (user : address) (amount : uint256)
             (feeType : string)
| DistributeFees
| UpdateFeeConfig (_baseStorageFee _networkFee _sharingFee _minimumFee : uint256)
| UpdateTreasury (_treasury : address)
| AddDiscountedUser (user : address)
| RemoveDiscountedUser (user : address)
| UpdateDiscountPercentage (_discountPercentage : uint256)
| Receive (msg_value : uint256)
| Pause
| Unpause
| GrantRole (role : Role) (account : address)
| RevokeRole (role : Role) (account : address)
| RenounceRole (role : Role) (account : address).

(** One call, given what the recipient of its transfer (if it makes one)
    does to the contract. *)
Definition dispatch (env : Env) (callee : M Storage unit) (c : Call) : M Storage unit :=
  match c with
  | CollectFee v u a t => collectFee env v u a t callee
  | DistributeFees => distributeFees env callee
  | UpdateFeeConfig b n sh m => updateFeeConfig env b n sh m
  | UpdateTreasury t => updateTreasury env t
  | AddDiscountedUser u => addDiscountedUser env u
  | RemoveDiscountedUser u => removeDiscountedUser env u
  | UpdateDiscountPercentage p => updateDiscountPercentage env p
  | Receive v => receive v
  | Pause => pause env
  | Unpause => unpause env
  | GrantRole r a => grantRole env r a
  | RevokeRole r a => revokeRole env r a
  | RenounceRole r a => renounceRole env r a
  end.

Unset Elimination Schemes.
(** What an account that is handed value and control does to the
    contract: a finite sequence of calls into it, made before the transfer
    returns. Each call has its caller, and, for the transfer it may make
    itself, the fact whether recipients accept and what its recipient does
    in turn. *)
Inductive Reentry : Type :=
| Reenter (sender : address) (accepts : address -> bool) (c : Call)
          (inner : list Reentry).
Set Elimination Schemes.

(** Induction on what a recipient does: a property holds of every call
    back if it holds of one whenever it holds of those made during it. *)
Fixpoint Reentry_ind (P : Reentry -> Prop)
    (step : forall sender accepts c inner,
        Forall P inner -> P (Reenter sender accepts c inner))
    (r : Reentry) {struct r} : P r :=
  match r with
  | Reenter sender accepts c inner =>
      step sender accepts c inner
        ((fix all (l : list Reentry) : Forall P l :=
            match l with
            | [] => @List.Forall_nil _ P
            | r' :: l' =>
                @List.Forall_cons _ P r' l' (Reentry_ind P step r') (all l')
            end) inner)
  end.

(** A call back into the contract. It is a call of another contract: when
    it aborts it is rolled back alone, and the account that made it goes
    on. *)
Fixpoint reenter (env : Env) (r : Reentry) {struct r} : M Storage unit :=
  match r with
  | Reenter sender accepts c inner =>
      let env' := nested env sender accepts in
      attempt (dispatch env'
                 (fold_right (fun r' rest => reenter env' r' ;; rest) (ret tt) inner)
                 c)
  end.

Definition reentries (env : Env) (inner : list Reentry) : M Storage unit :=
  fold_right (fun r rest => reenter env r ;; rest) (ret tt) inner.

(** A call from outside: [inner] is what the recipient of its transfer
    does. *)
Definition exec (env : Env) (c : Call) (inner : list Reentry) : M Storage unit :=
  dispatch env (reentries env inner) c.

(** The value attached to a call. *)
Definition attached (c : Call) : uint256 :=
  match c with
  | CollectFee v _ _ _ => v
  | Receive v => v
  | _ => 0
  end.

(** The value that the effects of a call have moved out of the contract:
    a transfer of the contract to itself moves nothing out. *)
Fixpoint sent_out (self : address) (l : list Effect) : uint256 :=
  match l with
  | [] => 0
  | Send recipient value :: rest =>
      (if recipient =? self then 0 else value) + sent_out self rest
  | Emit _ :: rest => sent_out self rest
  end.

(** The configuration is valid: the discount is a percentage and the
    treasury is not the null address. *)
Definition config_valid (s : Storage) : Prop :=
  discountPercentage s <= 100 /\ treasury s <> address0.

(** The states of a deployed fee contract: the one a returning
    [initialize] leaves, and every state a returning call leads to from
    one of them, whatever the recipients of its transfers do. [initialize]
    itself is not among the calls: on a deployed contract it aborts. *)
Inductive reachable : Storage -> Prop :=
| reachable_init env t b n sh m p s l :
    initialize env t b n sh m p zero = Ok (tt, s, l) -> reachable s
| reachable_step s env c inner s' l :
    reachable s -> exec env c inner s = Ok (tt, s', l) -> reachable s'.

End OGFees.

(** ** OGRegistry: user profiles and storage quotas *)

Module OGRegistry.

Record UserProfile : Type := {
  isRegistered : bool;
  username : string;
  storageLimit : uint256;
  usedStorage : uint256;
  registrationDate : uint256
}.

Record Storage : Type := {
  access : Gate;
  users : address -> UserProfile;
  usernameToAddress : string -> address;
  defaultStorageLimit : uint256
}.

Definition set_access (g : Gate) (s : Storage) : Storage :=
  {| access := g; users := users s;
     usernameToAddress := usernameToAddress s;
     defaultStorageLimit := defaultStorageLimit s |}.
Definition set_users (u : address -> UserProfile) (s : Storage) : Storage :=
  {| access := access s; users := u;
     usernameToAddress := usernameToAddress s;
     defaultStorageLimit := defaultStorageLimit s |}.
Definition set_usernameToAddress (m : string -> address) (s : Storage) : Storage :=
  {| access := access s; users := users s;
     usernameToAddress := m;
     defaultStorageLimit := defaultStorageLimit s |}.
Definition set_defaultStorageLimit (l : uint256) (s : Storage) : Storage :=
  {| access := access s; users := users s;
     usernameToAddress := usernameToAddress s;
     defaultStorageLimit := l |}.

Definition set_usedStorage (v : uint256) (p : UserProfile) : UserProfile :=
  {| isRegistered := isRegistered p; username := username p;
     storageLimit := storageLimit p; usedStorage := v;
     registrationDate := registrationDate p |}.
Definition set_storageLimit (v : uint256) (p : UserProfile) : UserProfile :=
  {| isRegistered := isRegistered p; username := username p;
     storageLimit := v; usedStorage := usedStorage p;
     registrationDate := registrationDate p |}.

(** Pointwise update of a mapping keyed by strings. *)
Definition upd_string {V} (m : string -> V) (k : string) (v : V) : string -> V :=
  fun k' => if String.eqb k' k then v else m k'.

#[global] Instance gated : Gated Storage :=
  {| gate := access; with_gate := set_access;
     gate_with_gate := fun _ _ => eq_refl;
     with_gate_gate := fun s => match s with Build_Storage _ _ _ _ => eq_refl end |}.

Definition zero_profile : UserProfile :=
  {| isRegistered := false; username := ""; storageLimit := 0;
     usedStorage := 0; registrationDate := 0 |}.

(** The storage of a proxy before [initialize]: every slot is zero. *)
Definition zero : Storage :=
  {| access := {| _initialized := false; _paused := false;
                 _roles := fun _ _ => false |};
     users := fun _ => zero_profile;
     usernameToAddress := fun _ => address0;
     defaultStorageLimit := 0 |}.

(** [initialize]: [initializer public] *)
Definition initialize (env : Env) (_defaultStorageLimit : uint256) : M Storage unit :=
  initializer (
    __Pausable_init ;;
    _grantRole DEFAULT_ADMIN_ROLE (msg_sender env) env ;;
    _grantRole ADMIN_ROLE (msg_sender env) env ;;
    modify (set_defaultStorageLimit _defaultStorageLimit)).

(** [register]: [external whenNotPaused] *)
Definition register (env : Env) (username_ : string) : M Storage unit :=
  whenNotPaused (
    s <- get ;;
    require (negb (isRegistered (users s (msg_sender env)))) "User already registered" ;;
    require (0 <? N.of_nat (String.length username_)) "Username cannot be empty" ;;
    require (usernameToAddress s username_ =? address0) "Username already taken" ;;
    modify (set_users (upd (users s) (msg_sender env)
              {| isRegistered := true;
                 username := username_;
                 storageLimit := defaultStorageLimit s;
                 usedStorage := 0;
                 registrationDate := block_timestamp env |})) ;;
    modify (set_usernameToAddress
              (upd_string (usernameToAddress s) username_ (msg_sender env))) ;;
    emit (UserRegistered (msg_sender env) username_)).

(** [updateUsedStorage]: [external onlyRole(VERIFIER_ROLE)] *)
Definition updateUsedStorage (env : Env) (user : address) (newUsedStorage : uint256)
    : M Storage unit :=
  onlyRole VERIFIER_ROLE env (
    s <- get ;;
    require (isRegistered (users s user)) "User not registered" ;;
    require (newUsedStorage <=? storageLimit (users s user)) "Storage limit exceeded" ;;
    modify (set_users (upd (users s) user
              (set_usedStorage newUsedStorage (users s user)))) ;;
    emit (UsedStorageUpdated user newUsedStorage)).

(** [updateStorageLimit]: [external onlyRole(ADMIN_ROLE)] *)
Definition updateStorageLimit (env : Env) (user : address) (newLimit : uint256)
    : M Storage unit :=
  onlyRole ADMIN_ROLE env (
    s <- get ;;
    require (isRegistered (users s user)) "User not registered" ;;
    require (usedStorage (users s user) <=? newLimit) "New limit below used storage" ;;
    modify (set_users (upd (users s) user
              (set_storageLimit newLimit (users s user)))) ;;
    emit (StorageLimitUpdated user newLimit)).

(** [updateDefaultStorageLimit]: [external onlyRole(ADMIN_ROLE)] *)
Definition updateDefaultStorageLimit (env : Env) (newLimit : uint256) : M Storage unit :=
  onlyRole ADMIN_ROLE env (
    modify (set_defaultStorageLimit newLimit) ;;
    emit (DefaultStorageLimitUpdated newLimit)).

(** [getUserProfile] (view) *)
Definition getUserProfile (user : address) : M Storage UserProfile :=
  s <- get ;;
  require (isRegistered (users s user)) "User not registered" ;;
  ret (users s user).

(** [getAddressByUsername] (view) *)
Definition getAddressByUsername (username_ : string) : M Storage address :=
  s <- get ;;
  let userAddress := usernameToAddress s username_ in
  require (negb (userAddress =? address0)) "Username not registered" ;;
  ret userAddress.

(** [canStoreData] (view) *)
Definition canStoreData (user : address) (size : uint256) : M Storage bool :=
  s <- get ;;
  if negb (isRegistered (users s user)) then ret false
  else
    total <- checked_add (usedStorage (users s user)) size ;;
    ret (total <=? storageLimit (users s user)).

(** The external calls that can change the storage of a deployed
    registry. *)
Inductive Call : Type :=
| Register (username_ : string)
| UpdateUsedStorage (user : address) (newUsedStorage : uint256)
| UpdateStorageLimit (user : address) (newLimit : uint256)
| UpdateDefaultStorageLimit (newLimit : uint256)
| Pause
| Unpause
| GrantRole (role : Role) (account : address)
| RevokeRole (role : Role) (account : address)
| RenounceRole (role : Role) (account : address).

Definition exec (env : Env) (c : Call) : M Storage unit :=
  match c with
  | Register u => register env u
  | UpdateUsedStorage u n => updateUsedStorage env u n
  | UpdateStorageLimit u n => updateStorageLimit env u n
  | UpdateDefaultStorageLimit n => updateDefaultStorageLimit env n
  | Pause => pause env
  | Unpause => unpause env
  | GrantRole r a => grantRole env r a
  | RevokeRole r a => revokeRole env r a
  | RenounceRole r a => renounceRole env r a
  end.

(** The states of a deployed registry: the one [initialize] leaves, and
    every state a returning call leads to from one of them. [initialize]
    itself is not among the calls: on a deployed registry it aborts. *)
Inductive reachable : Storage -> Prop :=
| reachable_init env limit s l :
    initialize env limit zero = Ok (tt, s, l) -> reachable s
| reachable_step s env c s' l :
    reachable s -> exec env c s = Ok (tt, s', l) -> reachable s'.

(** A sequence of calls, each in its own environment; a call that aborts
    leaves the state as it was. *)
Fixpoint run (trace : list (Env * Call)) (s : Storage) : Storage :=
  match trace with
  | [] => s
  | (env, c) :: rest => run rest (state_after (exec env c) s)
  end.

(** The reverse index and the profiles agree on the principals other than
    the null address: a registered principal is found under its username,
    and a username leads to a profile registered under it. *)
Definition names_consistent (s : Storage) : Prop :=
  (forall u, u <> address0 -> isRegistered (users s u) = true ->
             usernameToAddress s (username (users s u)) = u)
  /\ (forall name, usernameToAddress s name <> address0 ->
                   isRegistered (users s (usernameToAddress s name)) = true
                   /\ username (users s (usernameToAddress s name)) = name).

(** The quota invariant: no profile uses more than its limit. *)
Definition within_quota (s : Storage) : Prop :=
  forall u, usedStorage (users s u) <= storageLimit (users s u).

End OGRegistry.

(** ** OGStorage: file records, sharing and the owner index *)

Module OGStorage.

Record File : Type := {
  rootHash : string;
  owner : address;
  timestamp : uint256;
  exists_ : bool;
  sharedWith : address -> bool
}.

Record Storage : Type := {
  access : Gate;
  files : bytes32 -> File;
  userFiles : address -> list bytes32;
  _fileCounter : uint256
}.

Definition set_access (g : Gate) (s : Storage) : Storage :=
  {| access := g; files := files s; userFiles := userFiles s;
     _fileCounter := _fileCounter s |}.
Definition set_files (f : bytes32 -> File) (s : Storage) : Storage :=
  {| access := access s; files := f; userFiles := userFiles s;
     _fileCounter := _fileCounter s |}.
Definition set_userFiles (u : address -> list bytes32) (s : Storage) : Storage :=
  {| access := access s; files := files s; userFiles := u;
     _fileCounter := _fileCounter s |}.
Definition set_fileCounter (c : uint256) (s : Storage) : Storage :=
  {| access := access s; files := files s; userFiles := userFiles s;
     _fileCounter := c |}.

Definition set_sharedWith (m : address -> bool) (f : File) : File :=
  {| rootHash := rootHash f; owner := owner f; timestamp := timestamp f;
     exists_ := exists_ f; sharedWith := m |}.

#[global] Instance gated : Gated Storage :=
  {| gate := access; with_gate := set_access;
     gate_with_gate := fun _ _ => eq_refl;
     with_gate_gate := fun s => match s with Build_Storage _ _ _ _ => eq_refl end |}.

Definition zero_file : File :=
  {| rootHash := ""; owner := address0; timestamp := 0; exists_ := false;
     sharedWith := fun _ => false |}.

(** The storage of a proxy before [initialize]: every slot is zero. *)
Definition zero : Storage :=
  {| access := {| _initialized := false; _paused := false;
                 _roles := fun _ _ => false |};
     files := fun _ => zero_file;
     userFiles := fun _ => [];
     _fileCounter := 0 |}.

(** [initialize]: [initializer public] *)
Definition initialize (env : Env) : M Storage unit :=
  initializer (
    __Pausable_init ;;
    _grantRole DEFAULT_ADMIN_ROLE (msg_sender env) env ;;
    _grantRole ADMIN_ROLE (msg_sender env) env).

(** [delete files[fileId]]. Solidity's [delete] on a struct resets every
    member that is not a mapping and leaves a mapping member as it is: the
    entries of [sharedWith] stay in storage. *)
Definition delete_File (f : File) : File :=
  {| rootHash := ""; owner := address0; timestamp := 0; exists_ := false;
     sharedWith := sharedWith f |}.

(** [userFileList.pop()] *)
Definition pop (l : list bytes32) : list bytes32 := take (length l - 1) l.

(** The loop of [deleteFile] over [userFileList]: [rest] is the part of the
    list from index [i] on. At the first index holding [fileId] the last
    element is copied there, the list is popped and the loop is left. (The
    list is not empty there, so that [last] finds an element.) *)
Fixpoint remove_scan (fileId : bytes32) (userFileList : list bytes32)
    (i : nat) (rest : list bytes32) : list bytes32 :=
  match rest with
  | [] => userFileList
  | x :: rest' =>
      if x =? fileId then
        match last userFileList with
        | Some y => pop (<[i := y]> userFileList)
        | None => userFileList
        end
      else remove_scan fileId userFileList (S i) rest'
  end.

Definition remove_from_list (fileId : bytes32) (userFileList : list bytes32)
    : list bytes32 :=
  remove_scan fileId userFileList 0 userFileList.

(** [CountersUpgradeable.increment]: unchecked *)
Definition increment : M Storage unit :=
  modify (fun s => set_fileCounter ((_fileCounter s + 1) mod 2 ^ 256) s).

(** [CountersUpgradeable.decrement] *)
Definition decrement : M Storage unit :=
  s <- get ;;
  let value := _fileCounter s in
  require (0 <? value) "Counter: decrement overflow" ;;
  modify (set_fileCounter (value - 1)).

(** [shareFile]: [external whenNotPaused] *)
Definition shareFile (env : Env) (fileId : bytes32) (user : address) : M Storage unit :=
  whenNotPaused (
    s <- get ;;
    require (exists_ (files s fileId)) "File does not exist" ;;
    require (owner (files s fileId) =? msg_sender env) "Not file owner" ;;
    require (negb (user =? address0)) "Invalid address" ;;
    require (negb (sharedWith (files s fileId) user)) "Already shared with user" ;;
    modify (set_files (upd (files s) fileId
              (set_sharedWith (upd (sharedWith (files s fileId)) user true)
                              (files s fileId)))) ;;
    emit (FileShared fileId (msg_sender env) user)).

(** [unshareFile]: [external whenNotPaused] *)
Definition unshareFile (env : Env) (fileId : bytes32) (user : address) : M Storage unit :=
  whenNotPaused (
    s <- get ;;
    require (exists_ (files s fileId)) "File does not exist" ;;
    require (owner (files s fileId) =? msg_sender env) "Not file owner" ;;
    require (sharedWith (files s fileId) user) "Not shared with user" ;;
    modify (set_files (upd (files s) fileId
              (set_sharedWith (upd (sharedWith (files s fileId)) user false)
                              (files s fileId)))) ;;
    emit (FileUnshared fileId (msg_sender env) user)).

(** [deleteFile]: [external whenNotPaused] *)
Definition deleteFile (env : Env) (fileId : bytes32) : M Storage unit :=
  whenNotPaused (
    s <- get ;;
    require (exists_ (files s fileId)) "File does not exist" ;;
    require (owner (files s fileId) =? msg_sender env) "Not file owner" ;;
    modify (set_files (upd (files s) fileId (delete_File (files s fileId)))) ;;
    modify (set_userFiles (upd (userFiles s) (msg_sender env)
              (remove_from_list fileId (userFiles s (msg_sender env))))) ;;
    decrement ;;
    emit (FileDeleted fileId (msg_sender env))).

(** [hasAccess] (public view) *)
Definition hasAccess (fileId : bytes32) (user : address) : M Storage bool :=
  s <- get ;;
  if negb (exists_ (files s fileId)) then ret false
  else ret ((owner (files s fileId) =? user) || sharedWith (files s fileId) user).

(** [getFile] (view) *)
Definition getFile (env : Env) (fileId : bytes32)
    : M Storage (string * address * uint256) :=
  s <- get ;;
  require (exists_ (files s fileId)) "File does not exist" ;;
  allowed <- hasAccess fileId (msg_sender env) ;;
  require allowed "No access to file" ;;
  let file := files s fileId in
  ret (rootHash file, owner file, timestamp file).

(** [getUserFiles] (view) *)
Definition getUserFiles (user : address) : M Storage (list bytes32) :=
  s <- get ;; ret (userFiles s user).

(** [getTotalFiles] (view) *)
Definition getTotalFiles : M Storage uint256 :=
  s <- get ;; ret (_fileCounter s).

Section WithHash.

(** [keccak256(abi.encodePacked(rootHash, msg.sender, block.timestamp))]:
    the hash function is a primitive of the platform, the contract only
    relies on its being a function of the three values. *)
Variable keccak256_packed : string -> address -> uint256 -> bytes32.

(** [uploadFile]: [external whenNotPaused]. [newFile] is a storage pointer:
    the four assignments leave the [sharedWith] mapping at [fileId] as it
    is. *)
Definition uploadFile (env : Env) (rootHash_ : string) : M Storage bytes32 :=
  whenNotPaused (
    require (0 <? N.of_nat (String.length rootHash_)) "Root hash cannot be empty" ;;
    let fileId :=
      keccak256_packed rootHash_ (msg_sender env) (block_timestamp env) in
    s <- get ;;
    require (negb (exists_ (files s fileId))) "File already exists" ;;
    modify (set_files (upd (files s) fileId
              {| rootHash := rootHash_;
                 owner := msg_sender env;
                 timestamp := block_timestamp env;
                 exists_ := true;
                 sharedWith := sharedWith (files s fileId) |})) ;;
    modify (set_userFiles (upd (userFiles s) (msg_sender env)
              (userFiles s (msg_sender env) ++ [fileId]))) ;;
    increment ;;
    emit (FileUploaded fileId rootHash_ (msg_sender env)) ;;
    ret fileId).

(** The external calls that can change the storage of a deployed file
    registry. *)
Inductive Call : Type :=
| UploadFile (rootHash_ : string)
| ShareFile (fileId : bytes32) (user : address)
| UnshareFile (fileId : bytes32) (user : address)
| DeleteFile (fileId : bytes32)
| Pause
| Unpause
| GrantRole (role : Role) (account : address)
| RevokeRole (role : Role) (account : address)
| RenounceRole (role : Role) (account : address).

Definition exec (env : Env) (c : Call) : M Storage unit :=
  match c with
  | UploadFile h => uploadFile env h ;; ret tt
  | ShareFile f u => shareFile env f u
  | UnshareFile f u => unshareFile env f u
  | DeleteFile f => deleteFile env f
  | Pause => pause env
  | Unpause => unpause env
  | GrantRole r a => grantRole env r a
  | RevokeRole r a => revokeRole env r a
  | RenounceRole r a => renounceRole env r a
  end.

(** The states of a deployed file registry: the one [initialize] leaves,
    and every state a returning call leads to from one of them.
    [initialize] itself is not among the calls: on a deployed registry it
    aborts. *)
Inductive reachable : Storage -> Prop :=
| reachable_init env s l :
    initialize env zero = Ok (tt, s, l) -> reachable s
| reachable_step s env c s' l :
    reachable s -> exec env c s = Ok (tt, s', l) -> reachable s'.

(** A sequence of calls, each in its own environment; a call that aborts
    leaves the state as it was. *)
Fixpoint run (trace : list (Env * Call)) (s : Storage) : Storage :=
  match trace with
  | [] => s
  | (env, c) :: rest => run rest (state_after (exec env c) s)
  end.

(** Whether a call is an upload that derives the identifier [fileId]. *)
Definition derives (fileId : bytes32) (step : Env * Call) : bool :=
  match step with
  | (env, UploadFile h) =>
      keccak256_packed h (msg_sender env) (block_timestamp env) =? fileId
  | _ => false
  end.

(** Every live record is stored under the identifier derived from its own
    content hash, owner and timestamp, and its content hash is not
    empty. *)
Definition records_derived (s : Storage) : Prop :=
  forall id,
    exists_ (files s id) = true ->
    rootHash (files s id) <> ""
    /\ id = keccak256_packed (rootHash (files s id)) (owner (files s id))
                             (timestamp (files s id)).

End WithHash.

(** The counter counts the live records, modulo [2^256]: [live] lists
    them. *)
Definition counter_counts (s : Storage) (live : list bytes32) : Prop :=
  NoDup live
  /\ (forall id, id ∈ live <-> exists_ (files s id) = true)
  /\ _fileCounter s = N.of_nat (length live) mod 2 ^ 256.

(** The owner index lists, without repetition, exactly the live records of
    each principal. *)
Definition index_consistent (s : Storage) : Prop :=
  forall p,
    NoDup (userFiles s p)
    /\ forall id, id ∈ userFiles s p <->
                  exists_ (files s id) = true /\ owner (files s id) = p.

(** No sharing grant names the null principal. *)
Definition no_null_grant (s : Storage) : Prop :=
  forall id, sharedWith (files s id) address0 = false.

End OGStorage.

(** ** The client-side helpers of [src/utils/storage.ts]

    JavaScript strings are embedded as strings of characters below 256 and
    the integers the helpers compute with as [N] and [Z]; the embedding of
    [generateUniqueTag] is that of the source for sums below [2^53], where
    the arithmetic of JavaScript numbers is exact. *)

Module StorageUtils.

(** [n.toString(16)] for a non-negative integer [n] *)
Definition toString16 (n : N) : string :=
  match n with
  | N0 => "0"
  | Npos p => HexString.Raw.of_pos p ""
  end.

(** A character of the class [[0-9a-fA-F]]. *)
Definition is_hex_char (c : ascii) : bool :=
  let n := N_of_ascii c in
  ((48 <=? n) && (n <=? 57)) || ((97 <=? n) && (n <=? 102))
  || ((65 <=? n) && (n <=? 70)).

Fixpoint all_hex (s : string) : bool :=
  match s with
  | EmptyString => true
  | String c rest => is_hex_char c && all_hex rest
  end.

(** [/^0x[0-9a-fA-F]+$/.test(s)] *)
Definition test_hex_regex (s : string) : bool :=
  match s with
  | String "0" (String "x" (String c rest)) => all_hex (String c rest)
  | _ => false
  end.

(** [generateUniqueTag], and the same lines of [createSubmission]:
    [timestamp] is what [Date.now()] returned and [randomValue] what
    [Math.floor(Math.random() * 1000000)] returned. *)
Definition generateUniqueTag (timestamp randomValue : N) : string :=
  let combinedValue := timestamp + randomValue in
  let hexString := toString16 combinedValue in
  let paddedHex :=
    if Nat.even (String.length hexString) then hexString
    else String.append "0" hexString in
  String.append "0x" paddedHex.

(** The pair [[isValid, error]] that the validators return. *)
Inductive Validation : Type :=
| Valid
| Invalid (message : string).

(** [validateRootHash] *)
Definition validateRootHash (rootHash : string) : Validation :=
  if String.eqb rootHash "" then Invalid "Root hash is required"
  else if negb (test_hex_regex rootHash) then Invalid "Invalid root hash format"
  else if negb (Nat.eqb (String.length rootHash) 66)
  then Invalid "Invalid root hash length"
  else Valid.

(** [calculateStorageCost], on an integer size: [BigInt] division
    truncates. *)
Definition calculateStorageCost (sizeInBytes : Z) : Z :=
  let baseRate := 1%Z in
  let baseCost := (sizeInBytes * baseRate)%Z in
  let overhead := Z.quot baseCost 10 in
  (baseCost + overhead)%Z.

End StorageUtils.

(** ** Sample deployments

    Concrete states of the three contracts, on which the properties below
    are instantiated. *)

Module FeesSample.
Import OGFees.

Definition env_of (sender : address) : Env :=
  {| msg_sender := sender; block_timestamp := 1700000000; this := 1000;
     accepts_value := fun a => negb (a =? 13) |}.

(** Deployed by account 1: treasury 9, base fee 2 per byte, network fee 10,
    sharing fee 5, minimum fee 100, discount 20 percent. *)
Definition deployed : Storage :=
  state_after (initialize (env_of 1) 9 2 10 5 100 20) zero.

(** Account 7 is a discounted user. *)
Definition with_discount : Storage :=
  state_after (addDiscountedUser (env_of 1) 7) deployed.

End FeesSample.

Module RegistrySample.
Import OGRegistry.

Definition env_of (sender : address) : Env :=
  {| msg_sender := sender; block_timestamp := 1700000000; this := 2000;
     accepts_value := fun _ => true |}.

(** Deployed by account 1 with a default quota of 1000; account 1 makes
    account 2 a verifier and account 3 registers as "alice". *)
Definition deployed : Storage :=
  state_after (initialize (env_of 1) 1000) zero.

Definition trace : list (Env * Call) :=
  [ (env_of 1, GrantRole VERIFIER_ROLE 2); (env_of 3, Register "alice") ].

Definition registered : Storage :=
  fold_left (fun s step => state_after (exec (fst step) (snd step)) s)
            trace deployed.

(** The same registry after account 1 has paused it. *)
Definition paused_registry : Storage :=
  state_after (pause (env_of 1)) registered.

End RegistrySample.

Module StorageSample.
Import OGStorage.

(** A stand-in for the hash, to run the contract on sample calls. *)
Definition sample_hash (h : string) (a : address) (t : uint256) : bytes32 :=
  (N.of_nat (String.length h) + 1000 * a + 1000000 * t) mod 2 ^ 256.

Definition env_at (sender : address) (time : uint256) : Env :=
  {| msg_sender := sender; block_timestamp := time; this := 3000;
     accepts_value := fun _ => true |}.

(** Deployed by account 1. At time 100 account 10 uploads "QmRoot", shares
    the file with account 20 and deletes it; still at time 100 it uploads
    "QmRoot" again. *)
Definition deployed : Storage :=
  state_after (initialize (env_at 1 99)) zero.

Definition fileId0 : bytes32 := sample_hash "QmRoot" 10 100.

Definition uploaded : Storage :=
  run sample_hash [(env_at 10 100, UploadFile "QmRoot")] deployed.

Definition shared : Storage :=
  run sample_hash [(env_at 10 100, ShareFile fileId0 20)] uploaded.

Definition deleted : Storage :=
  run sample_hash [(env_at 10 100, DeleteFile fileId0)] shared.

Definition reuploaded : Storage :=
  run sample_hash [(env_at 10 100, UploadFile "QmRoot")] deleted.

End StorageSample.

(** * Properties *)

Lemma upd_eq {V} (m : N -> V) k v : upd m k v k = v.
Proof. unfold upd. now rewrite N.eqb_refl. Qed.

Lemma upd_ne {V} (m : N -> V) k k' v : k' <> k -> upd m k v k' = m k'.
Proof. unfold upd. intros H. apply N.eqb_neq in H. now rewrite H. Qed.

(** ** Equations of the monad

    One equation per primitive in front of a [bind]; rewriting with them
    runs a contract function on a state, one statement after the other. *)

Section MonadEquations.
Context {S : Type}.

Lemma result_eta {A} (r : result (A * S * list Effect)) :
  match r with Ok (a, s, l) => Ok (a, s, l) | Err e => Err e end = r.
Proof. now destruct r as [[[a s] l] |]. Qed.

Lemma bind_ret {A B} (a : A) (k : A -> M S B) s : bind (ret a) k s = k a s.
Proof. unfold bind, ret. apply result_eta. Qed.

Lemma bind_get {B} (k : S -> M S B) s : bind get k s = k s s.
Proof. unfold bind, get. apply result_eta. Qed.

Lemma bind_modify {B} (f : S -> S) (k : unit -> M S B) s :
  bind (modify f) k s = k tt (f s).
Proof. unfold bind, modify. apply result_eta. Qed.

Lemma bind_abort {A B} (e : Error) (k : A -> M S B) s :
  bind (abort e) k s = Err e.
Proof. reflexivity. Qed.

Lemma bind_require {B} (c : bool) msg (k : unit -> M S B) s :
  bind (require c msg) k s = if c then k tt s else Err (Revert msg).
Proof. destruct c; [apply bind_ret | reflexivity]. Qed.

Lemma bind_effect {B} (x : Effect) (k : unit -> M S B) s :
  bind (effect x) k s =
  match k tt s with
  | Ok (b, s', l) => Ok (b, s', x :: l)
  | Err e => Err e
  end.
Proof. reflexivity. Qed.

Lemma bind_emit {B} (ev : Event) (k : unit -> M S B) s :
  bind (emit ev) k s =
  match k tt s with
  | Ok (b, s', l) => Ok (b, s', Emit ev :: l)
  | Err e => Err e
  end.
Proof. reflexivity. Qed.

Lemma bind_if {A B} (c : bool) (m1 m2 : M S A) (k : A -> M S B) s :
  bind (if c then m1 else m2) k s = if c then bind m1 k s else bind m2 k s.
Proof. now destruct c. Qed.

Lemma bind_bind {A B C} (m : M S A) (f : A -> M S B) (g : B -> M S C) s :
  bind (bind m f) g s = bind m (fun a => bind (f a) g) s.
Proof.
  unfold bind. destruct (m s) as [[[a s1] l1] |]; [| reflexivity].
  destruct (f a s1) as [[[b s2] l2] |]; [| reflexivity].
  destruct (g b s2) as [[[c s3] l3] |]; [| reflexivity].
  now rewrite app_assoc.
Qed.

Lemma bind_Ok_inv {A B} (m : M S A) (k : A -> M S B) s b s' l :
  bind m k s = Ok (b, s', l) ->
  exists a s1 l1 l2,
    m s = Ok (a, s1, l1) /\ k a s1 = Ok (b, s', l2) /\ l = l1 ++ l2.
Proof.
  unfold bind. destruct (m s) as [[[a s1] l1] |]; [| discriminate].
  destruct (k a s1) as [[[b' s2] l2] |] eqn:Hk; [| discriminate].
  intros [= -> -> <-]. now exists a, s1, l1, l2.
Qed.

Lemma bind_run {A B} (m : M S A) (k : A -> M S B) s :
  bind m k s =
  match m s with
  | Ok (a, s1, l1) =>
      match k a s1 with
      | Ok (b, s2, l2) => Ok (b, s2, l1 ++ l2)
      | Err e => Err e
      end
  | Err e => Err e
  end.
Proof. reflexivity. Qed.

Lemma run_ret {A} (a : A) (s : S) : ret a s = Ok (a, s, []).
Proof. reflexivity. Qed.

Lemma run_emit (ev : Event) (s : S) : emit ev s = Ok (tt, s, [Emit ev]).
Proof. reflexivity. Qed.

Lemma run_effect (x : Effect) (s : S) : effect x s = Ok (tt, s, [x]).
Proof. reflexivity. Qed.

Lemma run_modify (f : S -> S) (s : S) : modify f s = Ok (tt, f s, []).
Proof. reflexivity. Qed.

Lemma run_abort {A} (e : Error) (s : S) : @abort S A e s = Err e.
Proof. reflexivity. Qed.

Lemma run_require (c : bool) msg (s : S) :
  require c msg s = if c then Ok (tt, s, []) else Err (Revert msg).
Proof. now destruct c. Qed.

Context `{Gated S}.

Lemma run_whenNotPaused {A} (body : M S A) s :
  whenNotPaused body s =
  if paused s then Err (Revert "Pausable: paused") else body s.
Proof.
  unfold whenNotPaused. rewrite bind_get, bind_require. now destruct (paused s).
Qed.

Lemma run_whenPaused {A} (body : M S A) s :
  whenPaused body s =
  if paused s then body s else Err (Revert "Pausable: not paused").
Proof.
  unfold whenPaused. rewrite bind_get, bind_require. now destruct (paused s).
Qed.

Lemma run_onlyRole {A} role env (body : M S A) s :
  onlyRole role env body s =
  if hasRole role (msg_sender env) s then body s
  else Err (MissingRole (msg_sender env) role).
Proof.
  unfold onlyRole. rewrite bind_get. now destruct (hasRole role (msg_sender env) s).
Qed.

End MonadEquations.

Ltac run1 :=
  first
    [ rewrite bind_bind | rewrite bind_ret | rewrite bind_get
    | rewrite bind_modify | rewrite bind_abort | rewrite bind_require
    | rewrite bind_emit | rewrite bind_effect | rewrite bind_if
    | rewrite run_whenNotPaused | rewrite run_whenPaused
    | rewrite run_onlyRole | rewrite run_ret | rewrite run_emit
    | rewrite run_effect | rewrite run_modify | rewrite run_abort
    | rewrite run_require ];
  cbv beta.

Ltac run := repeat run1.

Ltac run1_in H :=
  first
    [ rewrite bind_bind in H | rewrite bind_ret in H | rewrite bind_get in H
    | rewrite bind_modify in H | rewrite bind_abort in H
    | rewrite bind_require in H | rewrite bind_emit in H
    | rewrite bind_effect in H | rewrite bind_if in H
    | rewrite run_whenNotPaused in H | rewrite run_whenPaused in H
    | rewrite run_onlyRole in H | rewrite run_ret in H | rewrite run_emit in H
    | rewrite run_effect in H | rewrite run_modify in H
    | rewrite run_abort in H | rewrite run_require in H ];
  cbv beta in H.

Ltac run_in H := repeat run1_in H.

(** Case analysis on the tests of a run that is known to return. *)
Ltac break_ifs H :=
  repeat match type of H with
         | context [if ?c then _ else _] => destruct c eqn:?; try discriminate H
         end.

(** ** The gate operations touch nothing but the gate *)

Section GateFrame.
Context {S : Type} `{Gated S}.

Lemma _grantRole_frame role account env (s s' : S) l :
  _grantRole role account env s = Ok (tt, s', l) -> exists g, s' = with_gate g s.
Proof.
  unfold _grantRole. intros Hrun. run_in Hrun. break_ifs Hrun.
  - injection Hrun as <- _. exists (gate s). now rewrite with_gate_gate.
  - injection Hrun as <- _. eauto.
Qed.

Lemma _revokeRole_frame role account env (s s' : S) l :
  _revokeRole role account env s = Ok (tt, s', l) -> exists g, s' = with_gate g s.
Proof.
  unfold _revokeRole. intros Hrun. run_in Hrun. break_ifs Hrun.
  - injection Hrun as <- _. eauto.
  - injection Hrun as <- _. exists (gate s). now rewrite with_gate_gate.
Qed.

Lemma grantRole_frame env role account (s s' : S) l :
  grantRole env role account s = Ok (tt, s', l) -> exists g, s' = with_gate g s.
Proof.
  unfold grantRole. intros Hrun. run_in Hrun. break_ifs Hrun.
  eapply _grantRole_frame, Hrun.
Qed.

Lemma revokeRole_frame env role account (s s' : S) l :
  revokeRole env role account s = Ok (tt, s', l) -> exists g, s' = with_gate g s.
Proof.
  unfold revokeRole. intros Hrun. run_in Hrun. break_ifs Hrun.
  eapply _revokeRole_frame, Hrun.
Qed.

Lemma renounceRole_frame env role account (s s' : S) l :
  renounceRole env role account s = Ok (tt, s', l) -> exists g, s' = with_gate g s.
Proof.
  unfold renounceRole. intros Hrun. run_in Hrun. break_ifs Hrun.
  eapply _revokeRole_frame, Hrun.
Qed.

Lemma pause_frame env (s s' : S) l :
  pause env s = Ok (tt, s', l) -> exists g, s' = with_gate g s.
Proof.
  unfold pause, _pause. intros Hrun. run_in Hrun. break_ifs Hrun.
  injection Hrun as <- _. eauto.
Qed.

Lemma unpause_frame env (s s' : S) l :
  unpause env s = Ok (tt, s', l) -> exists g, s' = with_gate g s.
Proof.
  unfold unpause, _unpause. intros Hrun. run_in Hrun. break_ifs Hrun.
  injection Hrun as <- _. eauto.
Qed.

Lemma run_initializer (body : M S unit) (s : S) :
  initializer body s =
  if initialized s
  then Err (Revert "Initializable: contract is already initialized")
  else match body (with_gate (set_initialized true (gate s)) s) with
       | Ok (_, s', l) => Ok (tt, s', l ++ [Emit (Initialized 1)])
       | Err e => Err e
       end.
Proof.
  unfold initializer. run. destruct (initialized s); [reflexivity |].
  cbn [negb]. rewrite bind_run.
  now destruct (body _) as [[[[] s1] l1] |].
Qed.

Lemma initializer_Ok_inv (body : M S unit) (s s' : S) l :
  initializer body s = Ok (tt, s', l) ->
  initialized s = false
  /\ exists l0,
       body (with_gate (set_initialized true (gate s)) s) = Ok (tt, s', l0)
       /\ l = l0 ++ [Emit (Initialized 1)].
Proof.
  rewrite run_initializer. destruct (initialized s); [discriminate |].
  destruct (body _) as [[[[] s1] l1] |]; [| discriminate].
  intros [= <- <-]. eauto.
Qed.

Lemma _grantRole_returns role account env (s : S) :
  exists s' l, _grantRole role account env s = Ok (tt, s', l).
Proof.
  unfold _grantRole. run. destruct (hasRole role account s); run; eauto.
Qed.

(** The gate operations leave the version counter of [Initializable] as
    it is. *)
Lemma with_gate_initialized (g : Gate) (s : S) :
  initialized (with_gate g s) = _initialized g.
Proof. unfold initialized. now rewrite gate_with_gate. Qed.

Lemma _grantRole_initialized role account env (s s' : S) l :
  _grantRole role account env s = Ok (tt, s', l) -> initialized s' = initialized s.
Proof.
  unfold _grantRole. intros Hrun. run_in Hrun. break_ifs Hrun.
  - now injection Hrun as <- _.
  - injection Hrun as <- _. now rewrite with_gate_initialized.
Qed.

Lemma _revokeRole_initialized role account env (s s' : S) l :
  _revokeRole role account env s = Ok (tt, s', l) -> initialized s' = initialized s.
Proof.
  unfold _revokeRole. intros Hrun. run_in Hrun. break_ifs Hrun.
  - injection Hrun as <- _. now rewrite with_gate_initialized.
  - now injection Hrun as <- _.
Qed.

Lemma grantRole_initialized env role account (s s' : S) l :
  grantRole env role account s = Ok (tt, s', l) -> initialized s' = initialized s.
Proof.
  unfold grantRole. intros Hrun. run_in Hrun. break_ifs Hrun.
  eapply _grantRole_initialized, Hrun.
Qed.

Lemma revokeRole_initialized env role account (s s' : S) l :
  revokeRole env role account s = Ok (tt, s', l) -> initialized s' = initialized s.
Proof.
  unfold revokeRole. intros Hrun. run_in Hrun. break_ifs Hrun.
  eapply _revokeRole_initialized, Hrun.
Qed.

Lemma renounceRole_initialized env role account (s s' : S) l :
  renounceRole env role account s = Ok (tt, s', l) -> initialized s' = initialized s.
Proof.
  unfold renounceRole. intros Hrun. run_in Hrun. break_ifs Hrun.
  eapply _revokeRole_initialized, Hrun.
Qed.

Lemma pause_initialized env (s s' : S) l :
  pause env s = Ok (tt, s', l) -> initialized s' = initialized s.
Proof.
  unfold pause, _pause. intros Hrun. run_in Hrun. break_ifs Hrun.
  injection Hrun as <- _. now rewrite with_gate_initialized.
Qed.

Lemma unpause_initialized env (s s' : S) l :
  unpause env s = Ok (tt, s', l) -> initialized s' = initialized s.
Proof.
  unfold unpause, _unpause. intros Hrun. run_in Hrun. break_ifs Hrun.
  injection Hrun as <- _. now rewrite with_gate_initialized.
Qed.

End GateFrame.

(** Unfolding the monad. *)
Ltac unfold_monad :=
  unfold whenNotPaused, whenPaused, onlyRole, require, emit, effect, modify,
    get, abort, ret, bind, checked_add, checked_mul, checked_sub, checked_div
    in *.

Section FeeProperties.
Import OGFees.

Lemma calculateStorageFee_run (s : Storage) (size : uint256) :
  calculateStorageFee size s =
  let fee := size * baseStorageFee (feeConfig s) + networkFee (feeConfig s) in
  if fee <=? MAX_UINT256
  then Ok (if fee <? minimumFee (feeConfig s) then minimumFee (feeConfig s) else fee, s, [])
  else Err (Panic 0x11).
Proof.
  unfold calculateStorageFee. unfold_monad. cbv zeta.
  set (p := size * baseStorageFee (feeConfig s)).
  set (n := networkFee (feeConfig s)).
  destruct (N.leb_spec (p + n) MAX_UINT256) as [Hfit | Hover].
  - assert (Hp : (p <=? MAX_UINT256) = true) by (apply N.leb_le; lia).
    rewrite Hp. cbn. apply N.leb_le in Hfit. rewrite Hfit. cbn.
    now destruct (p + n <? minimumFee (feeConfig s)).
  - destruct (p <=? MAX_UINT256); [| reflexivity].
    cbn. apply N.leb_gt in Hover. now rewrite Hover.
Qed.

(** C8 (as amended). Whenever [size * baseStorageFee + networkFee] fits in
    256 bits, [calculateStorageFee size] returns that quantity when it is
    at least [minimumFee] and [minimumFee] otherwise, so a value that is at
    least [minimumFee], leaving the storage as it is; when the quantity
    does not fit, the call aborts with the arithmetic panic. *)
Theorem calculateStorageFee_spec (s : Storage) (size : uint256) :
  let fee := size * baseStorageFee (feeConfig s) + networkFee (feeConfig s) in
  let minimum := minimumFee (feeConfig s) in
  (fee <= MAX_UINT256 ->
     exists v, calculateStorageFee size s = Ok (v, s, [])
       /\ (minimum <= fee -> v = fee)
       /\ (fee < minimum -> v = minimum)
       /\ minimum <= v)
  /\ (MAX_UINT256 < fee -> calculateStorageFee size s = Err (Panic 0x11)).
Proof.
  intros fee minimum. rewrite calculateStorageFee_run. fold fee minimum. cbv zeta.
  split.
  - intros Hfit. apply N.leb_le in Hfit. rewrite Hfit.
    destruct (N.ltb_spec fee minimum) as [Hlt | Hge].
    + exists minimum. repeat split; try lia. 
    + exists fee. repeat split; try lia.
  - intros Hover. apply N.leb_gt in Hover. now rewrite Hover.
Qed.

Lemma calculateStorageFee_spec_witness :
  exists v, calculateStorageFee 500 FeesSample.deployed = Ok (v, FeesSample.deployed, [])
    /\ (100 <= 1010 -> v = 1010)
    /\ (1010 < 100 -> v = 100)
    /\ 100 <= v.
Proof.
  apply (calculateStorageFee_spec FeesSample.deployed 500). vm_compute. discriminate.
Defined.

(** C8, counterexample: with a base fee of 2 per byte, the fee of a file of
    [2^255] bytes is not returned at all: the multiplication overflows and
    the call aborts. *)
Lemma calculateStorageFee_overflow :
  calculateStorageFee (2 ^ 255) FeesSample.deployed = Err (Panic 0x11).
Proof. vm_compute. reflexivity. Qed.

(** C9 (as amended). [applyDiscount p amount] returns [amount] unchanged
    when [p] is not a discounted user. When [p] is discounted, the
    configured percentage is at most 100 and [amount * discountPercentage]
    fits in 256 bits, it returns [amount - floor(amount * discountPercentage
    / 100)], the discount being at most [amount]; when the product does not
    fit, the call aborts with the arithmetic panic. The storage is left as
    it is. *)
Theorem applyDiscount_spec (s : Storage) (p : address) (amount : uint256) :
  (discountedUsers s p = false -> applyDiscount p amount s = Ok (amount, s, []))
  /\ (discountedUsers s p = true ->
      discountPercentage s <= 100 ->
      amount * discountPercentage s <= MAX_UINT256 ->
      amount * discountPercentage s / 100 <= amount
      /\ applyDiscount p amount s =
         Ok (amount - amount * discountPercentage s / 100, s, []))
  /\ (discountedUsers s p = true ->
      MAX_UINT256 < amount * discountPercentage s ->
      applyDiscount p amount s = Err (Panic 0x11)).
Proof.
  unfold applyDiscount. unfold_monad.
  split; [| split].
  - intros Hno. now rewrite Hno.
  - intros Hyes Hpct Hfit. rewrite Hyes. cbn.
    assert (Hle : amount * discountPercentage s / 100 <= amount).
    { apply N.Div0.div_le_upper_bound. nia. }
    split; [exact Hle |].
    apply N.leb_le in Hfit. rewrite Hfit. cbn.
    apply N.leb_le in Hle. now rewrite Hle.
  - intros Hyes Hover. rewrite Hyes. cbn.
    apply N.leb_gt in Hover. now rewrite Hover.
Qed.

Lemma applyDiscount_spec_witness :
  applyDiscount 8 1000 FeesSample.with_discount = Ok (1000, FeesSample.with_discount, [])
  /\ applyDiscount 7 1000 FeesSample.with_discount =
     Ok (1000 - 1000 * 20 / 100, FeesSample.with_discount, []).
Proof.
  split.
  - apply (applyDiscount_spec FeesSample.with_discount 8 1000). reflexivity.
  - apply (applyDiscount_spec FeesSample.with_discount 7 1000).
    + reflexivity.
    + vm_compute. discriminate.
    + vm_compute. discriminate.
Defined.

(** C9, counterexample: for the discounted account 7 and a discount of 20
    percent, the discounted amount of [2^255] is not returned at all: the
    multiplication by the percentage overflows and the call aborts. *)
Lemma applyDiscount_overflow :
  discountedUsers FeesSample.with_discount 7 = true
  /\ discountPercentage FeesSample.with_discount = 20
  /\ applyDiscount 7 (2 ^ 255) FeesSample.with_discount = Err (Panic 0x11).
Proof. vm_compute. auto. Qed.

Lemma set_balance_same (s : Storage) : set_balance (balance s) s = s.
Proof. now destruct s. Qed.

Lemma run_distributeFees env callee s :
  distributeFees env callee s =
  if negb (hasRole ADMIN_ROLE (msg_sender env) s)
  then Err (MissingRole (msg_sender env) ADMIN_ROLE)
  else if balance s =? 0 then Err (Revert "No fees to distribute")
  else if treasury s =? this env
  then Ok (tt, s, [Send (treasury s) (balance s);
                   Emit (FeeDistributed (treasury s) (balance s))])
  else if accepts_value env (treasury s)
  then match callee (set_balance 0 s) with
       | Ok (_, s', l) =>
           Ok (tt, s',
               Send (treasury s) (balance s)
                 :: l ++ [Emit (FeeDistributed (treasury s') (balance s))])
       | Err e => Err e
       end
  else Err (Revert "Failed to distribute fees").
Proof.
  unfold distributeFees, call_value, receive, payable. cbv zeta. run.
  destruct (hasRole ADMIN_ROLE (msg_sender env) s); [| reflexivity]. cbn [negb].
  destruct (N.eqb_spec (balance s) 0) as [Hzero | Hpos].
  { rewrite Hzero. reflexivity. }
  assert (Hlt : (0 <? balance s) = true) by (apply N.ltb_lt; lia).
  rewrite Hlt, N.ltb_irrefl.
  destruct (treasury s =? this env).
  - run. destruct s as [g c t d p b]. unfold set_balance. cbn.
    now rewrite N.sub_diag, N.add_0_l.
  - destruct (accepts_value env (treasury s)); run; [| reflexivity].
    rewrite N.sub_diag, bind_run.
    destruct (callee _) as [[[[] s1] l1] |]; [| reflexivity].
    run. reflexivity.
Qed.

(** A call back into the contract is a call from outside, made in the
    middle of another one. *)
Lemma reenter_eq env sender accepts c inner :
  reenter env (Reenter sender accepts c inner) =
  attempt (exec (nested env sender accepts) c inner).
Proof. reflexivity. Qed.

Lemma run_attempt {S A} (m : M S A) (s : S) :
  exists s' l, attempt m s = Ok (tt, s', l).
Proof. unfold attempt. destruct (m s) as [[[a s'] l] |]; eauto. Qed.

(** Whatever the account that has the control does, it gives the control
    back: a call of it that aborts is rolled back alone. *)
Lemma reentries_return env inner s :
  exists s' l, reentries env inner s = Ok (tt, s', l).
Proof.
  revert s. induction inner as [| r inner IH]; intros s.
  - exists s, []. reflexivity.
  - cbn [reentries fold_right]. rewrite bind_run.
    destruct r as [sender accepts c inner'].
    destruct (run_attempt (exec (nested env sender accepts) c inner') s)
      as (s1 & l1 & Hr).
    rewrite reenter_eq, Hr.
    destruct (IH s1) as (s2 & l2 & Hrest).
    unfold reentries in Hrest. rewrite Hrest. eauto.
Qed.

Lemma run_collectFee (env : Env) (msg_value : uint256) (payer : address)
    (amount : uint256) (feeType : string) (callee : M Storage unit)
    (s : Storage) :
  collectFee env msg_value payer amount feeType callee s =
  if paused s then Err (Revert "Pausable: paused")
  else if negb (hasRole FEE_MANAGER_ROLE (msg_sender env) s)
  then Err (MissingRole (msg_sender env) FEE_MANAGER_ROLE)
  else if msg_value <? amount then Err (Revert "Insufficient fee")
  else if msg_value =? amount
  then Ok (tt, set_balance (balance s + amount) s,
           [Emit (FeeCollected payer amount feeType)])
  else if payer =? this env
  then Ok (tt, set_balance (balance s + msg_value) s,
           [Emit (FeeCollected payer amount feeType);
            Send payer (msg_value - amount)])
  else if accepts_value env payer
  then match callee (set_balance (balance s + amount) s) with
       | Ok (_, s', l) =>
           Ok (tt, s',
               Emit (FeeCollected payer amount feeType)
                 :: Send payer (msg_value - amount) :: l)
       | Err e => Err e
       end
  else Err (Revert "Failed to return excess fee").
Proof.
  unfold collectFee, payable. run.
  change (paused (set_balance (balance s + msg_value) s)) with (paused s).
  destruct (paused s); [reflexivity |].
  change (hasRole FEE_MANAGER_ROLE (msg_sender env)
            (set_balance (balance s + msg_value) s))
    with (hasRole FEE_MANAGER_ROLE (msg_sender env) s).
  destruct (hasRole FEE_MANAGER_ROLE (msg_sender env) s); [| reflexivity].
  cbn [negb].
  destruct (N.ltb_spec msg_value amount) as [Hlt | Hge].
  { apply N.leb_gt in Hlt. now rewrite Hlt. }
  apply N.leb_le in Hge as Hle. rewrite Hle.
  destruct (N.eqb_spec msg_value amount) as [-> | Hne].
  { rewrite N.ltb_irrefl. now run. }
  assert (Hlt : amount < msg_value) by lia.
  apply N.ltb_lt in Hlt as Hlt'. rewrite Hlt'.
  unfold checked_sub. rewrite Hle. run.
  unfold call_value, receive, payable. run.
  cbn [balance set_balance].
  assert (Hbal : (balance s + msg_value <? msg_value - amount) = false)
    by (apply N.ltb_ge; lia).
  rewrite Hbal.
  destruct (payer =? this env).
  - run. unfold set_balance. cbn.
    replace (balance s + msg_value - (msg_value - amount) + (msg_value - amount))
      with (balance s + msg_value) by lia.
    reflexivity.
  - destruct (accepts_value env payer); run; [| reflexivity].
    unfold set_balance. cbn.
    replace (balance s + msg_value - (msg_value - amount))
      with (balance s + amount) by lia.
    rewrite bind_run.
    destruct (callee _) as [[[[] s1] l1] |]; [| reflexivity].
    run. now rewrite app_nil_r.
Qed.

(** C4 (as amended). [collectFee payer amount feeType], called by a fee
    manager while the contract is not paused, aborts with "Insufficient
    fee" when the attached value is below [amount]. Otherwise
    [FeeCollected payer amount feeType] is emitted and the excess, if there
    is one, is sent to [payer]:
    - without excess the call returns with the balance of the contract
      raised by exactly [amount];
    - when [payer] is the contract itself, the excess never leaves and the
      call returns with the balance raised by the whole attached value;
    - when another [payer] accepts the excess, the calls it makes back into
      the contract ([inner]) run on the contract with the balance raised by
      exactly [amount], and the call returns with the state they leave; so
      a payer that makes no such call leaves the balance raised by exactly
      [amount];
    - when another [payer] refuses the excess, the call aborts with "Failed
      to return excess fee" and nothing has happened. *)
Theorem collectFee_spec (env : Env) (msg_value : uint256) (payer : address)
    (amount : uint256) (feeType : string) (inner : list Reentry)
    (s : Storage) :
  paused s = false ->
  hasRole FEE_MANAGER_ROLE (msg_sender env) s = true ->
  (msg_value < amount ->
     collectFee env msg_value payer amount feeType (reentries env inner) s =
     Err (Revert "Insufficient fee"))
  /\ (msg_value = amount ->
     collectFee env msg_value payer amount feeType (reentries env inner) s =
     Ok (tt, set_balance (balance s + amount) s,
         [Emit (FeeCollected payer amount feeType)]))
  /\ (amount < msg_value -> payer = this env ->
     collectFee env msg_value payer amount feeType (reentries env inner) s =
     Ok (tt, set_balance (balance s + msg_value) s,
         [Emit (FeeCollected payer amount feeType); Send payer (msg_value - amount)]))
  /\ (amount < msg_value -> payer <> this env -> accepts_value env payer = true ->
     exists s' l,
       reentries env inner (set_balance (balance s + amount) s) = Ok (tt, s', l)
       /\ collectFee env msg_value payer amount feeType (reentries env inner) s =
          Ok (tt, s',
              Emit (FeeCollected payer amount feeType)
                :: Send payer (msg_value - amount) :: l))
  /\ (amount < msg_value -> payer <> this env -> accepts_value env payer = true ->
     collectFee env msg_value payer amount feeType (reentries env []) s =
     Ok (tt, set_balance (balance s + amount) s,
         [Emit (FeeCollected payer amount feeType); Send payer (msg_value - amount)]))
  /\ (amount < msg_value -> payer <> this env -> accepts_value env payer = false ->
     collectFee env msg_value payer amount feeType (reentries env inner) s =
     Err (Revert "Failed to return excess fee")
     /\ state_after (collectFee env msg_value payer amount feeType (reentries env inner)) s
        = s).
Proof.
  intros Hrun Hrole. unfold state_after.
  rewrite !run_collectFee, Hrun, Hrole. cbn [negb].
  assert (Hexcess : amount < msg_value ->
            (msg_value <? amount) = false /\ (msg_value =? amount) = false).
  { intros Hlt. split; [apply N.ltb_ge | apply N.eqb_neq]; lia. }
  split; [| split; [| split; [| split; [| split]]]].
  - intros Hlt. apply N.ltb_lt in Hlt. now rewrite Hlt.
  - intros ->. now rewrite N.ltb_irrefl, N.eqb_refl.
  - intros [H1 H2]%Hexcess ->. now rewrite H1, H2, N.eqb_refl.
  - intros [H1 H2]%Hexcess Hself%N.eqb_neq Hacc. rewrite H1, H2, Hself, Hacc.
    destruct (reentries_return env inner (set_balance (balance s + amount) s))
      as (s' & l & ->).
    now exists s', l.
  - intros [H1 H2]%Hexcess Hself%N.eqb_neq Hacc. now rewrite H1, H2, Hself, Hacc.
  - intros [H1 H2]%Hexcess Hself%N.eqb_neq Hacc. now rewrite H1, H2, Hself, Hacc.
Qed.

Lemma collectFee_spec_witness :
  collectFee (FeesSample.env_of 1) 150 5 100 "storage"
    (reentries (FeesSample.env_of 1) []) FeesSample.deployed =
  Ok (tt, set_balance (balance FeesSample.deployed + 100) FeesSample.deployed,
      [Emit (FeeCollected 5 100 "storage"); Send 5 (150 - 100)]).
Proof.
  destruct (collectFee_spec (FeesSample.env_of 1) 150 5 100 "storage" []
              FeesSample.deployed eq_refl eq_refl)
    as (_ & _ & _ & _ & Hexcess & _).
  apply Hexcess.
  - reflexivity.
  - discriminate.
  - reflexivity.
Defined.

(** C4, counterexample. A call with 150 attached and an amount of 100
    returns with the balance raised by 150 when the payer is the contract
    itself (account 1000 here): the excess of 50 is a transfer of the
    contract to itself. It returns with the balance raised by 130 when the
    payer, account 5, on being handed the excess of 50, sends 30 back
    through [receive] before the transfer returns. *)
Lemma collectFee_refund_not_exact :
  (exists s' l,
     collectFee (FeesSample.env_of 1) 150 1000 100 "storage"
       (reentries (FeesSample.env_of 1) [])
       FeesSample.deployed = Ok (tt, s', l)
     /\ balance s' = balance FeesSample.deployed + 150
     /\ balance s' <> balance FeesSample.deployed + 100)
  /\ (exists s' l,
     collectFee (FeesSample.env_of 1) 150 5 100 "storage"
       (reentries (FeesSample.env_of 1)
          [Reenter 5 (fun _ => true) (Receive 30) []])
       FeesSample.deployed = Ok (tt, s', l)
     /\ balance s' = balance FeesSample.deployed + 130
     /\ balance s' <> balance FeesSample.deployed + 100).
Proof.
  split.
  - rewrite run_collectFee. vm_compute.
    eexists _, _. split; [reflexivity |]. split; [reflexivity | discriminate].
  - rewrite run_collectFee. vm_compute.
    eexists _, _. split; [reflexivity |]. split; [reflexivity | discriminate].
Qed.

End FeeProperties.

Section RegistryProperties.
Import OGRegistry.

Lemma run_updateUsedStorage env user newUsed s :
  updateUsedStorage env user newUsed s =
  if negb (hasRole VERIFIER_ROLE (msg_sender env) s)
  then Err (MissingRole (msg_sender env) VERIFIER_ROLE)
  else if negb (isRegistered (users s user))
  then Err (Revert "User not registered")
  else if storageLimit (users s user) <? newUsed
  then Err (Revert "Storage limit exceeded")
  else Ok (tt, set_users (upd (users s) user (set_usedStorage newUsed (users s user))) s,
           [Emit (UsedStorageUpdated user newUsed)]).
Proof.
  unfold updateUsedStorage. run.
  destruct (hasRole VERIFIER_ROLE (msg_sender env) s); [| reflexivity].
  destruct (isRegistered (users s user)); [| reflexivity].
  cbn [negb]. rewrite N.ltb_antisym.
  now destruct (newUsed <=? storageLimit (users s user)).
Qed.

Lemma run_updateStorageLimit env user newLimit s :
  updateStorageLimit env user newLimit s =
  if negb (hasRole ADMIN_ROLE (msg_sender env) s)
  then Err (MissingRole (msg_sender env) ADMIN_ROLE)
  else if negb (isRegistered (users s user))
  then Err (Revert "User not registered")
  else if newLimit <? usedStorage (users s user)
  then Err (Revert "New limit below used storage")
  else Ok (tt, set_users (upd (users s) user (set_storageLimit newLimit (users s user))) s,
           [Emit (StorageLimitUpdated user newLimit)]).
Proof.
  unfold updateStorageLimit. run.
  destruct (hasRole ADMIN_ROLE (msg_sender env) s); [| reflexivity].
  destruct (isRegistered (users s user)); [| reflexivity].
  cbn [negb]. rewrite N.ltb_antisym.
  now destruct (usedStorage (users s user) <=? newLimit).
Qed.

Lemma initialize_within_quota env limit s l :
  initialize env limit zero = Ok (tt, s, l) -> within_quota s.
Proof.
  intros Hinit u.
  assert (Husers : users s = users zero).
  { unfold initialize in Hinit.
    apply initializer_Ok_inv in Hinit as (_ & l0 & Hinit & _).
    unfold __Pausable_init in Hinit. rewrite ?bind_modify in Hinit.
    apply bind_Ok_inv in Hinit as ([] & s1 & l1 & l1' & H1 & Hinit & _).
    apply bind_Ok_inv in Hinit as ([] & s2 & l2 & l2' & H2 & Hinit & _).
    apply _grantRole_frame in H1 as [g1 ->].
    apply _grantRole_frame in H2 as [g2 ->].
    now injection Hinit as <- _. }
  rewrite Husers. cbn. lia.
Qed.

Lemma exec_within_quota env c s s' l :
  within_quota s -> exec env c s = Ok (tt, s', l) -> within_quota s'.
Proof.
  intros Hinv Hexec u. specialize (Hinv u).
  destruct c; cbn [exec] in Hexec.
  - unfold register in Hexec. run_in Hexec. break_ifs Hexec.
    injection Hexec as <- _. cbn. unfold upd.
    destruct (u =? msg_sender env); cbn; [lia | exact Hinv].
  - rewrite run_updateUsedStorage in Hexec. break_ifs Hexec.
    injection Hexec as <- _. cbn. unfold upd.
    destruct (N.eqb_spec u user) as [-> | _]; cbn; [| exact Hinv].
    apply N.ltb_ge. assumption.
  - rewrite run_updateStorageLimit in Hexec. break_ifs Hexec.
    injection Hexec as <- _. cbn. unfold upd.
    destruct (N.eqb_spec u user) as [-> | _]; cbn; [| exact Hinv].
    apply N.ltb_ge. assumption.
  - unfold updateDefaultStorageLimit in Hexec. run_in Hexec. break_ifs Hexec.
    now injection Hexec as <- _.
  - now apply pause_frame in Hexec as [g ->].
  - now apply unpause_frame in Hexec as [g ->].
  - now apply grantRole_frame in Hexec as [g ->].
  - now apply revokeRole_frame in Hexec as [g ->].
  - now apply renounceRole_frame in Hexec as [g ->].
Qed.

Lemma reachable_within_quota s : reachable s -> within_quota s.
Proof.
  induction 1 as [env limit s l Hinit | s env c s' l _ IH Hexec].
  - eapply initialize_within_quota, Hinit.
  - eapply exec_within_quota; eassumption.
Qed.

Lemma reachable_state_after env c s :
  reachable s -> reachable (state_after (exec env c) s).
Proof.
  intros Hreach. unfold state_after.
  destruct (exec env c s) as [[[[] s'] l] |] eqn:Hexec; [| exact Hreach].
  eapply reachable_step; eassumption.
Qed.

Lemma reachable_deployed env limit :
  reachable (state_after (initialize env limit) zero).
Proof.
  unfold state_after.
  destruct (initialize env limit zero) as [[[[] s] l] |] eqn:Hinit.
  - eapply reachable_init, Hinit.
  - cbv in Hinit. discriminate Hinit.
Qed.

Lemma reachable_registered : reachable RegistrySample.registered.
Proof.
  unfold RegistrySample.registered, RegistrySample.trace. cbn [fold_left fst snd].
  do 2 apply reachable_state_after. apply reachable_deployed.
Qed.

(** C5. In every reachable state of the user registry every profile has
    [usedStorage <= storageLimit]. For a registered principal and a
    verifier as caller, [updateUsedStorage] with a value above the limit
    aborts with "Storage limit exceeded" and leaves the state (so
    [usedStorage]) as it was, and with a value within the limit it returns
    and has overwritten [usedStorage] with that value, the limit being
    untouched; whoever calls, a value above the limit is never accepted.
    For a registered principal and an admin as caller, [updateStorageLimit]
    aborts on a limit below the current [usedStorage]. *)
Theorem usedStorage_within_limit (s : Storage) :
  reachable s ->
  (forall u, usedStorage (users s u) <= storageLimit (users s u))
  /\ (forall env u newUsed,
        storageLimit (users s u) < newUsed ->
        (exists e, updateUsedStorage env u newUsed s = Err e)
        /\ state_after (updateUsedStorage env u newUsed) s = s
        /\ (hasRole VERIFIER_ROLE (msg_sender env) s = true ->
            isRegistered (users s u) = true ->
            updateUsedStorage env u newUsed s = Err (Revert "Storage limit exceeded")))
  /\ (forall env u newUsed,
        hasRole VERIFIER_ROLE (msg_sender env) s = true ->
        isRegistered (users s u) = true ->
        newUsed <= storageLimit (users s u) ->
        exists s',
          updateUsedStorage env u newUsed s =
            Ok (tt, s', [Emit (UsedStorageUpdated u newUsed)])
          /\ usedStorage (users s' u) = newUsed
          /\ storageLimit (users s' u) = storageLimit (users s u)
          /\ (forall v, v <> u -> users s' v = users s v))
  /\ (forall env u newLimit,
        hasRole ADMIN_ROLE (msg_sender env) s = true ->
        isRegistered (users s u) = true ->
        newLimit < usedStorage (users s u) ->
        updateStorageLimit env u newLimit s = Err (Revert "New limit below used storage")
        /\ state_after (updateStorageLimit env u newLimit) s = s).
Proof.
  intros Hreach. split; [exact (reachable_within_quota s Hreach) |].
  split; [| split].
  - intros env u newUsed Hover. apply N.ltb_lt in Hover.
    unfold state_after. rewrite run_updateUsedStorage, Hover.
    destruct (hasRole VERIFIER_ROLE (msg_sender env) s); cbn [negb].
    + destruct (isRegistered (users s u)); cbn [negb]; eauto.
      repeat split; eauto. discriminate.
    + repeat split; eauto. discriminate.
  - intros env u newUsed Hrole Hreg Hfit.
    rewrite run_updateUsedStorage, Hrole, Hreg. cbn [negb].
    apply N.ltb_ge in Hfit. rewrite Hfit.
    eexists. split; [reflexivity |]. cbn. rewrite !upd_eq. cbn.
    repeat split. intros v Hv. now apply upd_ne.
  - intros env u newLimit Hrole Hreg Hbelow. apply N.ltb_lt in Hbelow.
    unfold state_after.
    now rewrite run_updateStorageLimit, Hrole, Hreg, Hbelow.
Qed.

Lemma usedStorage_within_limit_witness :
  (forall u, usedStorage (users RegistrySample.registered u)
             <= storageLimit (users RegistrySample.registered u))
  /\ exists s',
       updateUsedStorage (RegistrySample.env_of 2) 3 500 RegistrySample.registered =
         Ok (tt, s', [Emit (UsedStorageUpdated 3 500)])
       /\ usedStorage (users s' 3) = 500
       /\ storageLimit (users s' 3) = 1000.
Proof.
  destruct (usedStorage_within_limit RegistrySample.registered reachable_registered)
    as (Hinv & _ & Hset & _).
  split; [exact Hinv |].
  destruct (Hset (RegistrySample.env_of 2) 3 500) as (s' & Hrun & Hused & Hlimit & _).
  - reflexivity.
  - reflexivity.
  - vm_compute. discriminate.
  - exists s'. repeat split; assumption.
Defined.

End RegistryProperties.

Section OwnerIndexList.
Import OGStorage.

Lemma pop_snoc (l : list bytes32) (y : bytes32) : pop (l ++ [y]) = l.
Proof.
  unfold pop. rewrite length_app. cbn [length].
  replace (length l + 1 - 1)%nat with (length l) by lia.
  apply take_app_length.
Qed.

(** The swap at the index of [fileId], then the pop. *)
Lemma swap_pop (fileId : bytes32) (pre rest : list bytes32) :
  match last (pre ++ fileId :: rest) with
  | Some y => pop (<[length pre := y]> (pre ++ fileId :: rest))
  | None => pre ++ fileId :: rest
  end =
  match last rest with
  | Some y => pre ++ y :: pop rest
  | None => pre
  end.
Proof.
  destruct rest as [| z r _] using rev_ind.
  - cbn [last]. replace (pre ++ [fileId]) with (pre ++ [fileId]) by reflexivity.
    rewrite last_snoc. rewrite insert_app_r_alt by lia.
    replace (length pre - length pre)%nat with 0%nat by lia. cbn.
    apply pop_snoc.
  - rewrite last_snoc, pop_snoc.
    replace (pre ++ fileId :: r ++ [z]) with ((pre ++ fileId :: r) ++ [z])
      by now rewrite <- app_assoc.
    rewrite last_snoc. rewrite <- app_assoc. cbn [app].
    rewrite insert_app_r_alt by lia.
    replace (length pre - length pre)%nat with 0%nat by lia. cbn.
    replace (pre ++ z :: r ++ [z]) with ((pre ++ z :: r) ++ [z])
      by now rewrite <- app_assoc.
    apply pop_snoc.
Qed.

Lemma remove_scan_found (fileId : bytes32) (rest pre : list bytes32) :
  fileId ∉ pre ->
  forall mid post, rest = mid ++ fileId :: post -> fileId ∉ mid ->
  remove_scan fileId (pre ++ rest) (length pre) rest =
  match last post with
  | Some y => (pre ++ mid) ++ y :: pop post
  | None => pre ++ mid
  end.
Proof.
  revert pre. induction rest as [| x rest IH]; intros pre Hpre mid post Hsplit Hmid.
  - now destruct mid.
  - destruct mid as [| m mid]; cbn [app] in Hsplit; injection Hsplit as -> ->.
    + cbn [remove_scan]. rewrite N.eqb_refl, app_nil_r. apply swap_pop.
    + cbn [remove_scan].
      assert (Hne : m <> fileId) by (intros ->; apply Hmid; left).
      apply N.eqb_neq in Hne. rewrite Hne.
      replace (pre ++ m :: mid ++ fileId :: post)
        with ((pre ++ [m]) ++ mid ++ fileId :: post) by now rewrite <- app_assoc.
      replace (S (length pre)) with (length (pre ++ [m]))
        by (rewrite length_app; cbn; lia).
      assert (Hpre' : fileId ∉ pre ++ [m]).
      { rewrite elem_of_app, elem_of_cons, elem_of_nil. apply N.eqb_neq in Hne.
        intros [? | [? | []]]; [contradiction | congruence]. }
      assert (Hmid' : fileId ∉ mid) by (intros ?; apply Hmid; now right).
      rewrite (IH (pre ++ [m]) Hpre' mid post eq_refl Hmid').
      now rewrite <- !app_assoc.
Qed.

Lemma remove_scan_absent (fileId : bytes32) (whole rest : list bytes32) (i : nat) :
  fileId ∉ rest -> remove_scan fileId whole i rest = whole.
Proof.
  revert i. induction rest as [| x rest IH]; intros i Hnot; [reflexivity |].
  cbn [remove_scan].
  assert (Hne : x <> fileId) by (intros ->; apply Hnot; left).
  apply N.eqb_neq in Hne. rewrite Hne. apply IH.
  intros ?. apply Hnot. now right.
Qed.

Lemma remove_from_list_absent fileId l : fileId ∉ l -> remove_from_list fileId l = l.
Proof. apply remove_scan_absent. Qed.

Lemma remove_from_list_spec (fileId : bytes32) (l : list bytes32) :
  NoDup l -> fileId ∈ l ->
  NoDup (remove_from_list fileId l)
  /\ (forall x, x ∈ remove_from_list fileId l <-> x ∈ l /\ x <> fileId)
  /\ length l = S (length (remove_from_list fileId l)).
Proof.
  intros Hnodup Hin.
  apply list_elem_of_split in Hin as (mid & post & ->).
  apply NoDup_app in Hnodup as (Hmid & Hdisj & Hpost).
  apply NoDup_cons in Hpost as (Hpost1 & Hpost).
  assert (Hnot : fileId ∉ mid) by (intros H; apply (Hdisj _ H); left).
  unfold remove_from_list.
  pose proof (remove_scan_found fileId _ [] (not_elem_of_nil _) mid post eq_refl Hnot)
    as Hfound.
  cbn [app length] in Hfound. rewrite Hfound. clear Hfound.
  destruct post as [| z r _] using rev_ind.
  - cbn [last]. split; [exact Hmid |]. split.
    + intros x. rewrite elem_of_app, elem_of_cons, elem_of_nil. 
      split; [intros H; split; [tauto | intros ->; contradiction] | tauto].
    + rewrite length_app. cbn. lia.
  - rewrite last_snoc, pop_snoc.
    apply NoDup_app in Hpost as (Hr & Hrz & _).
    assert (Hzr : z ∉ r) by (intros H; apply (Hrz _ H); left).
    assert (Hzne : z <> fileId).
    { intros ->. apply Hpost1. apply elem_of_app. right. left. }
    split; [| split].
    + apply NoDup_app. split; [exact Hmid |]. split.
      * intros x Hx Hx'. apply (Hdisj x Hx). right. apply elem_of_app.
        apply elem_of_cons in Hx' as [-> | Hx']; [right; left | now left].
      * apply NoDup_cons. split; assumption.
    + intros x. rewrite !elem_of_app, !elem_of_cons, elem_of_app, elem_of_cons, elem_of_nil.
      split.
      * intros [H | [-> | H]]; split; try tauto.
        -- intros ->. contradiction.
        -- intros ->. apply Hpost1. apply elem_of_app. now left.
      * tauto.
    + rewrite !length_app. cbn. rewrite length_app. cbn. lia.
Qed.

End OwnerIndexList.

Section StorageRuns.
Import OGStorage.
Variable keccak256_packed : string -> address -> uint256 -> bytes32.

Lemma run_uploadFile env h s :
  uploadFile keccak256_packed env h s =
  let fileId := keccak256_packed h (msg_sender env) (block_timestamp env) in
  if paused s then Err (Revert "Pausable: paused")
  else if N.of_nat (String.length h) =? 0
  then Err (Revert "Root hash cannot be empty")
  else if exists_ (files s fileId) then Err (Revert "File already exists")
  else Ok (fileId,
           {| access := access s;
              files := upd (files s) fileId
                         {| rootHash := h; owner := msg_sender env;
                            timestamp := block_timestamp env; exists_ := true;
                            sharedWith := sharedWith (files s fileId) |};
              userFiles := upd (userFiles s) (msg_sender env)
                             (userFiles s (msg_sender env) ++ [fileId]);
              _fileCounter := (_fileCounter s + 1) mod 2 ^ 256 |},
           [Emit (FileUploaded fileId h (msg_sender env))]).
Proof.
  unfold uploadFile, increment. cbv zeta. run.
  destruct (paused s); [reflexivity |].
  destruct (N.of_nat (String.length h)) eqn:Hlen; [reflexivity |].
  cbn [N.ltb N.compare N.eqb].
  now destruct (exists_ (files s (keccak256_packed h (msg_sender env) (block_timestamp env)))).
Qed.

Lemma run_shareFile env fileId user s :
  shareFile env fileId user s =
  if paused s then Err (Revert "Pausable: paused")
  else if negb (exists_ (files s fileId)) then Err (Revert "File does not exist")
  else if negb (owner (files s fileId) =? msg_sender env)
  then Err (Revert "Not file owner")
  else if user =? address0 then Err (Revert "Invalid address")
  else if sharedWith (files s fileId) user
  then Err (Revert "Already shared with user")
  else Ok (tt,
           set_files (upd (files s) fileId
             (set_sharedWith (upd (sharedWith (files s fileId)) user true)
                             (files s fileId))) s,
           [Emit (FileShared fileId (msg_sender env) user)]).
Proof.
  unfold shareFile. run.
  destruct (paused s); [reflexivity |].
  destruct (exists_ (files s fileId)); [| reflexivity].
  destruct (owner (files s fileId) =? msg_sender env); [| reflexivity].
  destruct (user =? address0); [reflexivity |].
  now destruct (sharedWith (files s fileId) user).
Qed.

Lemma run_unshareFile env fileId user s :
  unshareFile env fileId user s =
  if paused s then Err (Revert "Pausable: paused")
  else if negb (exists_ (files s fileId)) then Err (Revert "File does not exist")
  else if negb (owner (files s fileId) =? msg_sender env)
  then Err (Revert "Not file owner")
  else if negb (sharedWith (files s fileId) user)
  then Err (Revert "Not shared with user")
  else Ok (tt,
           set_files (upd (files s) fileId
             (set_sharedWith (upd (sharedWith (files s fileId)) user false)
                             (files s fileId))) s,
           [Emit (FileUnshared fileId (msg_sender env) user)]).
Proof.
  unfold unshareFile. run.
  destruct (paused s); [reflexivity |].
  destruct (exists_ (files s fileId)); [| reflexivity].
  destruct (owner (files s fileId) =? msg_sender env); [| reflexivity].
  now destruct (sharedWith (files s fileId) user).
Qed.

Lemma run_deleteFile env fileId s :
  deleteFile env fileId s =
  if paused s then Err (Revert "Pausable: paused")
  else if negb (exists_ (files s fileId)) then Err (Revert "File does not exist")
  else if negb (owner (files s fileId) =? msg_sender env)
  then Err (Revert "Not file owner")
  else if _fileCounter s =? 0 then Err (Revert "Counter: decrement overflow")
  else Ok (tt,
           {| access := access s;
              files := upd (files s) fileId (delete_File (files s fileId));
              userFiles := upd (userFiles s) (msg_sender env)
                             (remove_from_list fileId (userFiles s (msg_sender env)));
              _fileCounter := _fileCounter s - 1 |},
           [Emit (FileDeleted fileId (msg_sender env))]).
Proof.
  unfold deleteFile, decrement. run.
  destruct (paused s); [reflexivity |].
  destruct (exists_ (files s fileId)); [| reflexivity].
  destruct (owner (files s fileId) =? msg_sender env); [| reflexivity].
  cbn [negb set_userFiles set_files _fileCounter].
  now destruct (_fileCounter s).
Qed.

Lemma run_hasAccess fileId user (s : Storage) :
  hasAccess fileId user s =
  Ok (exists_ (files s fileId)
      && ((owner (files s fileId) =? user) || sharedWith (files s fileId) user),
      s, []).
Proof.
  unfold hasAccess. run. now destruct (exists_ (files s fileId)).
Qed.

End StorageRuns.

Section StorageInvariants.
Import OGStorage.
Variable keccak256_packed : string -> address -> uint256 -> bytes32.

Lemma initialize_frame env s l :
  initialize env zero = Ok (tt, s, l) -> exists g, s = with_gate g zero.
Proof.
  unfold initialize. intros Hinit.
  apply initializer_Ok_inv in Hinit as (_ & l0 & Hinit & _).
  unfold __Pausable_init in Hinit. rewrite ?bind_modify in Hinit.
  apply bind_Ok_inv in Hinit as ([] & s1 & l1 & l1' & H1 & H2 & _).
  apply _grantRole_frame in H1 as [g1 ->].
  apply _grantRole_frame in H2 as [g2 ->]. now exists g2.
Qed.

(** The invariants only read [files] and [userFiles], and of a record only
    [exists_], [owner] and [sharedWith]. *)
Lemma index_consistent_ext (s s' : Storage) :
  userFiles s' = userFiles s ->
  (forall id, exists_ (files s' id) = exists_ (files s id)
              /\ owner (files s' id) = owner (files s id)) ->
  index_consistent s -> index_consistent s'.
Proof.
  intros Hlists Hfiles Hinv p. destruct (Hinv p) as [Hnodup Hiff].
  rewrite Hlists. split; [exact Hnodup |].
  intros id. destruct (Hfiles id) as [-> ->]. apply Hiff.
Qed.

Lemma upload_index_consistent env h s fileId s' l :
  index_consistent s ->
  uploadFile keccak256_packed env h s = Ok (fileId, s', l) ->
  index_consistent s'.
Proof.
  intros Hinv Hrun. rewrite run_uploadFile in Hrun. cbv zeta in Hrun.
  break_ifs Hrun. injection Hrun as <- <- _.
  set (fileId := keccak256_packed h (msg_sender env) (block_timestamp env)) in *.
  assert (Hfresh : forall p, fileId ∉ userFiles s p).
  { intros p Hin. apply (Hinv p) in Hin as [Hex _]. congruence. }
  intros p. destruct (Hinv p) as [Hnodup Hiff]. cbn. unfold upd.
  destruct (N.eqb_spec p (msg_sender env)) as [-> | Hp].
  - split.
    + apply NoDup_app. split; [exact Hnodup |]. split; [| apply NoDup_singleton].
      intros x Hx Hx'. apply list_elem_of_singleton in Hx' as ->.
      now apply (Hfresh (msg_sender env)).
    + intros id. rewrite elem_of_app, list_elem_of_singleton.
      destruct (N.eqb_spec id fileId) as [-> | Hid]; cbn.
      * split; auto.
      * rewrite Hiff. tauto.
  - split; [exact Hnodup |]. intros id.
    destruct (N.eqb_spec id fileId) as [-> | Hid]; cbn.
    + split; [intros Hin; now apply Hfresh in Hin | intros [_ Heq]; congruence].
    + apply Hiff.
Qed.

Lemma delete_index_consistent env fileId s s' l :
  index_consistent s ->
  deleteFile env fileId s = Ok (tt, s', l) ->
  index_consistent s'.
Proof.
  intros Hinv Hrun. rewrite run_deleteFile in Hrun.
  break_ifs Hrun. injection Hrun as <- _.
  apply negb_false_iff in Heqb0, Heqb1. apply N.eqb_eq in Heqb1.
  destruct (Hinv (msg_sender env)) as [Hnodup Hiff].
  assert (Hin : fileId ∈ userFiles s (msg_sender env)) by now apply Hiff.
  destruct (remove_from_list_spec fileId _ Hnodup Hin) as (Hnodup' & Hiff' & _).
  intros p. cbn. unfold upd.
  destruct (N.eqb_spec p (msg_sender env)) as [-> | Hp].
  - split; [exact Hnodup' |]. intros id. rewrite Hiff'.
    destruct (N.eqb_spec id fileId) as [-> | Hid]; cbn.
    + split; [tauto | intros [? _]; discriminate].
    + rewrite Hiff. tauto.
  - destruct (Hinv p) as [Hnodup_p Hiff_p]. split; [exact Hnodup_p |].
    intros id. destruct (N.eqb_spec id fileId) as [-> | Hid]; cbn.
    + rewrite Hiff_p. split; [intros [_ ?]; congruence | intros [? _]; discriminate].
    + apply Hiff_p.
Qed.

Lemma exec_index_consistent env c s s' l :
  index_consistent s ->
  exec keccak256_packed env c s = Ok (tt, s', l) ->
  index_consistent s'.
Proof.
  intros Hinv Hexec. destruct c; cbn [exec] in Hexec.
  - apply bind_Ok_inv in Hexec as (fileId & s1 & l1 & l2 & Hup & Hret & _).
    injection Hret as <- _. eapply upload_index_consistent; eassumption.
  - rewrite run_shareFile in Hexec. break_ifs Hexec. injection Hexec as <- _.
    revert Hinv. apply index_consistent_ext; [reflexivity |].
    intros id. cbn. unfold upd. now destruct (N.eqb_spec id fileId) as [-> | _].
  - rewrite run_unshareFile in Hexec. break_ifs Hexec. injection Hexec as <- _.
    revert Hinv. apply index_consistent_ext; [reflexivity |].
    intros id. cbn. unfold upd. now destruct (N.eqb_spec id fileId) as [-> | _].
  - eapply delete_index_consistent; eassumption.
  - now apply pause_frame in Hexec as [g ->].
  - now apply unpause_frame in Hexec as [g ->].
  - now apply grantRole_frame in Hexec as [g ->].
  - now apply revokeRole_frame in Hexec as [g ->].
  - now apply renounceRole_frame in Hexec as [g ->].
Qed.

Lemma reachable_index_consistent s :
  reachable keccak256_packed s -> index_consistent s.
Proof.
  induction 1 as [env s l Hinit | s env c s' l _ IH Hexec].
  - apply initialize_frame in Hinit as [g ->]. intros p. cbn.
    split; [apply NoDup_nil_2 |]. intros id. rewrite elem_of_nil.
    split; [tauto | intros [? _]; discriminate].
  - eapply exec_index_consistent; eassumption.
Qed.

Lemma exec_no_null_grant env c s s' l :
  no_null_grant s ->
  exec keccak256_packed env c s = Ok (tt, s', l) ->
  no_null_grant s'.
Proof.
  intros Hinv Hexec id. specialize (Hinv id). destruct c; cbn [exec] in Hexec.
  - apply bind_Ok_inv in Hexec as (fileId' & s1 & l1 & l2 & Hup & Hret & _).
    injection Hret as <- _. rewrite run_uploadFile in Hup. cbv zeta in Hup.
    break_ifs Hup. injection Hup as _ <- _. cbn. unfold upd.
    destruct (N.eqb_spec id (keccak256_packed rootHash_ (msg_sender env) (block_timestamp env)))
      as [-> | _]; [| exact Hinv].
    exact Hinv.
  - rewrite run_shareFile in Hexec. break_ifs Hexec. injection Hexec as <- _.
    cbn. unfold upd at 1.
    destruct (N.eqb_spec id fileId) as [-> | _]; [| exact Hinv].
    cbn. unfold upd. unfold address0 in *. rewrite N.eqb_sym, Heqb2. exact Hinv.
  - rewrite run_unshareFile in Hexec. break_ifs Hexec. injection Hexec as <- _.
    cbn. unfold upd at 1.
    destruct (N.eqb_spec id fileId) as [-> | _]; [| exact Hinv].
    cbn. unfold upd. destruct (address0 =? user); [reflexivity | exact Hinv].
  - rewrite run_deleteFile in Hexec. break_ifs Hexec. injection Hexec as <- _.
    cbn. unfold upd.
    destruct (N.eqb_spec id fileId) as [-> | _]; [| exact Hinv]. exact Hinv.
  - now apply pause_frame in Hexec as [g ->].
  - now apply unpause_frame in Hexec as [g ->].
  - now apply grantRole_frame in Hexec as [g ->].
  - now apply revokeRole_frame in Hexec as [g ->].
  - now apply renounceRole_frame in Hexec as [g ->].
Qed.

Lemma reachable_no_null_grant s :
  reachable keccak256_packed s -> no_null_grant s.
Proof.
  induction 1 as [env s l Hinit | s env c s' l _ IH Hexec].
  - apply initialize_frame in Hinit as [g ->]. intros id. reflexivity.
  - eapply exec_no_null_grant; eassumption.
Qed.

End StorageInvariants.

Section StorageProperties.
Import OGStorage.
Variable keccak256_packed : string -> address -> uint256 -> bytes32.

Lemma reachable_state_after_exec env c s :
  reachable keccak256_packed s ->
  reachable keccak256_packed (state_after (exec keccak256_packed env c) s).
Proof.
  intros Hreach. unfold state_after.
  destruct (exec keccak256_packed env c s) as [[[[] s'] l] |] eqn:Hexec;
    [| exact Hreach].
  eapply reachable_step; eassumption.
Qed.

Lemma reachable_run trace s :
  reachable keccak256_packed s ->
  reachable keccak256_packed (run keccak256_packed trace s).
Proof.
  revert s. induction trace as [| [env c] trace IH]; intros s Hreach; [exact Hreach |].
  cbn [run]. apply IH. now apply reachable_state_after_exec.
Qed.

Lemma reachable_initialized env :
  reachable keccak256_packed (state_after (initialize env) zero).
Proof.
  unfold state_after.
  destruct (initialize env zero) as [[[[] s] l] |] eqn:Hinit.
  - eapply reachable_init, Hinit.
  - cbv in Hinit. discriminate Hinit.
Qed.

(** C6. In every reachable state of the file registry, an identifier is in
    the owner index of a principal if and only if its record exists and is
    owned by that principal. After a [deleteFile id] that returned, the
    caller is the owner the record had, [id] is not in what [getUserFiles]
    returns for that owner, the record does not exist, and what
    [getTotalFiles] returns has decreased by exactly 1. *)
Theorem owner_index_matches_records (s : Storage) :
  reachable keccak256_packed s ->
  (forall p id,
      id ∈ userFiles s p <-> exists_ (files s id) = true /\ owner (files s id) = p)
  /\ (forall env id s' l,
        deleteFile env id s = Ok (tt, s', l) ->
        owner (files s id) = msg_sender env
        /\ exists_ (files s' id) = false
        /\ (exists ids, getUserFiles (msg_sender env) s' = Ok (ids, s', [])
                        /\ id ∉ ids)
        /\ (exists n n', getTotalFiles s = Ok (n, s, [])
                         /\ getTotalFiles s' = Ok (n', s', [])
                         /\ n = n' + 1)).
Proof.
  intros Hreach. pose proof (reachable_index_consistent _ _ Hreach) as Hinv.
  split; [intros p id; apply (Hinv p) |].
  intros env id s' l Hrun.
  assert (Hinv' : index_consistent s')
    by (eapply delete_index_consistent; eassumption).
  rewrite run_deleteFile in Hrun. break_ifs Hrun. injection Hrun as <- _.
  apply negb_false_iff in Heqb0, Heqb1. apply N.eqb_eq in Heqb1.
  apply N.eqb_neq in Heqb2.
  split; [exact Heqb1 |]. split; [cbn; now rewrite upd_eq |]. split.
  - eexists. split; [reflexivity |]. intros Hin.
    apply (Hinv' (msg_sender env)) in Hin as [Hex _].
    cbn in Hex. rewrite upd_eq in Hex. discriminate Hex.
  - exists (_fileCounter s), (_fileCounter s - 1).
    split; [reflexivity |]. split; [reflexivity |]. cbn. lia.
Qed.

(** C7. [hasAccess id p] returns [false] when the record of [id] does not
    exist and otherwise returns [true] exactly when [p] is the owner of the
    record or is in its [sharedWith] set. It depends on no caller, returns
    in every state, whatever the pause switch and the roles are, and leaves
    the storage as it is. *)
Theorem hasAccess_spec (s : Storage) (id : bytes32) (p : address) :
  exists b,
    hasAccess id p s = Ok (b, s, [])
    /\ (exists_ (files s id) = false -> b = false)
    /\ (exists_ (files s id) = true ->
        (b = true <-> owner (files s id) = p \/ sharedWith (files s id) p = true))
    /\ (forall g, hasAccess id p (with_gate g s) = Ok (b, with_gate g s, [])).
Proof.
  eexists. split; [apply run_hasAccess |]. split; [| split].
  - now intros ->.
  - intros ->. cbn [andb]. rewrite orb_true_iff, N.eqb_eq. reflexivity.
  - intros g. now rewrite run_hasAccess.
Qed.

(** C10. In every reachable state of the file registry no [sharedWith] set
    contains the null principal. [shareFile] with the null principal as
    grantee never returns, and aborts with "Invalid address" once the
    pause, existence and ownership checks have passed; [unshareFile] of
    the null principal never returns, and aborts with "Not shared with
    user" once those checks have passed; and [hasAccess] answers [true]
    for the null principal only on a record that it owns. *)
Theorem null_principal_never_shared (s : Storage) :
  reachable keccak256_packed s ->
  (forall id, sharedWith (files s id) address0 = false)
  /\ (forall env id,
        (exists e, shareFile env id address0 s = Err e)
        /\ (paused s = false -> exists_ (files s id) = true ->
            owner (files s id) = msg_sender env ->
            shareFile env id address0 s = Err (Revert "Invalid address")))
  /\ (forall env id,
        (exists e, unshareFile env id address0 s = Err e)
        /\ (paused s = false -> exists_ (files s id) = true ->
            owner (files s id) = msg_sender env ->
            unshareFile env id address0 s = Err (Revert "Not shared with user")))
  /\ (forall id,
        hasAccess id address0 s =
        Ok (exists_ (files s id) && (owner (files s id) =? address0), s, [])).
Proof.
  intros Hreach. pose proof (reachable_no_null_grant _ _ Hreach) as Hinv.
  split; [exact Hinv |]. split; [| split].
  - intros env id. rewrite run_shareFile. split.
    + destruct (paused s); [eauto |].
      destruct (exists_ (files s id)); cbn [negb]; [| eauto].
      destruct (owner (files s id) =? msg_sender env); cbn [negb]; eauto.
    + intros -> -> ->. now rewrite N.eqb_refl.
  - intros env id. rewrite run_unshareFile, Hinv. split.
    + destruct (paused s); [eauto |].
      destruct (exists_ (files s id)); cbn [negb]; [| eauto].
      destruct (owner (files s id) =? msg_sender env); cbn [negb]; eauto.
    + intros -> -> ->. now rewrite N.eqb_refl.
  - intros id. rewrite run_hasAccess, Hinv. now rewrite orb_false_r.
Qed.

Lemma exec_keeps_absent env c s id :
  exists_ (files s id) = false ->
  derives keccak256_packed id (env, c) = false ->
  exists_ (files (state_after (exec keccak256_packed env c) s) id) = false.
Proof.
  intros Habsent Hother. unfold state_after.
  destruct (exec keccak256_packed env c s) as [[[[] s'] l] |] eqn:Hexec;
    [| exact Habsent].
  destruct c; cbn [exec derives] in Hexec, Hother.
  - apply bind_Ok_inv in Hexec as (fileId' & s1 & l1 & l2 & Hup & Hret & _).
    injection Hret as <- _. rewrite run_uploadFile in Hup. cbv zeta in Hup.
    break_ifs Hup. injection Hup as _ <- _. cbn.
    apply N.eqb_neq in Hother. rewrite upd_ne by congruence. exact Habsent.
  - rewrite run_shareFile in Hexec. break_ifs Hexec. injection Hexec as <- _.
    cbn. unfold upd. now destruct (N.eqb_spec id fileId) as [-> | _].
  - rewrite run_unshareFile in Hexec. break_ifs Hexec. injection Hexec as <- _.
    cbn. unfold upd. now destruct (N.eqb_spec id fileId) as [-> | _].
  - rewrite run_deleteFile in Hexec. break_ifs Hexec. injection Hexec as <- _.
    cbn. unfold upd. now destruct (N.eqb_spec id fileId) as [-> | _].
  - now apply pause_frame in Hexec as [g ->].
  - now apply unpause_frame in Hexec as [g ->].
  - now apply grantRole_frame in Hexec as [g ->].
  - now apply revokeRole_frame in Hexec as [g ->].
  - now apply renounceRole_frame in Hexec as [g ->].
Qed.

Lemma run_keeps_absent trace s id :
  exists_ (files s id) = false ->
  forallb (fun step => negb (derives keccak256_packed id step)) trace = true ->
  exists_ (files (run keccak256_packed trace s) id) = false.
Proof.
  revert s. induction trace as [| [env c] trace IH]; intros s Habsent Hother;
    [exact Habsent |].
  cbn [forallb] in Hother. apply andb_true_iff in Hother as [Hstep Hrest].
  apply negb_true_iff in Hstep. cbn [run].
  apply IH; [| exact Hrest]. now apply exec_keeps_absent.
Qed.

(** A deletion that returns resets the record but keeps every sharing grant
    stored under the identifier. *)
Lemma deleteFile_keeps_sharedWith env id s s' l :
  deleteFile env id s = Ok (tt, s', l) ->
  exists_ (files s' id) = false
  /\ owner (files s' id) = address0
  /\ forall g, sharedWith (files s' id) g = sharedWith (files s id) g.
Proof.
  intros Hdel. rewrite run_deleteFile in Hdel. break_ifs Hdel.
  injection Hdel as <- _. cbn. now rewrite upd_eq.
Qed.

(** An upload that derives the identifier of an absent record creates the
    record, whatever was stored under the identifier before. *)
Lemma upload_creates env h s :
  paused s = false -> h <> "" ->
  exists_ (files s (keccak256_packed h (msg_sender env) (block_timestamp env))) = false ->
  exists_ (files (state_after (exec keccak256_packed env (UploadFile h)) s)
                 (keccak256_packed h (msg_sender env) (block_timestamp env))) = true.
Proof.
  intros Hrun Hh Habsent. unfold state_after. cbn [exec].
  assert (Hlen : (N.of_nat (String.length h) =? 0) = false).
  { apply N.eqb_neq. destruct h; [contradiction | cbn [String.length]; lia]. }
  unfold bind. rewrite run_uploadFile. cbv zeta. rewrite Hrun, Habsent, Hlen.
  cbn. now rewrite upd_eq.
Qed.

(** C2 (as amended). After a [deleteFile id] that returned, the record of
    [id] does not exist, and it still does not exist after any sequence of
    later calls none of which is an [uploadFile] deriving [id]. An
    [uploadFile] that derives [id] again (the same content hash, caller
    and timestamp as the deleted record had, or a collision of the hash),
    made with a non-empty hash while the contract is not paused, does
    create a record under [id] again. *)
Theorem deleted_id_absent_until_rederived env id s s1 l :
  deleteFile env id s = Ok (tt, s1, l) ->
  exists_ (files s1 id) = false
  /\ (forall trace,
        forallb (fun step => negb (derives keccak256_packed id step)) trace = true ->
        exists_ (files (run keccak256_packed trace s1) id) = false)
  /\ (forall trace env' h,
        forallb (fun step => negb (derives keccak256_packed id step)) trace = true ->
        derives keccak256_packed id (env', UploadFile h) = true ->
        paused (run keccak256_packed trace s1) = false ->
        h <> "" ->
        exists_ (files (run keccak256_packed (trace ++ [(env', UploadFile h)]) s1) id)
        = true).
Proof.
  intros Hdel.
  assert (Habsent : exists_ (files s1 id) = false).
  { rewrite run_deleteFile in Hdel. break_ifs Hdel. injection Hdel as <- _.
    cbn. now rewrite upd_eq. }
  split; [exact Habsent |]. split.
  - intros trace. now apply run_keeps_absent.
  - intros trace env' h Hother Hsame Hrun Hh.
    cbn [derives] in Hsame. apply N.eqb_eq in Hsame. subst id.
    assert (Happ : forall t1 t2 s0,
               run keccak256_packed (t1 ++ t2) s0 =
               run keccak256_packed t2 (run keccak256_packed t1 s0)).
    { induction t1 as [| [e c] t1 IH]; intros t2 s0; [reflexivity |].
      cbn [app run]. apply IH. }
    rewrite Happ. cbn [run].
    apply upload_creates; [exact Hrun | exact Hh |].
    now apply run_keeps_absent.
Qed.

End StorageProperties.

Section StorageSamples.
Import OGStorage StorageSample.

Lemma reachable_shared : reachable sample_hash shared.
Proof.
  unfold shared, uploaded, deployed.
  do 2 apply reachable_run. apply reachable_initialized.
Qed.

Lemma owner_index_matches_records_witness :
  (fileId0 ∈ userFiles shared 10
   <-> exists_ (files shared fileId0) = true /\ owner (files shared fileId0) = 10)
  /\ exists_ (files deleted fileId0) = false
  /\ (exists ids, getUserFiles 10 deleted = Ok (ids, deleted, []) /\ fileId0 ∉ ids)
  /\ (exists n n', getTotalFiles shared = Ok (n, shared, [])
                   /\ getTotalFiles deleted = Ok (n', deleted, [])
                   /\ n = n' + 1).
Proof.
  destruct (owner_index_matches_records sample_hash shared reachable_shared)
    as [Hindex Hdelete].
  split; [apply Hindex |].
  apply (Hdelete (env_at 10 100) fileId0 deleted [Emit (FileDeleted fileId0 10)]).
  vm_compute. reflexivity.
Defined.

Lemma hasAccess_spec_witness :
  exists b,
    hasAccess fileId0 20 shared = Ok (b, shared, [])
    /\ (exists_ (files shared fileId0) = false -> b = false)
    /\ (exists_ (files shared fileId0) = true ->
        (b = true <-> owner (files shared fileId0) = 20
                      \/ sharedWith (files shared fileId0) 20 = true))
    /\ (forall g, hasAccess fileId0 20 (with_gate g shared) =
                  Ok (b, with_gate g shared, [])).
Proof. exact (hasAccess_spec shared fileId0 20). Defined.

Lemma null_principal_never_shared_witness :
  (forall id, sharedWith (files shared id) address0 = false)
  /\ shareFile (env_at 10 100) fileId0 address0 shared = Err (Revert "Invalid address")
  /\ unshareFile (env_at 10 100) fileId0 address0 shared =
     Err (Revert "Not shared with user").
Proof.
  destruct (null_principal_never_shared sample_hash shared reachable_shared)
    as (Hnull & Hshare & Hunshare & _).
  split; [exact Hnull |]. split.
  - apply (Hshare (env_at 10 100) fileId0); reflexivity.
  - apply (Hunshare (env_at 10 100) fileId0); reflexivity.
Defined.

Lemma deleted_id_absent_until_rederived_witness :
  exists_ (files deleted fileId0) = false
  /\ exists_ (files (run sample_hash [(env_at 10 101, UploadFile "QmRoot");
                                       (env_at 20 100, UploadFile "QmRoot")]
                         deleted) fileId0) = false
  /\ exists_ (files (run sample_hash ([(env_at 10 101, UploadFile "QmRoot")]
                                      ++ [(env_at 10 100, UploadFile "QmRoot")])
                         deleted) fileId0) = true.
Proof.
  destruct (deleted_id_absent_until_rederived sample_hash (env_at 10 100) fileId0
              shared deleted [Emit (FileDeleted fileId0 10)])
    as (Habsent & Hstays & Hback).
  - vm_compute. reflexivity.
  - split; [exact Habsent |]. split.
    + apply Hstays. vm_compute. reflexivity.
    + apply Hback.
      * vm_compute. reflexivity.
      * vm_compute. reflexivity.
      * vm_compute. reflexivity.
      * discriminate.
Defined.

(** C2, counterexample: account 10 uploads "QmRoot" at time 100, shares and
    deletes the file, and uploads "QmRoot" again at time 100. The deletion
    returned and left no record under the identifier; the second upload
    derives the same identifier and a record exists under it again. *)
Lemma reupload_recreates_record :
  deleteFile (env_at 10 100) fileId0 shared =
    Ok (tt, deleted, [Emit (FileDeleted fileId0 10)])
  /\ exists_ (files deleted fileId0) = false
  /\ uploadFile sample_hash (env_at 10 100) "QmRoot" deleted =
    Ok (fileId0, reuploaded, [Emit (FileUploaded fileId0 "QmRoot" 10)])
  /\ exists_ (files reuploaded fileId0) = true.
Proof. vm_compute. repeat split; reflexivity. Qed.

(** C3, the failing run: account 10 uploads "QmRoot", shares it with
    account 20 and deletes it. The deletion returned, yet the grant stored
    for account 20 under the identifier is still there; when the same
    upload is made again, account 20 has access to the new record without
    having been granted it. *)
Lemma delete_keeps_sharing_grant :
  sharedWith (files shared fileId0) 20 = true
  /\ deleteFile (env_at 10 100) fileId0 shared =
    Ok (tt, deleted, [Emit (FileDeleted fileId0 10)])
  /\ sharedWith (files deleted fileId0) 20 = true
  /\ uploadFile sample_hash (env_at 10 100) "QmRoot" deleted =
    Ok (fileId0, reuploaded, [Emit (FileUploaded fileId0 "QmRoot" 10)])
  /\ hasAccess fileId0 20 reuploaded = Ok (true, reuploaded, []).
Proof. vm_compute. repeat split; reflexivity. Qed.

End StorageSamples.

Section PauseProperties.

Lemma Role_eqb_refl r : Role_eqb r r = true.
Proof. now destruct r. Qed.

Lemma aborts_state_after {S A} (m : M S A) (s : S) e :
  m s = Err e -> state_after m s = s.
Proof. unfold state_after. now intros ->. Qed.

Lemma unpause_while_paused {S} `{Gated S} env (s : S) :
  paused s = true ->
  hasRole ADMIN_ROLE (msg_sender env) s = true ->
  exists s', unpause env s = Ok (tt, s', [Emit (Unpaused (msg_sender env))])
             /\ paused s' = false.
Proof.
  intros Hpaused Hrole. unfold unpause, _unpause. run.
  rewrite Hrole, Hpaused. eexists. split; [reflexivity |].
  unfold paused. now rewrite gate_with_gate.
Qed.

Lemma grantRole_while_paused {S} `{Gated S} env role account (s : S) :
  paused s = true ->
  hasRole DEFAULT_ADMIN_ROLE (msg_sender env) s = true ->
  exists s' l, grantRole env role account s = Ok (tt, s', l)
               /\ hasRole role account s' = true
               /\ paused s' = true.
Proof.
  intros Hpaused Hrole. unfold grantRole, _grantRole. run. rewrite Hrole.
  destruct (hasRole role account s) eqn:Hheld.
  - exists s, []. auto.
  - run. eexists _, _. split; [reflexivity |].
    unfold hasRole, paused in *. rewrite gate_with_gate. cbn.
    now rewrite Role_eqb_refl, N.eqb_refl.
Qed.

(** C1 (as amended). In every paused state, [uploadFile], [shareFile],
    [unshareFile], [deleteFile], [register] and [collectFee] abort with the
    paused error and leave the state as it was, whoever calls, while
    [unpause] and [grantRole] still return for a caller holding the admin,
    respectively the super-admin role; [pause] itself does not return: for
    an admin it aborts with the paused error, for anyone else with the
    missing-role error. The operations reserved to a role
    carry no pause check: in a paused state [updateUsedStorage],
    [updateStorageLimit], [updateDefaultStorageLimit], [distributeFees],
    [updateFeeConfig], [updateTreasury], [addDiscountedUser],
    [removeDiscountedUser] and [updateDiscountPercentage] still return for
    a caller holding the role, when their own checks pass; for
    [distributeFees] these are a positive balance and a treasury that
    takes the transfer, whatever it does with the control it is given. *)
Theorem pause_gates_user_operations :
  (forall keccak256_packed env (s : OGStorage.Storage),
      paused s = true ->
      (forall h,
          OGStorage.uploadFile keccak256_packed env h s = Err (Revert "Pausable: paused")
          /\ state_after (OGStorage.uploadFile keccak256_packed env h) s = s)
      /\ (forall id u,
          OGStorage.shareFile env id u s = Err (Revert "Pausable: paused")
          /\ state_after (OGStorage.shareFile env id u) s = s)
      /\ (forall id u,
          OGStorage.unshareFile env id u s = Err (Revert "Pausable: paused")
          /\ state_after (OGStorage.unshareFile env id u) s = s)
      /\ (forall id,
          OGStorage.deleteFile env id s = Err (Revert "Pausable: paused")
          /\ state_after (OGStorage.deleteFile env id) s = s))
  /\ (forall env (s : OGRegistry.Storage),
      paused s = true ->
      (forall name,
          OGRegistry.register env name s = Err (Revert "Pausable: paused")
          /\ state_after (OGRegistry.register env name) s = s)
      /\ (forall u n,
          hasRole VERIFIER_ROLE (msg_sender env) s = true ->
          OGRegistry.isRegistered (OGRegistry.users s u) = true ->
          n <= OGRegistry.storageLimit (OGRegistry.users s u) ->
          exists s' l, OGRegistry.updateUsedStorage env u n s = Ok (tt, s', l)
                       /\ OGRegistry.usedStorage (OGRegistry.users s' u) = n)
      /\ (forall u n,
          hasRole ADMIN_ROLE (msg_sender env) s = true ->
          OGRegistry.isRegistered (OGRegistry.users s u) = true ->
          OGRegistry.usedStorage (OGRegistry.users s u) <= n ->
          exists s' l, OGRegistry.updateStorageLimit env u n s = Ok (tt, s', l)
                       /\ OGRegistry.storageLimit (OGRegistry.users s' u) = n)
      /\ (forall n,
          hasRole ADMIN_ROLE (msg_sender env) s = true ->
          exists s' l, OGRegistry.updateDefaultStorageLimit env n s = Ok (tt, s', l)
                       /\ OGRegistry.defaultStorageLimit s' = n))
  /\ (forall env (s : OGFees.Storage),
      paused s = true ->
      (forall value payer amount feeType callee,
          OGFees.collectFee env value payer amount feeType callee s =
            Err (Revert "Pausable: paused")
          /\ state_after (OGFees.collectFee env value payer amount feeType callee) s = s)
      /\ (forall inner,
          hasRole ADMIN_ROLE (msg_sender env) s = true ->
          0 < OGFees.balance s ->
          OGFees.treasury s = this env \/ accepts_value env (OGFees.treasury s) = true ->
          exists s' l,
            OGFees.distributeFees env (OGFees.reentries env inner) s =
              Ok (tt, s',
                  Send (OGFees.treasury s) (OGFees.balance s)
                    :: l ++ [Emit (FeeDistributed (OGFees.treasury s') (OGFees.balance s))]))
      /\ (forall b n sh m,
          hasRole ADMIN_ROLE (msg_sender env) s = true ->
          exists s' l, OGFees.updateFeeConfig env b n sh m s = Ok (tt, s', l)
                       /\ OGFees.feeConfig s' =
                          {| OGFees.baseStorageFee := b; OGFees.networkFee := n;
                             OGFees.sharingFee := sh; OGFees.minimumFee := m |})
      /\ (forall t,
          hasRole ADMIN_ROLE (msg_sender env) s = true ->
          t <> address0 ->
          exists s' l, OGFees.updateTreasury env t s = Ok (tt, s', l)
                       /\ OGFees.treasury s' = t)
      /\ (forall u,
          hasRole FEE_MANAGER_ROLE (msg_sender env) s = true ->
          OGFees.discountedUsers s u = false ->
          exists s' l, OGFees.addDiscountedUser env u s = Ok (tt, s', l)
                       /\ OGFees.discountedUsers s' u = true)
      /\ (forall u,
          hasRole FEE_MANAGER_ROLE (msg_sender env) s = true ->
          OGFees.discountedUsers s u = true ->
          exists s' l, OGFees.removeDiscountedUser env u s = Ok (tt, s', l)
                       /\ OGFees.discountedUsers s' u = false)
      /\ (forall p,
          hasRole ADMIN_ROLE (msg_sender env) s = true ->
          p <= 100 ->
          exists s' l, OGFees.updateDiscountPercentage env p s = Ok (tt, s', l)
                       /\ OGFees.discountPercentage s' = p))
  /\ (forall (S : Type) (G : Gated S) env (s : S),
      paused s = true ->
      (hasRole ADMIN_ROLE (msg_sender env) s = true ->
       exists s', unpause env s = Ok (tt, s', [Emit (Unpaused (msg_sender env))])
                  /\ paused s' = false)
      /\ (forall role account,
          hasRole DEFAULT_ADMIN_ROLE (msg_sender env) s = true ->
          exists s' l, grantRole env role account s = Ok (tt, s', l)
                       /\ hasRole role account s' = true
                       /\ paused s' = true)
      /\ (hasRole ADMIN_ROLE (msg_sender env) s = true ->
          pause env s = Err (Revert "Pausable: paused")
          /\ state_after (pause env) s = s)
      /\ (hasRole ADMIN_ROLE (msg_sender env) s = false ->
          pause env s = Err (MissingRole (msg_sender env) ADMIN_ROLE)
          /\ state_after (pause env) s = s)).
Proof.
  split; [| split; [| split]].
  - intros keccak256_packed env s Hpaused.
    assert (Hup : forall h, OGStorage.uploadFile keccak256_packed env h s
                            = Err (Revert "Pausable: paused")).
    { intros h. rewrite run_uploadFile. cbv zeta. now rewrite Hpaused. }
    assert (Hshare : forall id u, OGStorage.shareFile env id u s
                                  = Err (Revert "Pausable: paused")).
    { intros id u. now rewrite run_shareFile, Hpaused. }
    assert (Hunshare : forall id u, OGStorage.unshareFile env id u s
                                    = Err (Revert "Pausable: paused")).
    { intros id u. now rewrite run_unshareFile, Hpaused. }
    assert (Hdel : forall id, OGStorage.deleteFile env id s
                              = Err (Revert "Pausable: paused")).
    { intros id. now rewrite run_deleteFile, Hpaused. }
    repeat split; eauto using aborts_state_after.
  - intros env s Hpaused. split; [| split; [| split]].
    + intros name.
      assert (Hreg : OGRegistry.register env name s = Err (Revert "Pausable: paused")).
      { unfold OGRegistry.register. run. now rewrite Hpaused. }
      eauto using aborts_state_after.
    + intros u n Hrole Hreg Hfit. apply N.ltb_ge in Hfit.
      rewrite run_updateUsedStorage, Hrole, Hreg, Hfit. cbn [negb].
      eexists _, _. split; [reflexivity |]. cbn. now rewrite upd_eq.
    + intros u n Hrole Hreg Hfit. apply N.ltb_ge in Hfit.
      rewrite run_updateStorageLimit, Hrole, Hreg, Hfit. cbn [negb].
      eexists _, _. split; [reflexivity |]. cbn. now rewrite upd_eq.
    + intros n Hrole. unfold OGRegistry.updateDefaultStorageLimit. run.
      rewrite Hrole. eexists _, _. split; reflexivity.
  - intros env s Hpaused. split; [| split; [| split; [| split; [| split; [| split]]]]].
    + intros value payer amount feeType callee.
      assert (Hcol : OGFees.collectFee env value payer amount feeType callee s
                     = Err (Revert "Pausable: paused"))
        by now rewrite run_collectFee, Hpaused.
      eauto using aborts_state_after.
    + intros inner Hrole Hbal Htakes.
      assert (Hpos : (OGFees.balance s =? 0) = false) by (apply N.eqb_neq; lia).
      rewrite run_distributeFees, Hrole, Hpos. cbn [negb].
      destruct (OGFees.treasury s =? this env) eqn:Hself.
      * exists s, []. reflexivity.
      * destruct Htakes as [Heq | Hacc]; [apply N.eqb_neq in Hself; contradiction |].
        rewrite Hacc.
        destruct (reentries_return env inner (OGFees.set_balance 0 s))
          as (s' & l & ->).
        now exists s', l.
    + intros b n sh m Hrole. unfold OGFees.updateFeeConfig. run. rewrite Hrole.
      eexists _, _. split; reflexivity.
    + intros t Hrole Ht. unfold OGFees.updateTreasury. cbv zeta. run.
      apply N.eqb_neq in Ht. rewrite Hrole, Ht. cbn [negb].
      eexists _, _. split; reflexivity.
    + intros u Hrole Hnot. unfold OGFees.addDiscountedUser. run.
      rewrite Hrole, Hnot. cbn [negb].
      eexists _, _. split; [reflexivity |]. cbn. apply upd_eq.
    + intros u Hrole Hyes. unfold OGFees.removeDiscountedUser. run.
      rewrite Hrole, Hyes.
      eexists _, _. split; [reflexivity |]. cbn. apply upd_eq.
    + intros p Hrole Hp. unfold OGFees.updateDiscountPercentage. cbv zeta. run.
      apply N.leb_le in Hp. rewrite Hrole, Hp.
      eexists _, _. split; reflexivity.
  - intros S G env s Hpaused. split; [| split; [| split]].
    + intros Hrole. now apply unpause_while_paused.
    + intros role account Hrole. now apply grantRole_while_paused.
    + intros Hrole.
      assert (Hpause : pause env s = Err (Revert "Pausable: paused")).
      { unfold pause, _pause. run. now rewrite Hrole, Hpaused. }
      eauto using aborts_state_after.
    + intros Hrole.
      assert (Hpause : pause env s = Err (MissingRole (msg_sender env) ADMIN_ROLE)).
      { unfold pause. run. now rewrite Hrole. }
      eauto using aborts_state_after.
Qed.

Lemma pause_gates_user_operations_witness :
  OGRegistry.register (RegistrySample.env_of 4) "bob" RegistrySample.paused_registry
  = Err (Revert "Pausable: paused")
  /\ exists s',
       unpause (RegistrySample.env_of 1) RegistrySample.paused_registry =
         Ok (tt, s', [Emit (Unpaused 1)])
       /\ paused s' = false.
Proof.
  destruct pause_gates_user_operations as (_ & Hregistry & _ & Hgate).
  assert (Hpaused : paused RegistrySample.paused_registry = true) by reflexivity.
  split.
  - apply (Hregistry (RegistrySample.env_of 4) RegistrySample.paused_registry Hpaused).
  - apply (Hgate _ _ (RegistrySample.env_of 1) RegistrySample.paused_registry Hpaused).
    reflexivity.
Defined.

(** C1, counterexample: the registry of the sample is paused. The
    verifier (account 2) sets the used storage of account 3 from 0 to 500:
    [updateUsedStorage] returns and has changed the state. And [pause],
    called by the admin (account 1), does not succeed: it aborts with the
    paused error. *)
Lemma paused_registry_updates_and_refuses_pause :
  paused RegistrySample.paused_registry = true
  /\ OGRegistry.usedStorage
       (OGRegistry.users RegistrySample.paused_registry 3) = 0
  /\ (exists s',
       OGRegistry.updateUsedStorage (RegistrySample.env_of 2) 3 500
         RegistrySample.paused_registry =
         Ok (tt, s', [Emit (UsedStorageUpdated 3 500)])
       /\ OGRegistry.usedStorage (OGRegistry.users s' 3) = 500)
  /\ hasRole ADMIN_ROLE 1 RegistrySample.paused_registry = true
  /\ pause (RegistrySample.env_of 1) RegistrySample.paused_registry =
     Err (Revert "Pausable: paused").
Proof.
  split; [reflexivity |]. split; [reflexivity |]. split; [| split].
  - rewrite run_updateUsedStorage. vm_compute.
    eexists. split; reflexivity.
  - reflexivity.
  - reflexivity.
Qed.

End PauseProperties.

(** * Further properties of the user registry *)

Section RegistryFurther.
Import OGRegistry.

Lemma run_register env name s :
  register env name s =
  if paused s then Err (Revert "Pausable: paused")
  else if isRegistered (users s (msg_sender env))
  then Err (Revert "User already registered")
  else if N.of_nat (String.length name) =? 0
  then Err (Revert "Username cannot be empty")
  else if negb (usernameToAddress s name =? address0)
  then Err (Revert "Username already taken")
  else Ok (tt,
           {| access := access s;
              users := upd (users s) (msg_sender env)
                         {| isRegistered := true; username := name;
                            storageLimit := defaultStorageLimit s;
                            usedStorage := 0;
                            registrationDate := block_timestamp env |};
              usernameToAddress :=
                upd_string (usernameToAddress s) name (msg_sender env);
              defaultStorageLimit := defaultStorageLimit s |},
           [Emit (UserRegistered (msg_sender env) name)]).
Proof.
  unfold register. run.
  destruct (paused s); [reflexivity |].
  destruct (isRegistered (users s (msg_sender env))); [reflexivity |].
  cbn [negb].
  destruct (N.of_nat (String.length name)) eqn:Hlen; [reflexivity |].
  cbn [N.ltb N.compare N.eqb].
  now destruct (usernameToAddress s name =? address0).
Qed.

Lemma run_updateDefaultStorageLimit env n s :
  updateDefaultStorageLimit env n s =
  if hasRole ADMIN_ROLE (msg_sender env) s
  then Ok (tt, set_defaultStorageLimit n s, [Emit (DefaultStorageLimitUpdated n)])
  else Err (MissingRole (msg_sender env) ADMIN_ROLE).
Proof.
  unfold updateDefaultStorageLimit. run.
  now destruct (hasRole ADMIN_ROLE (msg_sender env) s).
Qed.

Lemma upd_string_eq {V} (m : string -> V) k v : upd_string m k v k = v.
Proof. unfold upd_string. now rewrite String.eqb_refl. Qed.

Lemma upd_string_ne {V} (m : string -> V) k k' v :
  k' <> k -> upd_string m k v k' = m k'.
Proof.
  unfold upd_string. intros Hne. apply String.eqb_neq in Hne. now rewrite Hne.
Qed.

Lemma names_consistent_ext (s s' : Storage) :
  (forall u, isRegistered (users s' u) = isRegistered (users s u)
             /\ username (users s' u) = username (users s u)) ->
  usernameToAddress s' = usernameToAddress s ->
  names_consistent s -> names_consistent s'.
Proof.
  intros Husers Hnames [Hfwd Hback]. split.
  - intros u Hu. destruct (Husers u) as [-> ->]. rewrite Hnames. now apply Hfwd.
  - intros name. rewrite Hnames. intros Hname.
    destruct (Husers (usernameToAddress s name)) as [-> ->]. now apply Hback.
Qed.

(** What a returning call does to the profiles and the reverse index: a
    gate operation and [updateDefaultStorageLimit] touch neither. *)
Lemma exec_names_consistent env c s s' l :
  names_consistent s -> exec env c s = Ok (tt, s', l) -> names_consistent s'.
Proof.
  intros [Hfwd Hback] Hexec. destruct c; cbn [exec] in Hexec.
  - rewrite run_register in Hexec. break_ifs Hexec. injection Hexec as <- _.
    apply negb_false_iff, N.eqb_eq in Heqb2.
    split; cbn [users usernameToAddress].
    + intros u Hu. destruct (N.eq_dec u (msg_sender env)) as [-> | Hne].
      * rewrite upd_eq. cbn. intros _. apply upd_string_eq.
      * rewrite upd_ne by exact Hne. intros Hreg.
        rewrite upd_string_ne; [now apply Hfwd |].
        intros Heq. specialize (Hfwd u Hu Hreg). rewrite Heq, Heqb2 in Hfwd.
        now symmetry in Hfwd.
    + intros name. destruct (string_dec name username_) as [-> | Hne].
      * rewrite upd_string_eq. intros _. now rewrite upd_eq.
      * rewrite upd_string_ne by exact Hne. intros Hname.
        destruct (Hback name Hname) as [Hreg Huser].
        rewrite upd_ne; [now split |]. intros Heq. congruence.
  - rewrite run_updateUsedStorage in Hexec. break_ifs Hexec. injection Hexec as <- _.
    apply (names_consistent_ext s); [| reflexivity | now split].
    intros u. cbn [users set_users]. unfold upd.
    now destruct (N.eqb_spec u user) as [-> | _].
  - rewrite run_updateStorageLimit in Hexec. break_ifs Hexec. injection Hexec as <- _.
    apply (names_consistent_ext s); [| reflexivity | now split].
    intros u. cbn [users set_users]. unfold upd.
    now destruct (N.eqb_spec u user) as [-> | _].
  - rewrite run_updateDefaultStorageLimit in Hexec. break_ifs Hexec.
    injection Hexec as <- _. now split.
  - apply pause_frame in Hexec as [g ->]. now split.
  - apply unpause_frame in Hexec as [g ->]. now split.
  - apply grantRole_frame in Hexec as [g ->]. now split.
  - apply revokeRole_frame in Hexec as [g ->]. now split.
  - apply renounceRole_frame in Hexec as [g ->]. now split.
Qed.

Lemma initialize_users env limit s l :
  initialize env limit zero = Ok (tt, s, l) ->
  users s = users zero /\ usernameToAddress s = usernameToAddress zero
  /\ defaultStorageLimit s = limit.
Proof.
  unfold initialize. intros Hinit.
  apply initializer_Ok_inv in Hinit as (_ & l0 & Hinit & _).
  unfold __Pausable_init in Hinit. rewrite ?bind_modify in Hinit.
  apply bind_Ok_inv in Hinit as ([] & s1 & l1 & l1' & H1 & Hinit & _).
  apply bind_Ok_inv in Hinit as ([] & s2 & l2 & l2' & H2 & Hinit & _).
  apply _grantRole_frame in H1 as [g1 ->].
  apply _grantRole_frame in H2 as [g2 ->].
  now injection Hinit as <- _.
Qed.

Lemma reachable_names_consistent s : reachable s -> names_consistent s.
Proof.
  induction 1 as [env limit s l Hinit | s env c s' l _ IH Hexec].
  - apply initialize_users in Hinit as (Hu & Hn & _). split.
    + intros u _. rewrite Hu. discriminate.
    + intros name. rewrite Hn. intros Hne. now contradiction Hne.
  - eapply exec_names_consistent; eassumption.
Qed.

(** X1. In every reachable state of the registry usernames are unique: two
    registered principals other than the null address that carry the same
    username are the same principal; [getAddressByUsername] on the
    username of such a principal returns that principal; and whatever
    [getAddressByUsername] returns is a registered principal carrying the
    username asked for. *)
Theorem usernames_unique (s : Storage) :
  reachable s ->
  (forall u v,
      u <> address0 -> v <> address0 ->
      isRegistered (users s u) = true -> isRegistered (users s v) = true ->
      username (users s u) = username (users s v) -> u = v)
  /\ (forall u,
        u <> address0 -> isRegistered (users s u) = true ->
        getAddressByUsername (username (users s u)) s = Ok (u, s, []))
  /\ (forall name a s' l,
        getAddressByUsername name s = Ok (a, s', l) ->
        s' = s /\ a <> address0
        /\ isRegistered (users s a) = true /\ username (users s a) = name).
Proof.
  intros Hreach. destruct (reachable_names_consistent s Hreach) as [Hfwd Hback].
  split; [| split].
  - intros u v Hu Hv Hru Hrv Hsame.
    rewrite <- (Hfwd u Hu Hru), <- (Hfwd v Hv Hrv). now rewrite Hsame.
  - intros u Hu Hru. unfold getAddressByUsername. cbv zeta. run.
    rewrite (Hfwd u Hu Hru). apply N.eqb_neq in Hu. now rewrite Hu.
  - intros name a s' l Hget. unfold getAddressByUsername in Hget. cbv zeta in Hget.
    run_in Hget. break_ifs Hget. injection Hget as <- <- _.
    apply negb_true_iff, N.eqb_neq in Heqb.
    destruct (Hback name Heqb) as [Hreg Huser]. auto.
Qed.

Lemma usernames_unique_witness :
  getAddressByUsername "alice" RegistrySample.registered =
  Ok (3, RegistrySample.registered, []).
Proof.
  destruct (usernames_unique RegistrySample.registered reachable_registered)
    as (_ & Hfind & _).
  apply (Hfind 3); [discriminate | reflexivity].
Defined.

Lemma exec_keeps_registration env c s u :
  isRegistered (users s u) = true ->
  isRegistered (users (state_after (exec env c) s) u) = true
  /\ username (users (state_after (exec env c) s) u) = username (users s u)
  /\ registrationDate (users (state_after (exec env c) s) u)
     = registrationDate (users s u).
Proof.
  intros Hreg. unfold state_after.
  destruct (exec env c s) as [[[[] s'] l] |] eqn:Hexec; [| auto].
  destruct c; cbn [exec] in Hexec.
  - rewrite run_register in Hexec. break_ifs Hexec. injection Hexec as <- _.
    cbn [users]. rewrite upd_ne; [auto |]. intros ->. congruence.
  - rewrite run_updateUsedStorage in Hexec. break_ifs Hexec. injection Hexec as <- _.
    cbn [users set_users]. unfold upd.
    now destruct (N.eqb_spec u user) as [-> | _].
  - rewrite run_updateStorageLimit in Hexec. break_ifs Hexec. injection Hexec as <- _.
    cbn [users set_users]. unfold upd.
    now destruct (N.eqb_spec u user) as [-> | _].
  - rewrite run_updateDefaultStorageLimit in Hexec. break_ifs Hexec.
    now injection Hexec as <- _.
  - now apply pause_frame in Hexec as [g ->].
  - now apply unpause_frame in Hexec as [g ->].
  - now apply grantRole_frame in Hexec as [g ->].
  - now apply revokeRole_frame in Hexec as [g ->].
  - now apply renounceRole_frame in Hexec as [g ->].
Qed.

(** X2. Registration is permanent. Once a principal is registered, after
    any sequence of later calls it is still registered, under the same
    username and with the same registration date, and every further
    [register] by that principal aborts. *)
Theorem registration_permanent (trace : list (Env * Call)) (s : Storage) (u : address) :
  isRegistered (users s u) = true ->
  isRegistered (users (run trace s) u) = true
  /\ username (users (run trace s) u) = username (users s u)
  /\ registrationDate (users (run trace s) u) = registrationDate (users s u)
  /\ (forall env name,
        msg_sender env = u ->
        (exists e, register env name (run trace s) = Err e)
        /\ (paused (run trace s) = false ->
            register env name (run trace s) = Err (Revert "User already registered"))).
Proof.
  revert s. induction trace as [| [env c] trace IH]; intros s Hreg.
  - cbn [run]. repeat split; try assumption.
    + rewrite run_register. subst u. rewrite Hreg. destruct (paused s); eauto.
    + intros Hrun. rewrite run_register. subst u. now rewrite Hrun, Hreg.
  - cbn [run]. destruct (exec_keeps_registration env c s u Hreg) as (H1 & H2 & H3).
    destruct (IH _ H1) as (I1 & I2 & I3 & I4).
    rewrite I2, I3. auto.
Qed.

Lemma registration_permanent_witness :
  isRegistered (users (run [(RegistrySample.env_of 1, Pause);
                            (RegistrySample.env_of 3, Register "carol");
                            (RegistrySample.env_of 1, Unpause)]
                           RegistrySample.registered) 3) = true
  /\ username (users (run [(RegistrySample.env_of 1, Pause);
                           (RegistrySample.env_of 3, Register "carol");
                           (RegistrySample.env_of 1, Unpause)]
                          RegistrySample.registered) 3) = "alice".
Proof.
  destruct (registration_permanent
              [(RegistrySample.env_of 1, Pause);
               (RegistrySample.env_of 3, Register "carol");
               (RegistrySample.env_of 1, Unpause)]
              RegistrySample.registered 3 eq_refl) as (H1 & H2 & _).
  split; [exact H1 | exact H2].
Defined.

(** X3. [register] returns exactly when the contract is not paused, the
    caller is not registered yet, the username is not empty and the
    username is not taken. When it returns, [getUserProfile] of the caller
    returns a profile with that username, the default limit of the moment,
    no used storage and the timestamp of the call; [getAddressByUsername]
    of the username returns the caller (for a caller other than the null
    address); and no other profile has changed. *)
Theorem register_round_trip (env : Env) (name : string) (s : Storage) :
  ((exists s' l, register env name s = Ok (tt, s', l)) <->
   paused s = false
   /\ isRegistered (users s (msg_sender env)) = false
   /\ name <> ""
   /\ usernameToAddress s name = address0)
  /\ (forall s' l,
        register env name s = Ok (tt, s', l) ->
        l = [Emit (UserRegistered (msg_sender env) name)]
        /\ getUserProfile (msg_sender env) s' =
           Ok ({| isRegistered := true; username := name;
                  storageLimit := defaultStorageLimit s; usedStorage := 0;
                  registrationDate := block_timestamp env |}, s', [])
        /\ (msg_sender env <> address0 ->
            getAddressByUsername name s' = Ok (msg_sender env, s', []))
        /\ (forall v, v <> msg_sender env -> users s' v = users s v)).
Proof.
  assert (Hlen : (N.of_nat (String.length name) =? 0) = false <-> name <> "").
  { destruct name; cbn [String.length]; split; easy. }
  split.
  - rewrite run_register. split.
    + intros (s' & l & Hrun). break_ifs Hrun.
      apply negb_false_iff, N.eqb_eq in Heqb2.
      destruct Hlen as [Hlen _]. specialize (Hlen eq_refl). auto.
    + intros (Hp & Hnot & Hname & Hfree). apply Hlen in Hname.
      rewrite Hp, Hnot, Hname, Hfree. cbn. eauto.
  - intros s' l Hrun. rewrite run_register in Hrun. break_ifs Hrun.
    injection Hrun as <- <-. split; [reflexivity |].
    unfold getUserProfile, getAddressByUsername. cbv zeta. run.
    cbn [users usernameToAddress]. rewrite !upd_eq, upd_string_eq. cbn [isRegistered].
    split; [reflexivity |]. split.
    + intros Hne. apply N.eqb_neq in Hne. now rewrite Hne.
    + intros v Hv. now apply upd_ne.
Qed.

(** X4. The quota check after a usage update. When [updateUsedStorage u n]
    has returned, [canStoreData u size] on the new state answers whether
    [n + size] is within the limit of [u], as long as [n + size] fits in
    256 bits; when the sum does not fit, [canStoreData] does not answer
    [false] but aborts with the arithmetic panic. For an unregistered
    principal it answers [false] whatever the size. *)
Theorem canStoreData_after_update (env : Env) (u : address) (n size : uint256)
    (s s' : Storage) (l : list Effect) :
  updateUsedStorage env u n s = Ok (tt, s', l) ->
  (n + size <= MAX_UINT256 ->
     canStoreData u size s' =
     Ok (n + size <=? storageLimit (users s u), s', []))
  /\ (MAX_UINT256 < n + size -> canStoreData u size s' = Err (Panic 0x11))
  /\ (forall v, isRegistered (users s' v) = false ->
                canStoreData v size s' = Ok (false, s', [])).
Proof.
  intros Hupd. rewrite run_updateUsedStorage in Hupd. break_ifs Hupd.
  injection Hupd as <- _. apply negb_false_iff in Heqb0.
  unfold canStoreData, checked_add. split; [| split].
  - intros Hfit. run. cbn [users set_users]. rewrite upd_eq.
    cbn [isRegistered set_usedStorage usedStorage storageLimit]. rewrite Heqb0.
    cbn [negb]. apply N.leb_le in Hfit. rewrite Hfit. now run.
  - intros Hover. run. cbn [users set_users]. rewrite upd_eq.
    cbn [isRegistered set_usedStorage usedStorage storageLimit]. rewrite Heqb0.
    cbn [negb]. apply N.leb_gt in Hover. now rewrite Hover.
  - intros v Hv. run. now rewrite Hv.
Qed.

Lemma canStoreData_after_update_witness :
  exists s',
    updateUsedStorage (RegistrySample.env_of 2) 3 500 RegistrySample.registered =
      Ok (tt, s', [Emit (UsedStorageUpdated 3 500)])
    /\ canStoreData 3 500 s' = Ok (true, s', [])
    /\ canStoreData 3 600 s' = Ok (false, s', []).
Proof.
  destruct (updateUsedStorage (RegistrySample.env_of 2) 3 500 RegistrySample.registered)
    as [[[[] s'] l] |] eqn:Hupd; [| vm_compute in Hupd; discriminate Hupd].
  assert (Hl : l = [Emit (UsedStorageUpdated 3 500)]).
  { rewrite run_updateUsedStorage in Hupd. vm_compute in Hupd. now injection Hupd as _ <-. }
  subst l. exists s'. split; [reflexivity |].
  destruct (canStoreData_after_update _ _ _ 500 _ _ _ Hupd) as (H500 & _).
  destruct (canStoreData_after_update _ _ _ 600 _ _ _ Hupd) as (H600 & _).
  split.
  - rewrite H500; [reflexivity | vm_compute; discriminate].
  - rewrite H600; [reflexivity | vm_compute; discriminate].
Defined.

(** X5. [updateDefaultStorageLimit] changes no existing profile; it only
    sets the limit that the registrations after it start with. *)
Theorem default_limit_for_later_registrations (env : Env) (n : uint256)
    (s s1 : Storage) (l : list Effect) :
  updateDefaultStorageLimit env n s = Ok (tt, s1, l) ->
  hasRole ADMIN_ROLE (msg_sender env) s = true
  /\ users s1 = users s
  /\ usernameToAddress s1 = usernameToAddress s
  /\ (forall env' name s2 l',
        register env' name s1 = Ok (tt, s2, l') ->
        storageLimit (users s2 (msg_sender env')) = n
        /\ usedStorage (users s2 (msg_sender env')) = 0).
Proof.
  intros Hupd. rewrite run_updateDefaultStorageLimit in Hupd.
  destruct (hasRole ADMIN_ROLE (msg_sender env) s); [| discriminate Hupd].
  injection Hupd as <- _. repeat split.
  - rewrite run_register in H. break_ifs H. injection H as <- _.
    cbn [users]. now rewrite upd_eq.
  - rewrite run_register in H. break_ifs H. injection H as <- _.
    cbn [users]. now rewrite upd_eq.
Qed.

Lemma default_limit_for_later_registrations_witness :
  exists s1 l,
    updateDefaultStorageLimit (RegistrySample.env_of 1) 5000 RegistrySample.registered
    = Ok (tt, s1, l)
    /\ users s1 = users RegistrySample.registered
    /\ storageLimit
         (users (state_after (register (RegistrySample.env_of 4) "bob") s1) 4) = 5000.
Proof.
  destruct (updateDefaultStorageLimit (RegistrySample.env_of 1) 5000
              RegistrySample.registered)
    as [[[[] s1] l] |] eqn:Hupd; [| vm_compute in Hupd; discriminate Hupd].
  exists s1, l. split; [reflexivity |].
  destruct (default_limit_for_later_registrations _ _ _ _ _ Hupd)
    as (_ & Husers & Hnames & Hnext).
  split; [exact Husers |].
  unfold state_after.
  destruct (register (RegistrySample.env_of 4) "bob" s1) as [[[[] s2] l2] |] eqn:Hreg.
  - apply (Hnext _ _ _ _ Hreg).
  - exfalso. rewrite run_updateDefaultStorageLimit in Hupd. vm_compute in Hupd.
    injection Hupd as <- _. vm_compute in Hreg. discriminate Hreg.
Defined.

(** X6. The quota figures of a registered principal change only through
    the operation reserved for them: a returning call that changes its
    [usedStorage] is an [updateUsedStorage] for that principal made by a
    verifier, and one that changes its [storageLimit] is an
    [updateStorageLimit] for that principal made by an admin. *)
Theorem quota_changes_only_by_role (env : Env) (c : Call) (s s' : Storage)
    (l : list Effect) (u : address) :
  exec env c s = Ok (tt, s', l) ->
  isRegistered (users s u) = true ->
  (usedStorage (users s' u) <> usedStorage (users s u) ->
     hasRole VERIFIER_ROLE (msg_sender env) s = true
     /\ c = UpdateUsedStorage u (usedStorage (users s' u)))
  /\ (storageLimit (users s' u) <> storageLimit (users s u) ->
     hasRole ADMIN_ROLE (msg_sender env) s = true
     /\ c = UpdateStorageLimit u (storageLimit (users s' u))).
Proof.
  intros Hexec Hreg. destruct c; cbn [exec] in Hexec.
  - rewrite run_register in Hexec. break_ifs Hexec. injection Hexec as <- _.
    cbn [users]. rewrite upd_ne by (intros ->; congruence). now split.
  - rewrite run_updateUsedStorage in Hexec. break_ifs Hexec. injection Hexec as <- _.
    apply negb_false_iff in Heqb. cbn [users set_users].
    destruct (N.eq_dec u user) as [-> | Hne].
    + rewrite upd_eq. cbn. split; [auto | now intros []].
    + rewrite upd_ne by exact Hne. now split.
  - rewrite run_updateStorageLimit in Hexec. break_ifs Hexec. injection Hexec as <- _.
    apply negb_false_iff in Heqb. cbn [users set_users].
    destruct (N.eq_dec u user) as [-> | Hne].
    + rewrite upd_eq. cbn. split; [now intros [] | auto].
    + rewrite upd_ne by exact Hne. now split.
  - rewrite run_updateDefaultStorageLimit in Hexec. break_ifs Hexec.
    injection Hexec as <- _. now split.
  - apply pause_frame in Hexec as [g ->]. now split.
  - apply unpause_frame in Hexec as [g ->]. now split.
  - apply grantRole_frame in Hexec as [g ->]. now split.
  - apply revokeRole_frame in Hexec as [g ->]. now split.
  - apply renounceRole_frame in Hexec as [g ->]. now split.
Qed.

Lemma quota_changes_only_by_role_witness :
  hasRole VERIFIER_ROLE (msg_sender (RegistrySample.env_of 2)) RegistrySample.registered
  = true.
Proof.
  destruct (exec (RegistrySample.env_of 2) (UpdateUsedStorage 3 500)
              RegistrySample.registered) as [[[[] s'] l] |] eqn:Hexec.
  - destruct (quota_changes_only_by_role _ _ _ _ _ 3 Hexec eq_refl) as [Hused _].
    apply Hused. cbn [exec] in Hexec. rewrite run_updateUsedStorage in Hexec.
    vm_compute in Hexec. injection Hexec as <- _. vm_compute. discriminate.
  - cbn [exec] in Hexec. rewrite run_updateUsedStorage in Hexec.
    vm_compute in Hexec. discriminate Hexec.
Defined.

End RegistryFurther.

(** * Further properties of the fee contract *)

Section FeesFurther.
Import OGFees.

Lemma run_updateFeeConfig env b n sh m s :
  updateFeeConfig env b n sh m s =
  if hasRole ADMIN_ROLE (msg_sender env) s
  then Ok (tt, set_feeConfig {| baseStorageFee := b; networkFee := n;
                                sharingFee := sh; minimumFee := m |} s,
           [Emit (FeeConfigUpdated b n sh m)])
  else Err (MissingRole (msg_sender env) ADMIN_ROLE).
Proof.
  unfold updateFeeConfig. run. now destruct (hasRole ADMIN_ROLE (msg_sender env) s).
Qed.

Lemma run_updateTreasury env t s :
  updateTreasury env t s =
  if negb (hasRole ADMIN_ROLE (msg_sender env) s)
  then Err (MissingRole (msg_sender env) ADMIN_ROLE)
  else if t =? address0 then Err (Revert "Invalid treasury address")
  else Ok (tt, set_treasury t s, [Emit (TreasuryUpdated (treasury s) t)]).
Proof.
  unfold updateTreasury. cbv zeta. run.
  destruct (hasRole ADMIN_ROLE (msg_sender env) s); [| reflexivity].
  now destruct (t =? address0).
Qed.

Lemma run_addDiscountedUser env u s :
  addDiscountedUser env u s =
  if negb (hasRole FEE_MANAGER_ROLE (msg_sender env) s)
  then Err (MissingRole (msg_sender env) FEE_MANAGER_ROLE)
  else if discountedUsers s u then Err (Revert "Already a discounted user")
  else Ok (tt, set_discountedUsers (upd (discountedUsers s) u true) s,
           [Emit (DiscountedUserAdded u)]).
Proof.
  unfold addDiscountedUser. run.
  destruct (hasRole FEE_MANAGER_ROLE (msg_sender env) s); [| reflexivity].
  now destruct (discountedUsers s u).
Qed.

Lemma run_removeDiscountedUser env u s :
  removeDiscountedUser env u s =
  if negb (hasRole FEE_MANAGER_ROLE (msg_sender env) s)
  then Err (MissingRole (msg_sender env) FEE_MANAGER_ROLE)
  else if negb (discountedUsers s u) then Err (Revert "Not a discounted user")
  else Ok (tt, set_discountedUsers (upd (discountedUsers s) u false) s,
           [Emit (DiscountedUserRemoved u)]).
Proof.
  unfold removeDiscountedUser. run.
  destruct (hasRole FEE_MANAGER_ROLE (msg_sender env) s); [| reflexivity].
  now destruct (discountedUsers s u).
Qed.

Lemma run_updateDiscountPercentage env p s :
  updateDiscountPercentage env p s =
  if negb (hasRole ADMIN_ROLE (msg_sender env) s)
  then Err (MissingRole (msg_sender env) ADMIN_ROLE)
  else if 100 <? p then Err (Revert "Invalid discount percentage")
  else Ok (tt, set_discountPercentage p s,
           [Emit (DiscountPercentageUpdated (discountPercentage s) p)]).
Proof.
  unfold updateDiscountPercentage. cbv zeta. run.
  destruct (hasRole ADMIN_ROLE (msg_sender env) s); [| reflexivity].
  cbn [negb]. rewrite N.ltb_antisym. now destruct (p <=? 100).
Qed.

Lemma run_initialize env t b n sh m p :
  initialize env t b n sh m p zero =
  if t =? address0 then Err (Revert "Invalid treasury address")
  else if 100 <? p then Err (Revert "Invalid discount percentage")
  else Ok (tt,
           {| access :=
                set_role FEE_MANAGER_ROLE (msg_sender env) true
                  (set_role ADMIN_ROLE (msg_sender env) true
                     (set_role DEFAULT_ADMIN_ROLE (msg_sender env) true
                        (set_paused false (set_initialized true (access zero)))));
              feeConfig := {| baseStorageFee := b; networkFee := n;
                              sharingFee := sh; minimumFee := m |};
              treasury := t;
              discountedUsers := fun _ => false;
              discountPercentage := p;
              balance := 0 |},
           [Emit (RoleGranted DEFAULT_ADMIN_ROLE (msg_sender env) (msg_sender env));
            Emit (RoleGranted ADMIN_ROLE (msg_sender env) (msg_sender env));
            Emit (RoleGranted FEE_MANAGER_ROLE (msg_sender env) (msg_sender env));
            Emit (Initialized 1)]).
Proof.
  unfold initialize. rewrite run_initializer.
  change (initialized zero) with false. cbv iota.
  unfold __Pausable_init, _grantRole. run.
  destruct (t =? address0); [reflexivity |]. cbn [negb].
  rewrite N.ltb_antisym. destruct (p <=? 100); [| reflexivity]. cbn [negb].
  unfold hasRole. cbn. reflexivity.
Qed.

(** [initialize] runs at most once, and runs if its arguments are valid. *)
Lemma initialize_returns_iff env t b n sh m p (s : Storage) :
  (exists s' l, initialize env t b n sh m p s = Ok (tt, s', l)) <->
  initialized s = false /\ t <> address0 /\ p <= 100.
Proof.
  unfold initialize. rewrite run_initializer.
  destruct (initialized s).
  { split; [intros (s' & l & Hrun) | intros (Hinit & _)]; discriminate. }
  run.
  destruct (N.eqb_spec t address0) as [Ht | Ht]; cbn [negb].
  { split; [intros (s' & l & Hrun); discriminate Hrun | intros (_ & Hne & _); contradiction]. }
  destruct (N.leb_spec p 100) as [Hp | Hp].
  2:{ split; [intros (s' & l & Hrun); discriminate Hrun | intros (_ & _ & Hle); lia]. }
  split; [auto |]. intros _.
  unfold __Pausable_init. run.
  set (s0 := with_gate (set_paused false _) _).
  rewrite bind_run.
  destruct (_grantRole_returns DEFAULT_ADMIN_ROLE (msg_sender env) env s0)
    as (s1 & l1 & ->).
  rewrite bind_run.
  destruct (_grantRole_returns ADMIN_ROLE (msg_sender env) env s1)
    as (s2 & l2 & ->).
  rewrite bind_run.
  destruct (_grantRole_returns FEE_MANAGER_ROLE (msg_sender env) env s2)
    as (s3 & l3 & ->).
  run. eauto.
Qed.

Lemma initialize_initialized env t b n sh m p (s s' : Storage) l :
  initialize env t b n sh m p s = Ok (tt, s', l) -> initialized s' = true.
Proof.
  unfold initialize. intros Hinit.
  apply initializer_Ok_inv in Hinit as (_ & l0 & Hinit & _).
  unfold __Pausable_init in Hinit.
  run_in Hinit. break_ifs Hinit.
  apply bind_Ok_inv in Hinit as ([] & s1 & l1 & l1' & H1 & Hinit & _).
  apply bind_Ok_inv in Hinit as ([] & s2 & l2 & l2' & H2 & Hinit & _).
  apply bind_Ok_inv in Hinit as ([] & s3 & l3 & l3' & H3 & Hinit & _).
  apply _grantRole_initialized in H1, H2, H3.
  run_in Hinit. injection Hinit as <- _.
  change (initialized s3 = true). rewrite H3, H2, H1.
  apply with_gate_initialized.
Qed.

(** *** Calls back into the contract

    What holds of every call, given that it holds of what the recipient
    does, holds of every call back, of every sequence of them and so of
    every call from outside. *)
Section Reentrancy.
Variable R : Storage -> Storage -> list Effect -> Prop.
Variable self : address.
Hypothesis R_refl : forall s, R s s [].
Hypothesis R_trans :
  forall s s1 s2 l1 l2, R s s1 l1 -> R s1 s2 l2 -> R s s2 (l1 ++ l2).
Hypothesis R_dispatch :
  forall env callee c,
    this env = self ->
    (forall s s' l, callee s = Ok (tt, s', l) -> R s s' l) ->
    forall s s' l, dispatch env callee c s = Ok (tt, s', l) -> R s s' l.

Lemma reentries_related_from env inner :
  Forall (fun r => forall s s' l, reenter env r s = Ok (tt, s', l) -> R s s' l) inner ->
  forall s s' l, reentries env inner s = Ok (tt, s', l) -> R s s' l.
Proof.
  induction 1 as [| r inner Hr _ IH]; intros s s' l Hrun.
  - injection Hrun as <- <-. apply R_refl.
  - cbn [reentries fold_right] in Hrun.
    apply bind_Ok_inv in Hrun as ([] & s1 & l1 & l2 & H1 & H2 & ->).
    eapply R_trans; [eapply Hr, H1 | eapply IH, H2].
Qed.

Lemma reenter_related r :
  forall env, this env = self ->
  forall s s' l, reenter env r s = Ok (tt, s', l) -> R s s' l.
Proof.
  induction r as [sender accepts c inner IH] using Reentry_ind.
  intros env Hself s s' l Hrun. rewrite reenter_eq in Hrun.
  unfold attempt in Hrun.
  destruct (exec (nested env sender accepts) c inner s)
    as [[[[] s1] l1] |] eqn:Hexec; injection Hrun as <- <-; [| apply R_refl].
  eapply (R_dispatch (nested env sender accepts)); [exact Hself | | exact Hexec].
  apply reentries_related_from.
  eapply Forall_impl; [exact IH |]. intros r Hr. now apply Hr.
Qed.

Lemma reentries_related env inner :
  this env = self ->
  forall s s' l, reentries env inner s = Ok (tt, s', l) -> R s s' l.
Proof.
  intros Hself. apply reentries_related_from.
  apply Forall_forall. intros r _. now apply reenter_related.
Qed.

Lemma exec_related env c inner :
  this env = self ->
  forall s s' l, exec env c inner s = Ok (tt, s', l) -> R s s' l.
Proof.
  intros Hself. apply R_dispatch; [exact Hself |].
  now apply reentries_related.
Qed.

End Reentrancy.

Lemma dispatch_config_valid env callee c s s' l :
  (forall s0 s1 l1, callee s0 = Ok (tt, s1, l1) -> config_valid s0 -> config_valid s1) ->
  dispatch env callee c s = Ok (tt, s', l) -> config_valid s -> config_valid s'.
Proof.
  intros Hcallee Hexec [Hpct Htre]. destruct c; cbn [dispatch] in Hexec.
  - rewrite run_collectFee in Hexec. break_ifs Hexec.
    + injection Hexec as <- _. now split.
    + injection Hexec as <- _. now split.
    + destruct (callee _) as [[[[] s1] l1] |] eqn:Hrun; [| discriminate Hexec].
      injection Hexec as <- _. eapply Hcallee; [exact Hrun |]. now split.
  - rewrite run_distributeFees in Hexec. break_ifs Hexec.
    + injection Hexec as <- _. now split.
    + destruct (callee _) as [[[[] s1] l1] |] eqn:Hrun; [| discriminate Hexec].
      injection Hexec as <- _. eapply Hcallee; [exact Hrun |]. now split.
  - rewrite run_updateFeeConfig in Hexec. break_ifs Hexec. injection Hexec as <- _. now split.
  - rewrite run_updateTreasury in Hexec. break_ifs Hexec. injection Hexec as <- _.
    split; [exact Hpct |]. cbn. now apply N.eqb_neq.
  - rewrite run_addDiscountedUser in Hexec. break_ifs Hexec. injection Hexec as <- _. now split.
  - rewrite run_removeDiscountedUser in Hexec. break_ifs Hexec. injection Hexec as <- _. now split.
  - rewrite run_updateDiscountPercentage in Hexec. break_ifs Hexec. injection Hexec as <- _.
    split; [| exact Htre]. cbn. now apply N.ltb_ge.
  - unfold receive, payable in Hexec. injection Hexec as <- _. now split.
  - apply pause_frame in Hexec as [g ->]. now split.
  - apply unpause_frame in Hexec as [g ->]. now split.
  - apply grantRole_frame in Hexec as [g ->]. now split.
  - apply revokeRole_frame in Hexec as [g ->]. now split.
  - apply renounceRole_frame in Hexec as [g ->]. now split.
Qed.

Lemma exec_config_valid env c inner s s' l :
  config_valid s -> exec env c inner s = Ok (tt, s', l) -> config_valid s'.
Proof.
  intros Hvalid Hexec. revert Hvalid.
  apply (exec_related (fun s s' _ => config_valid s -> config_valid s') (this env))
    with (env := env) (c := c) (inner := inner) (l := l); auto.
  intros env' callee c' _ Hcallee s0 s1 l1 Hrun.
  eapply dispatch_config_valid; [| exact Hrun]. intros. eapply Hcallee; eassumption.
Qed.

Lemma reachable_config_valid s : reachable s -> config_valid s.
Proof.
  induction 1 as [env t b n sh m p s l Hinit | s env c inner s' l _ IH Hexec].
  - rewrite run_initialize in Hinit. break_ifs Hinit. injection Hinit as <- _.
    split; cbn; [now apply N.ltb_ge | now apply N.eqb_neq].
  - eapply exec_config_valid; eassumption.
Qed.

Lemma dispatch_initialized env callee c (s s' : Storage) l :
  (forall s0 s1 l1, callee s0 = Ok (tt, s1, l1) -> initialized s1 = initialized s0) ->
  dispatch env callee c s = Ok (tt, s', l) -> initialized s' = initialized s.
Proof.
  intros Hcallee Hexec. destruct c; cbn [dispatch] in Hexec.
  - rewrite run_collectFee in Hexec. break_ifs Hexec.
    + now injection Hexec as <- _.
    + now injection Hexec as <- _.
    + destruct (callee _) as [[[[] s1] l1] |] eqn:Hrun; [| discriminate Hexec].
      injection Hexec as <- _. now apply Hcallee in Hrun.
  - rewrite run_distributeFees in Hexec. break_ifs Hexec.
    + now injection Hexec as <- _.
    + destruct (callee _) as [[[[] s1] l1] |] eqn:Hrun; [| discriminate Hexec].
      injection Hexec as <- _. now apply Hcallee in Hrun.
  - rewrite run_updateFeeConfig in Hexec. break_ifs Hexec. now injection Hexec as <- _.
  - rewrite run_updateTreasury in Hexec. break_ifs Hexec. now injection Hexec as <- _.
  - rewrite run_addDiscountedUser in Hexec. break_ifs Hexec. now injection Hexec as <- _.
  - rewrite run_removeDiscountedUser in Hexec. break_ifs Hexec. now injection Hexec as <- _.
  - rewrite run_updateDiscountPercentage in Hexec. break_ifs Hexec. now injection Hexec as <- _.
  - unfold receive, payable in Hexec. now injection Hexec as <- _.
  - eapply pause_initialized, Hexec.
  - eapply unpause_initialized, Hexec.
  - eapply grantRole_initialized, Hexec.
  - eapply revokeRole_initialized, Hexec.
  - eapply renounceRole_initialized, Hexec.
Qed.

Lemma reachable_is_initialized s : reachable s -> initialized s = true.
Proof.
  induction 1 as [env t b n sh m p s l Hinit | s env c inner s' l _ IH Hexec].
  - eapply initialize_initialized, Hinit.
  - rewrite <- IH.
    apply (exec_related (fun s s' _ => initialized s' = initialized s) (this env))
      with (env := env) (c := c) (inner := inner) (l := l); auto.
    + intros s0 s1 s2 _ _ H1 H2. now rewrite H2.
    + intros env' callee c' _ Hcallee s0 s1 l1 Hrun.
      eapply dispatch_initialized; [| exact Hrun]. intros. eapply Hcallee; eassumption.
Qed.

Lemma reachable_fees_deployed : reachable FeesSample.deployed.
Proof.
  unfold FeesSample.deployed, state_after.
  destruct (initialize (FeesSample.env_of 1) 9 2 10 5 100 20 zero)
    as [[[[] s] l] |] eqn:Hinit.
  - eapply reachable_init, Hinit.
  - vm_compute in Hinit. discriminate Hinit.
Qed.

(** X7. In every reachable state of the fee contract the discount is at
    most 100 percent and the treasury is not the null address. So
    [applyDiscount] never fails on its subtraction: for every amount with
    [amount * 100] fitting in 256 bits it returns, and what it returns is
    at most [amount] and at least [amount] less the configured
    percentage. *)
Theorem discount_never_exceeds_amount (s : Storage) :
  reachable s ->
  discountPercentage s <= 100
  /\ treasury s <> address0
  /\ (forall p amount,
        amount * 100 <= MAX_UINT256 ->
        exists v, applyDiscount p amount s = Ok (v, s, [])
                  /\ v <= amount
                  /\ amount - amount * discountPercentage s / 100 <= v).
Proof.
  intros Hreach. destruct (reachable_config_valid s Hreach) as [Hpct Htre].
  split; [exact Hpct |]. split; [exact Htre |].
  intros p amount Hfit. unfold applyDiscount, checked_mul, checked_div, checked_sub. run.
  destruct (discountedUsers s p); cbn [negb].
  - assert (Hprod : (amount * discountPercentage s <=? MAX_UINT256) = true).
    { apply N.leb_le. nia. }
    assert (Hle : amount * discountPercentage s / 100 <= amount).
    { apply N.Div0.div_le_upper_bound. nia. }
    rewrite Hprod. run. cbn [N.eqb]. run.
    apply N.leb_le in Hle as Hle'. rewrite Hle'. run.
    eexists. split; [reflexivity |]. split; [apply N.le_sub_l | reflexivity].
  - run. exists amount. split; [reflexivity |].
    split; [reflexivity | apply N.le_sub_l].
Qed.

Lemma discount_never_exceeds_amount_witness :
  exists v, applyDiscount 7 1000 FeesSample.deployed = Ok (v, FeesSample.deployed, [])
            /\ v <= 1000.
Proof.
  destruct (discount_never_exceeds_amount FeesSample.deployed reachable_fees_deployed)
    as (_ & _ & Hdisc).
  destruct (Hdisc 7 1000) as (v & Hrun & Hle & _).
  - vm_compute. discriminate.
  - exists v. split; assumption.
Defined.

(** X8. [distributeFees] hands over everything or nothing. When it
    returns, the caller is an admin and the balance was not zero. Either
    the treasury is the contract itself: then the transfer moves nothing
    and the state is unchanged. Or the treasury is another account that
    took the transfer: then it was handed the whole balance, its code ran
    on the contract with a balance of zero, and the state is the one its
    calls back into the contract have left, [FeeDistributed] naming the
    treasury they have left; so a treasury that makes no such call leaves
    a balance of zero. For an admin, [distributeFees] aborts with "No fees
    to distribute" on a zero balance and with "Failed to distribute fees"
    when the treasury refuses the transfer. *)
Theorem distributeFees_all_or_nothing (env : Env) (inner : list Reentry)
    (s : Storage) :
  (forall s' l,
      distributeFees env (reentries env inner) s = Ok (tt, s', l) ->
      hasRole ADMIN_ROLE (msg_sender env) s = true
      /\ 0 < balance s
      /\ ((treasury s = this env /\ s' = s
           /\ l = [Send (treasury s) (balance s);
                   Emit (FeeDistributed (treasury s) (balance s))])
          \/ (treasury s <> this env /\ accepts_value env (treasury s) = true
              /\ exists l0,
                   reentries env inner (set_balance 0 s) = Ok (tt, s', l0)
                   /\ l = Send (treasury s) (balance s)
                            :: l0 ++ [Emit (FeeDistributed (treasury s') (balance s))])))
  /\ (hasRole ADMIN_ROLE (msg_sender env) s = true ->
      (balance s = 0 ->
         distributeFees env (reentries env inner) s =
         Err (Revert "No fees to distribute"))
      /\ (0 < balance s -> treasury s <> this env ->
          accepts_value env (treasury s) = false ->
          distributeFees env (reentries env inner) s =
          Err (Revert "Failed to distribute fees"))
      /\ (0 < balance s -> treasury s <> this env ->
          accepts_value env (treasury s) = true ->
          (exists s' l, distributeFees env (reentries env inner) s = Ok (tt, s', l))
          /\ distributeFees env (reentries env []) s =
             Ok (tt, set_balance 0 s,
                 [Send (treasury s) (balance s);
                  Emit (FeeDistributed (treasury s) (balance s))]))).
Proof.
  rewrite !run_distributeFees. split.
  - intros s' l Hrun. break_ifs Hrun.
    + injection Hrun as <- <-.
      apply negb_false_iff in Heqb. apply N.eqb_neq in Heqb0. apply N.eqb_eq in Heqb1.
      split; [assumption |]. split; [lia |]. left. auto.
    + destruct (reentries env inner (set_balance 0 s)) as [[[[] s1] l1] |] eqn:Hcallee;
        [| discriminate Hrun].
      injection Hrun as <- <-.
      apply negb_false_iff in Heqb. apply N.eqb_neq in Heqb0. apply N.eqb_neq in Heqb1.
      split; [assumption |]. split; [lia |]. right.
      split; [assumption |]. split; [auto |]. exists l1. auto.
  - intros Hrole. rewrite Hrole. cbn [negb]. split; [| split].
    + intros ->. reflexivity.
    + intros Hpos Hself Hacc.
      assert (H0 : (balance s =? 0) = false) by (apply N.eqb_neq; lia).
      apply N.eqb_neq in Hself. now rewrite H0, Hself, Hacc.
    + intros Hpos Hself Hacc.
      assert (H0 : (balance s =? 0) = false) by (apply N.eqb_neq; lia).
      apply N.eqb_neq in Hself. rewrite H0, Hself, Hacc. split; [| reflexivity].
      destruct (reentries_return env inner (set_balance 0 s)) as (s' & l & ->).
      eauto.
Qed.

(** The gate operations emit events and move no value. *)
Lemma gate_ops_send_nothing env callee c (s s' : Storage) l self :
  match c with
  | Pause | Unpause | GrantRole _ _ | RevokeRole _ _ | RenounceRole _ _ => True
  | _ => False
  end ->
  dispatch env callee c s = Ok (tt, s', l) ->
  sent_out self l = 0 /\ balance s' = balance s
  /\ forall r v, ~ In (Send r v) l.
Proof.
  intros Hgate Hexec.
  assert (Hdone : forall (x : Storage) (k : list Effect),
             balance x = balance s ->
             (k = [] \/ exists ev, k = [Emit ev]) ->
             Ok (tt, x, k) = Ok (tt, s', l) ->
             sent_out self l = 0 /\ balance s' = balance s
             /\ forall r v, ~ In (Send r v) l).
  { intros x k Hbal Hk Heq. injection Heq as <- <-.
    destruct Hk as [-> | [ev ->]]; cbn; repeat split; try assumption;
      intros r v Hin; cbn in Hin; intuition discriminate. }
  destruct c; try contradiction; cbn [dispatch] in Hexec.
  - unfold pause, _pause in Hexec. run_in Hexec. break_ifs Hexec.
    eapply Hdone; [| | exact Hexec]; [reflexivity | eauto].
  - unfold unpause, _unpause in Hexec. run_in Hexec. break_ifs Hexec.
    eapply Hdone; [| | exact Hexec]; [reflexivity | eauto].
  - unfold grantRole, _grantRole in Hexec. run_in Hexec. break_ifs Hexec;
      run_in Hexec; (eapply Hdone; [| | exact Hexec]; [reflexivity | eauto]).
  - unfold revokeRole, _revokeRole in Hexec. run_in Hexec. break_ifs Hexec;
      run_in Hexec; (eapply Hdone; [| | exact Hexec]; [reflexivity | eauto]).
  - unfold renounceRole, _revokeRole in Hexec. run_in Hexec. break_ifs Hexec;
      run_in Hexec; (eapply Hdone; [| | exact Hexec]; [reflexivity | eauto]).
Qed.

Lemma sent_out_app self l1 l2 :
  sent_out self (l1 ++ l2) = sent_out self l1 + sent_out self l2.
Proof.
  induction l1 as [| [ev | r v] l1 IH]; cbn [app sent_out]; [reflexivity | exact IH |].
  rewrite IH. lia.
Qed.

(** A call loses no value if what the recipient of its transfer does
    loses none. *)
Lemma dispatch_keeps_value env callee c (s s' : Storage) l :
  (forall s0 s1 l1, callee s0 = Ok (tt, s1, l1) ->
                    balance s0 <= balance s1 + sent_out (this env) l1) ->
  dispatch env callee c s = Ok (tt, s', l) ->
  balance s + attached c <= balance s' + sent_out (this env) l.
Proof.
  intros Hcallee Hexec. destruct c; cbn [dispatch] in Hexec; cbn [attached].
  - rewrite run_collectFee in Hexec. break_ifs Hexec.
    + injection Hexec as <- <-. apply N.eqb_eq in Heqb2. subst.
      cbn [balance set_balance sent_out]. lia.
    + injection Hexec as <- <-. cbn [balance set_balance sent_out].
      rewrite Heqb3. lia.
    + destruct (callee _) as [[[[] s1] l1] |] eqn:Hrun; [| discriminate Hexec].
      injection Hexec as <- <-. apply Hcallee in Hrun.
      cbn [balance set_balance sent_out] in *. rewrite Heqb3.
      apply N.ltb_ge in Heqb1. lia.
  - rewrite run_distributeFees in Hexec. break_ifs Hexec.
    + injection Hexec as <- <-. cbn [sent_out]. lia.
    + destruct (callee _) as [[[[] s1] l1] |] eqn:Hrun; [| discriminate Hexec].
      injection Hexec as <- <-. cbn [sent_out]. rewrite Heqb1. lia.
  - rewrite run_updateFeeConfig in Hexec. break_ifs Hexec. injection Hexec as <- <-.
    cbn. lia.
  - rewrite run_updateTreasury in Hexec. break_ifs Hexec. injection Hexec as <- <-.
    cbn. lia.
  - rewrite run_addDiscountedUser in Hexec. break_ifs Hexec. injection Hexec as <- <-.
    cbn. lia.
  - rewrite run_removeDiscountedUser in Hexec. break_ifs Hexec. injection Hexec as <- <-.
    cbn. lia.
  - rewrite run_updateDiscountPercentage in Hexec. break_ifs Hexec.
    injection Hexec as <- <-. cbn. lia.
  - unfold receive, payable in Hexec. injection Hexec as <- <-. cbn. lia.
  - destruct (gate_ops_send_nothing env callee Pause s s' l (this env) I Hexec)
      as (-> & -> & _). lia.
  - destruct (gate_ops_send_nothing env callee Unpause s s' l (this env) I Hexec)
      as (-> & -> & _). lia.
  - destruct (gate_ops_send_nothing env callee (GrantRole role account) s s' l
                (this env) I Hexec) as (-> & -> & _). lia.
  - destruct (gate_ops_send_nothing env callee (RevokeRole role account) s s' l
                (this env) I Hexec) as (-> & -> & _). lia.
  - destruct (gate_ops_send_nothing env callee (RenounceRole role account) s s' l
                (this env) I Hexec) as (-> & -> & _). lia.
Qed.

Lemma reentries_keep_value env inner (s s' : Storage) l :
  reentries env inner s = Ok (tt, s', l) ->
  balance s <= balance s' + sent_out (this env) l.
Proof.
  apply (reentries_related
           (fun s s' l => balance s <= balance s' + sent_out (this env) l)
           (this env)); [| | | reflexivity].
  - intros s0. cbn. lia.
  - intros s0 s1 s2 l1 l2 H1 H2. rewrite sent_out_app. lia.
  - intros env' callee c Hself Hcallee s0 s1 l1 Hrun. rewrite <- Hself.
    apply (dispatch_keeps_value env' callee c) in Hrun; [lia |].
    intros s2 s3 l3 Hcall. rewrite Hself. eapply Hcallee, Hcall.
Qed.

(** X9. No call loses value. For every returning call, whatever the
    recipient of its transfer does with the control it is given, the
    balance before the call plus the value attached to it is at most the
    balance after it plus the value its effects, and those of the calls
    made during it, moved out of the contract. When the recipient makes no
    call back into the contract, the two are equal, and value leaves only
    as the refund of a [collectFee] to its payer or as the sweep of
    [distributeFees] to the treasury. *)
Theorem value_is_conserved (env : Env) (c : Call) (s : Storage) :
  (forall inner s' l,
      exec env c inner s = Ok (tt, s', l) ->
      balance s + attached c <= balance s' + sent_out (this env) l)
  /\ (forall s' l,
        exec env c [] s = Ok (tt, s', l) ->
        balance s' + sent_out (this env) l = balance s + attached c
        /\ (forall recipient value,
              In (Send recipient value) l ->
              (exists v a t, c = CollectFee v recipient a t /\ value = v - a /\ a < v)
              \/ (c = DistributeFees /\ recipient = treasury s /\ value = balance s))).
Proof.
  split.
  { intros inner s' l Hexec. eapply dispatch_keeps_value; [| exact Hexec].
    intros s0 s1 l1. apply reentries_keep_value. }
  intros s' l Hexec. unfold exec in Hexec. cbn [reentries fold_right] in Hexec.
  destruct c; cbn [dispatch] in Hexec; cbn [attached].
  - rewrite run_collectFee, run_ret in Hexec. cbv beta iota in Hexec.
    break_ifs Hexec; injection Hexec as <- <-; cbn [balance set_balance sent_out In].
    + apply N.eqb_eq in Heqb2. subst. split; [lia |].
      intros r v [Hin | []]. discriminate Hin.
    + apply N.ltb_ge in Heqb1. apply N.eqb_neq in Heqb2. rewrite Heqb3.
      split; [lia |]. intros r v [Hin | [Hin | []]]; [discriminate Hin |].
      injection Hin as <- <-. left. exists msg_value, amount, feeType.
      repeat split. lia.
    + apply N.ltb_ge in Heqb1. apply N.eqb_neq in Heqb2. rewrite Heqb3.
      split; [lia |]. intros r v [Hin | [Hin | []]]; [discriminate Hin |].
      injection Hin as <- <-. left. exists msg_value, amount, feeType.
      repeat split. lia.
  - rewrite run_distributeFees, run_ret in Hexec. cbv beta iota in Hexec.
    break_ifs Hexec; injection Hexec as <- <-;
      cbn [balance set_balance sent_out In app].
    + rewrite Heqb1. split; [lia |].
      intros r v [Hin | [Hin | []]]; [| discriminate Hin].
      injection Hin as <- <-. now right.
    + rewrite Heqb1. split; [lia |].
      intros r v [Hin | [Hin | []]]; [| discriminate Hin].
      injection Hin as <- <-. now right.
  - rewrite run_updateFeeConfig in Hexec. break_ifs Hexec. injection Hexec as <- <-.
    split; [cbn; lia |]. intros r v [Hin | []]. discriminate Hin.
  - rewrite run_updateTreasury in Hexec. break_ifs Hexec. injection Hexec as <- <-.
    split; [cbn; lia |]. intros r v [Hin | []]. discriminate Hin.
  - rewrite run_addDiscountedUser in Hexec. break_ifs Hexec. injection Hexec as <- <-.
    split; [cbn; lia |]. intros r v [Hin | []]. discriminate Hin.
  - rewrite run_removeDiscountedUser in Hexec. break_ifs Hexec. injection Hexec as <- <-.
    split; [cbn; lia |]. intros r v [Hin | []]. discriminate Hin.
  - rewrite run_updateDiscountPercentage in Hexec. break_ifs Hexec.
    injection Hexec as <- <-.
    split; [cbn; lia |]. intros r v [Hin | []]. discriminate Hin.
  - unfold receive, payable in Hexec. injection Hexec as <- <-.
    split; [cbn; lia |]. intros r v [].
  - destruct (gate_ops_send_nothing env (ret tt) Pause s s' l (this env) I Hexec)
      as (-> & -> & Hnone). split; [lia |]. intros r v Hin. now apply Hnone in Hin.
  - destruct (gate_ops_send_nothing env (ret tt) Unpause s s' l (this env) I Hexec)
      as (-> & -> & Hnone). split; [lia |]. intros r v Hin. now apply Hnone in Hin.
  - destruct (gate_ops_send_nothing env (ret tt) (GrantRole role account) s s' l (this env) I Hexec)
      as (-> & -> & Hnone). split; [lia |]. intros r v Hin. now apply Hnone in Hin.
  - destruct (gate_ops_send_nothing env (ret tt) (RevokeRole role account) s s' l (this env) I Hexec)
      as (-> & -> & Hnone). split; [lia |]. intros r v Hin. now apply Hnone in Hin.
  - destruct (gate_ops_send_nothing env (ret tt) (RenounceRole role account) s s' l (this env) I Hexec)
      as (-> & -> & Hnone). split; [lia |]. intros r v Hin. now apply Hnone in Hin.
Qed.

Lemma value_is_conserved_witness :
  exists s' l,
    exec (FeesSample.env_of 1) (CollectFee 150 5 100 "storage")
      [Reenter 5 (fun _ => true) (Receive 30) []] FeesSample.deployed
    = Ok (tt, s', l)
    /\ balance FeesSample.deployed + 150 <= balance s' + sent_out 1000 l.
Proof.
  destruct (exec (FeesSample.env_of 1) (CollectFee 150 5 100 "storage")
              [Reenter 5 (fun _ => true) (Receive 30) []]
              FeesSample.deployed) as [[[[] s'] l] |] eqn:Hexec.
  - exists s', l. split; [reflexivity |].
    apply (proj1 (value_is_conserved _ _ _) _ _ _ Hexec).
  - unfold exec in Hexec. cbn [dispatch] in Hexec. rewrite run_collectFee in Hexec.
    vm_compute in Hexec. discriminate Hexec.
Defined.

(** X10. Adding and removing a discounted user undo each other. After a
    returning [addDiscountedUser u], the user is discounted, adding it
    again aborts with "Already a discounted user", and a
    [removeDiscountedUser u] by a fee manager returns and leaves every
    principal discounted exactly as before the addition, the rest of the
    storage being untouched throughout. *)
Theorem discounted_user_round_trip (env env' : Env) (u : address)
    (s s1 : Storage) (l : list Effect) :
  addDiscountedUser env u s = Ok (tt, s1, l) ->
  hasRole FEE_MANAGER_ROLE (msg_sender env') s = true ->
  discountedUsers s u = false
  /\ discountedUsers s1 u = true
  /\ addDiscountedUser env' u s1 = Err (Revert "Already a discounted user")
  /\ exists s2,
       removeDiscountedUser env' u s1 = Ok (tt, s2, [Emit (DiscountedUserRemoved u)])
       /\ (forall v, discountedUsers s2 v = discountedUsers s v)
       /\ access s2 = access s /\ feeConfig s2 = feeConfig s
       /\ treasury s2 = treasury s
       /\ discountPercentage s2 = discountPercentage s
       /\ balance s2 = balance s.
Proof.
  intros Hadd Hrole. rewrite run_addDiscountedUser in Hadd. break_ifs Hadd.
  injection Hadd as <- _.
  rewrite run_addDiscountedUser, run_removeDiscountedUser.
  change (hasRole FEE_MANAGER_ROLE (msg_sender env')
            (set_discountedUsers (upd (discountedUsers s) u true) s))
    with (hasRole FEE_MANAGER_ROLE (msg_sender env') s).
  rewrite Hrole. cbn [negb discountedUsers set_discountedUsers]. rewrite upd_eq.
  cbn [negb]. repeat split; try assumption.
  eexists. split; [reflexivity |]. cbn. repeat split.
  intros v. unfold upd. destruct (N.eqb_spec v u) as [-> | _]; [now symmetry | reflexivity].
Qed.

Lemma discounted_user_round_trip_witness :
  exists s2,
    removeDiscountedUser (FeesSample.env_of 1) 7 FeesSample.with_discount
    = Ok (tt, s2, [Emit (DiscountedUserRemoved 7)])
    /\ forall v, discountedUsers s2 v = discountedUsers FeesSample.deployed v.
Proof.
  destruct (discounted_user_round_trip (FeesSample.env_of 1) (FeesSample.env_of 1) 7
              FeesSample.deployed FeesSample.with_discount
              [Emit (DiscountedUserAdded 7)])
    as (_ & _ & _ & s2 & Hrun & Hsame & _).
  - vm_compute. reflexivity.
  - reflexivity.
  - exists s2. split; assumption.
Defined.

(** X11. The storage fee grows with the size. If [calculateStorageFee]
    returns for a size, it returns for every smaller size too, with a fee
    that is not larger. *)
Theorem calculateStorageFee_monotone (s : Storage) (size1 size2 v2 : uint256)
    (s2 : Storage) (l2 : list Effect) :
  size1 <= size2 ->
  calculateStorageFee size2 s = Ok (v2, s2, l2) ->
  exists v1, calculateStorageFee size1 s = Ok (v1, s, []) /\ v1 <= v2.
Proof.
  intros Hle Hrun. rewrite calculateStorageFee_run in *. cbv zeta in *.
  set (b := baseStorageFee (feeConfig s)) in *.
  set (n := networkFee (feeConfig s)) in *.
  set (m := minimumFee (feeConfig s)) in *.
  destruct (N.leb_spec (size2 * b + n) MAX_UINT256) as [Hfit2 | ]; [| discriminate Hrun].
  injection Hrun as <- _ _.
  assert (Hmono : size1 * b + n <= size2 * b + n) by nia.
  assert (Hfit1 : (size1 * b + n <=? MAX_UINT256) = true) by (apply N.leb_le; lia).
  rewrite Hfit1. eexists. split; [reflexivity |].
  destruct (N.ltb_spec (size1 * b + n) m), (N.ltb_spec (size2 * b + n) m); lia.
Qed.

Lemma calculateStorageFee_monotone_witness :
  exists v1, calculateStorageFee 10 FeesSample.deployed
             = Ok (v1, FeesSample.deployed, []) /\ v1 <= 1010.
Proof.
  apply (calculateStorageFee_monotone FeesSample.deployed 10 500 1010
           FeesSample.deployed []).
  - vm_compute. discriminate.
  - vm_compute. reflexivity.
Defined.

(** X12. [initialize] runs once. In any state it returns exactly when the
    contract has not been initialized yet, the treasury is not the null
    address and the discount is at most 100. The state it leaves from the
    zero storage of a fresh proxy is not paused, holds no balance and no
    discounted user, carries the treasury, the discount and the four fees
    it was given, and grants the super-admin, admin and fee-manager roles
    to the caller and no role to anyone else. In every state of the
    deployed contract it aborts with "Initializable: contract is already
    initialized", whatever its arguments. *)
Theorem initialize_sets_up_fees (env : Env) (t : address)
    (b n sh m p : uint256) :
  (forall s0,
      (exists s l, initialize env t b n sh m p s0 = Ok (tt, s, l)) <->
      initialized s0 = false /\ t <> address0 /\ p <= 100)
  /\ (forall s0,
        reachable s0 ->
        initialize env t b n sh m p s0 =
        Err (Revert "Initializable: contract is already initialized"))
  /\ (forall s l,
        initialize env t b n sh m p zero = Ok (tt, s, l) ->
        paused s = false /\ balance s = 0
        /\ (forall u, discountedUsers s u = false)
        /\ treasury s = t /\ discountPercentage s = p
        /\ feeConfig s = {| baseStorageFee := b; networkFee := n;
                            sharingFee := sh; minimumFee := m |}
        /\ (forall role account,
              hasRole role account s = true <->
              account = msg_sender env
              /\ (role = DEFAULT_ADMIN_ROLE \/ role = ADMIN_ROLE
                  \/ role = FEE_MANAGER_ROLE))).
Proof.
  split; [intros s0; apply initialize_returns_iff |].
  split.
  { intros s0 Hreach. apply reachable_is_initialized in Hreach.
    unfold initialize. now rewrite run_initializer, Hreach. }
  rewrite run_initialize.
  destruct (t =? address0); [intros s l Hrun; discriminate Hrun |].
  destruct (100 <? p); [intros s l Hrun; discriminate Hrun |].
  intros s l Hrun. injection Hrun as <- _.
  split; [reflexivity |]. split; [reflexivity |]. split; [reflexivity |].
  split; [reflexivity |]. split; [reflexivity |]. split; [reflexivity |].
  intros role account. unfold hasRole. cbn. split.
  - intros Hhas.
    destruct role; cbn in Hhas;
      try (destruct (N.eqb_spec account (msg_sender env)); [auto | discriminate Hhas]);
      discriminate Hhas.
  - intros [-> Hrole]. rewrite N.eqb_refl.
    destruct Hrole as [-> | [-> | ->]]; reflexivity.
Qed.

(** X13. Setting and reading the fee configuration. After a returning
    [updateFeeConfig b n sh m], [getSharingFee] returns [sh] and
    [calculateStorageFee size] prices with the new figures, returning
    [size * b + n] or [m], whichever is larger, when [size * b + n] fits in
    256 bits; the treasury, the discounts and the balance are untouched.
    The call returns only for an admin. *)
Theorem updateFeeConfig_round_trip (env : Env) (b n sh m : uint256)
    (s s' : Storage) (l : list Effect) :
  updateFeeConfig env b n sh m s = Ok (tt, s', l) ->
  hasRole ADMIN_ROLE (msg_sender env) s = true
  /\ getSharingFee s' = Ok (sh, s', [])
  /\ (forall size,
        size * b + n <= MAX_UINT256 ->
        calculateStorageFee size s' = Ok (N.max (size * b + n) m, s', []))
  /\ treasury s' = treasury s
  /\ discountedUsers s' = discountedUsers s
  /\ discountPercentage s' = discountPercentage s
  /\ balance s' = balance s.
Proof.
  intros Hupd. rewrite run_updateFeeConfig in Hupd.
  destruct (hasRole ADMIN_ROLE (msg_sender env) s); [| discriminate Hupd].
  injection Hupd as <- _. repeat split.
  intros size Hfit. rewrite calculateStorageFee_run. cbn.
  apply N.leb_le in Hfit. rewrite Hfit.
  destruct (N.ltb_spec (size * b + n) m); f_equal; f_equal; f_equal; lia.
Qed.

Lemma updateFeeConfig_round_trip_witness :
  exists s',
    updateFeeConfig (FeesSample.env_of 1) 3 7 11 50 FeesSample.deployed
    = Ok (tt, s', [Emit (FeeConfigUpdated 3 7 11 50)])
    /\ getSharingFee s' = Ok (11, s', [])
    /\ calculateStorageFee 100 s' = Ok (307, s', []).
Proof.
  destruct (updateFeeConfig (FeesSample.env_of 1) 3 7 11 50 FeesSample.deployed)
    as [[[[] s'] l] |] eqn:Hupd; [| vm_compute in Hupd; discriminate Hupd].
  assert (Hl : l = [Emit (FeeConfigUpdated 3 7 11 50)]).
  { rewrite run_updateFeeConfig in Hupd. vm_compute in Hupd. now injection Hupd as _ <-. }
  subst l. exists s'. split; [reflexivity |].
  destruct (updateFeeConfig_round_trip _ _ _ _ _ _ _ _ Hupd) as (_ & Hshare & Hfee & _).
  split; [exact Hshare |]. apply (Hfee 100). vm_compute. discriminate.
Defined.

End FeesFurther.

(** * Further properties of the file registry *)

Section StorageFurther.
Import OGStorage.
Variable keccak256_packed : string -> address -> uint256 -> bytes32.

Lemma run_getFile env id (s : Storage) :
  getFile env id s =
  if negb (exists_ (files s id)) then Err (Revert "File does not exist")
  else if (owner (files s id) =? msg_sender env)
          || sharedWith (files s id) (msg_sender env)
  then Ok ((rootHash (files s id), owner (files s id), timestamp (files s id)), s, [])
  else Err (Revert "No access to file").
Proof.
  unfold getFile. cbv zeta. run.
  destruct (exists_ (files s id)) eqn:Hex; [| reflexivity]. cbn [negb].
  unfold bind. rewrite run_hasAccess, Hex. cbn [andb].
  now destruct ((owner (files s id) =? msg_sender env)
                || sharedWith (files s id) (msg_sender env)).
Qed.

Lemma exec_records_derived env c s s' l :
  records_derived keccak256_packed s ->
  exec keccak256_packed env c s = Ok (tt, s', l) ->
  records_derived keccak256_packed s'.
Proof.
  intros Hinv Hexec id. specialize (Hinv id). destruct c; cbn [exec] in Hexec.
  - apply bind_Ok_inv in Hexec as (fileId' & s1 & l1 & l2 & Hup & Hret & _).
    injection Hret as <- _. rewrite run_uploadFile in Hup. cbv zeta in Hup.
    break_ifs Hup. injection Hup as _ <- _. cbn [files]. unfold upd.
    destruct (N.eqb_spec id (keccak256_packed rootHash_ (msg_sender env)
                               (block_timestamp env))) as [-> | _]; [| exact Hinv].
    cbn. intros _. split; [| reflexivity].
    intros ->. discriminate Heqb0.
  - rewrite run_shareFile in Hexec. break_ifs Hexec. injection Hexec as <- _.
    cbn [files set_files]. unfold upd.
    now destruct (N.eqb_spec id fileId) as [-> | _].
  - rewrite run_unshareFile in Hexec. break_ifs Hexec. injection Hexec as <- _.
    cbn [files set_files]. unfold upd.
    now destruct (N.eqb_spec id fileId) as [-> | _].
  - rewrite run_deleteFile in Hexec. break_ifs Hexec. injection Hexec as <- _.
    cbn [files]. unfold upd.
    destruct (N.eqb_spec id fileId) as [-> | _]; [| exact Hinv].
    cbn. discriminate.
  - now apply pause_frame in Hexec as [g ->].
  - now apply unpause_frame in Hexec as [g ->].
  - now apply grantRole_frame in Hexec as [g ->].
  - now apply revokeRole_frame in Hexec as [g ->].
  - now apply renounceRole_frame in Hexec as [g ->].
Qed.

(** X14. In every reachable state of the file registry, every live record
    has a non-empty content hash and is stored under the identifier derived
    from its own content hash, owner and timestamp; what [getFile] returns
    for an identifier therefore always hashes back to that identifier. *)
Theorem records_stored_under_derived_id (s : Storage) :
  reachable keccak256_packed s ->
  (forall id,
      exists_ (files s id) = true ->
      rootHash (files s id) <> ""
      /\ id = keccak256_packed (rootHash (files s id)) (owner (files s id))
                               (timestamp (files s id)))
  /\ (forall env id h o t s' l,
        getFile env id s = Ok ((h, o, t), s', l) ->
        h <> "" /\ keccak256_packed h o t = id).
Proof.
  intros Hreach.
  assert (Hinv : records_derived keccak256_packed s).
  { induction Hreach as [env s l Hinit | s env c s' l _ IH Hexec].
    - apply initialize_frame in Hinit as [g ->]. intros id Hex. discriminate Hex.
    - eapply exec_records_derived; eassumption. }
  split; [exact Hinv |].
  intros env id h o t s' l Hget. rewrite run_getFile in Hget. break_ifs Hget.
  injection Hget as <- <- <- _ _. apply negb_false_iff in Heqb.
  destruct (Hinv id Heqb) as [Hne Hid]. now split.
Qed.

Lemma mod_pred (x m : N) :
  m <> 0 -> (x + 1) mod m <> 0 -> (x + 1) mod m - 1 = x mod m.
Proof.
  intros Hm Hne.
  assert (Hlt : x mod m < m) by now apply N.mod_lt.
  assert (Hstep : (x + 1) mod m = (x mod m + 1) mod m)
    by (symmetry; apply N.Div0.add_mod_idemp_l).
  rewrite Hstep in *. set (r := x mod m) in *.
  destruct (N.eq_dec (r + 1) m) as [Heq | Hneq].
  - rewrite Heq, N.Div0.mod_same in Hne. contradiction.
  - rewrite N.mod_small by lia. lia.
Qed.

Lemma exec_counter_counts env c s s' l live :
  counter_counts s live ->
  exec keccak256_packed env c s = Ok (tt, s', l) ->
  exists live', counter_counts s' live'.
Proof.
  intros (Hnodup & Hlive & Hcount) Hexec. destruct c; cbn [exec] in Hexec.
  - apply bind_Ok_inv in Hexec as (fileId' & s1 & l1 & l2 & Hup & Hret & _).
    injection Hret as <- _. rewrite run_uploadFile in Hup. cbv zeta in Hup.
    break_ifs Hup. injection Hup as _ <- _.
    set (fileId := keccak256_packed rootHash_ (msg_sender env) (block_timestamp env)) in *.
    exists (fileId :: live). split; [| split].
    + apply NoDup_cons. split; [| exact Hnodup].
      intros Hin. apply Hlive in Hin. congruence.
    + intros id. cbn [files]. rewrite elem_of_cons, Hlive. unfold upd.
      destruct (N.eqb_spec id fileId) as [-> | Hne]; cbn; [tauto |].
      split; [intros [? | ?]; [contradiction | assumption] | auto].
    + cbn [_fileCounter length]. rewrite Hcount, N.Div0.add_mod_idemp_l.
      f_equal. lia.
  - rewrite run_shareFile in Hexec. break_ifs Hexec. injection Hexec as <- _.
    exists live. split; [exact Hnodup |]. split; [| exact Hcount].
    intros id. rewrite Hlive. cbn [files set_files]. unfold upd.
    now destruct (N.eqb_spec id fileId) as [-> | _].
  - rewrite run_unshareFile in Hexec. break_ifs Hexec. injection Hexec as <- _.
    exists live. split; [exact Hnodup |]. split; [| exact Hcount].
    intros id. rewrite Hlive. cbn [files set_files]. unfold upd.
    now destruct (N.eqb_spec id fileId) as [-> | _].
  - rewrite run_deleteFile in Hexec. break_ifs Hexec. injection Hexec as <- _.
    apply negb_false_iff in Heqb0. apply N.eqb_neq in Heqb2.
    assert (Hin : fileId ∈ live) by now apply Hlive.
    apply list_elem_of_split in Hin as (l1 & l2 & ->).
    apply NoDup_app in Hnodup as (Hn1 & Hdisj & Hn2).
    apply NoDup_cons in Hn2 as (Hnot2 & Hn2).
    assert (Hnot1 : fileId ∉ l1) by (intros Hin; apply (Hdisj _ Hin); left).
    exists (l1 ++ l2). split; [| split].
    + apply NoDup_app. split; [exact Hn1 |]. split; [| exact Hn2].
      intros x Hx Hx'. apply (Hdisj x Hx). now right.
    + intros id. cbn [files]. unfold upd.
      destruct (N.eqb_spec id fileId) as [-> | Hne]; cbn.
      * rewrite elem_of_app. split; [intros [? | ?]; contradiction | discriminate].
      * rewrite <- Hlive, !elem_of_app, elem_of_cons. tauto.
    + cbn [_fileCounter]. rewrite Hcount in *. rewrite length_app in *.
      cbn [length] in *.
      replace (N.of_nat (length l1 + S (length l2)))
        with (N.of_nat (length l1 + length l2) + 1) in * by lia.
      rewrite ?length_app. apply mod_pred; [discriminate | exact Heqb2].
  - apply pause_frame in Hexec as [g ->]. now exists live.
  - apply unpause_frame in Hexec as [g ->]. now exists live.
  - apply grantRole_frame in Hexec as [g ->]. now exists live.
  - apply revokeRole_frame in Hexec as [g ->]. now exists live.
  - apply renounceRole_frame in Hexec as [g ->]. now exists live.
Qed.

(** X15. In every reachable state of the file registry the counter counts
    the live records: there is a list of the identifiers of all existing
    records, without repetition, and [getTotalFiles] returns its length
    modulo [2^256]. As long as there are fewer than [2^256] live records,
    [deleteFile] therefore returns whenever the owner of an existing record
    calls it while the contract is not paused. *)
Theorem counter_counts_live_records (s : Storage) :
  reachable keccak256_packed s ->
  exists live,
    NoDup live
    /\ (forall id, id ∈ live <-> exists_ (files s id) = true)
    /\ getTotalFiles s = Ok (N.of_nat (length live) mod 2 ^ 256, s, [])
    /\ (forall env id,
          N.of_nat (length live) < 2 ^ 256 ->
          paused s = false ->
          exists_ (files s id) = true ->
          owner (files s id) = msg_sender env ->
          exists s', deleteFile env id s = Ok (tt, s', [Emit (FileDeleted id (msg_sender env))])).
Proof.
  intros Hreach.
  assert (Hinv : exists live, counter_counts s live).
  { induction Hreach as [env s l Hinit | s env c s' l _ [live IH] Hexec].
    - apply initialize_frame in Hinit as [g ->]. exists [].
      split; [apply NoDup_nil_2 |]. split; [| reflexivity].
      intros id. rewrite elem_of_nil. cbn. split; [tauto | discriminate].
    - eapply exec_counter_counts; eassumption. }
  destruct Hinv as (live & Hnodup & Hlive & Hcount). exists live.
  split; [exact Hnodup |]. split; [exact Hlive |]. split.
  - unfold getTotalFiles. run. now rewrite Hcount.
  - intros env id Hsmall Hrun Hex Hown. rewrite run_deleteFile, Hrun, Hex, Hown, N.eqb_refl.
    cbn [negb]. rewrite Hcount, N.mod_small by exact Hsmall.
    apply Hlive in Hex. destruct live as [| x live]; [now apply elem_of_nil in Hex |].
    cbn [length]. destruct (N.eqb_spec (N.of_nat (S (length live))) 0) as [H0 | _]; [lia |].
    eauto.
Qed.

(** X16. What an upload leaves. When [uploadFile h] returns an identifier,
    [h] is not empty, the identifier is the one derived from [h], the caller
    and the timestamp, and it is appended to the files of the caller;
    [getFile] by the caller returns [h], the caller and the timestamp;
    the same upload made again (same hash, caller and timestamp) aborts
    with "File already exists"; and [getFile] by another principal aborts
    with "No access to file" unless a grant for that principal was already
    stored under the identifier. *)
Theorem upload_round_trip (env : Env) (h : string) (s s' : Storage)
    (id : bytes32) (l : list Effect) :
  uploadFile keccak256_packed env h s = Ok (id, s', l) ->
  h <> ""
  /\ id = keccak256_packed h (msg_sender env) (block_timestamp env)
  /\ l = [Emit (FileUploaded id h (msg_sender env))]
  /\ userFiles s' (msg_sender env) = userFiles s (msg_sender env) ++ [id]
  /\ getFile env id s' = Ok ((h, msg_sender env, block_timestamp env), s', [])
  /\ uploadFile keccak256_packed env h s' = Err (Revert "File already exists")
  /\ (forall env2,
        msg_sender env2 <> msg_sender env ->
        sharedWith (files s id) (msg_sender env2) = false ->
        getFile env2 id s' = Err (Revert "No access to file")).
Proof.
  intros Hup. rewrite run_uploadFile in Hup. cbv zeta in Hup. break_ifs Hup.
  injection Hup as <- <- <-.
  set (id := keccak256_packed h (msg_sender env) (block_timestamp env)).
  split; [intros ->; discriminate Heqb0 |]. split; [reflexivity |].
  split; [reflexivity |]. split; [cbn; now rewrite upd_eq |].
  rewrite run_uploadFile, !run_getFile. cbv zeta. fold id.
  cbn [files paused gate gated access]. rewrite !upd_eq.
  cbn [exists_ owner rootHash timestamp sharedWith negb].
  rewrite N.eqb_refl. cbn [orb].
  split; [reflexivity |]. split.
  - unfold paused in *. cbn [gate gated access] in *. now rewrite Heqb, Heqb0.
  - intros env2 Hother Hnogrant. rewrite run_getFile. cbn [files]. rewrite upd_eq.
    cbn [exists_ owner sharedWith negb].
    apply not_eq_sym in Hother. apply N.eqb_neq in Hother.
    now rewrite Hother, Hnogrant.
Qed.

(** X17. Sharing and unsharing undo each other. After a returning
    [shareFile id g], the grantee has access and [getFile] by the grantee
    returns the record; sharing again aborts with "Already shared with
    user"; and [unshareFile id g] by the same caller returns and leaves
    every grant of every record as it was before the sharing, after which
    the grantee has access only if it is the owner. *)
Theorem share_unshare_round_trip (env : Env) (id : bytes32) (g : address)
    (s s1 : Storage) (l : list Effect) :
  shareFile env id g s = Ok (tt, s1, l) ->
  g <> address0
  /\ owner (files s id) = msg_sender env
  /\ hasAccess id g s1 = Ok (true, s1, [])
  /\ (forall env2, msg_sender env2 = g ->
        getFile env2 id s1 =
        Ok ((rootHash (files s id), owner (files s id), timestamp (files s id)), s1, []))
  /\ shareFile env id g s1 = Err (Revert "Already shared with user")
  /\ exists s2,
       unshareFile env id g s1 = Ok (tt, s2, [Emit (FileUnshared id (msg_sender env) g)])
       /\ (forall id' p, sharedWith (files s2 id') p = sharedWith (files s id') p)
       /\ (forall id', exists_ (files s2 id') = exists_ (files s id')
                       /\ owner (files s2 id') = owner (files s id')
                       /\ rootHash (files s2 id') = rootHash (files s id')
                       /\ timestamp (files s2 id') = timestamp (files s id'))
       /\ userFiles s2 = userFiles s
       /\ _fileCounter s2 = _fileCounter s
       /\ hasAccess id g s2 = Ok (owner (files s id) =? g, s2, []).
Proof.
  intros Hshare. rewrite run_shareFile in Hshare. break_ifs Hshare.
  injection Hshare as <- _.
  apply negb_false_iff in Heqb0, Heqb1. apply N.eqb_eq in Heqb1.
  apply N.eqb_neq in Heqb2.
  set (s1 := set_files
               (upd (files s) id
                  (set_sharedWith (upd (sharedWith (files s id)) g true) (files s id)))
               s).
  assert (Hp1 : paused s1 = false) by exact Heqb.
  assert (Hf1 : files s1 id
                = set_sharedWith (upd (sharedWith (files s id)) g true) (files s id))
    by (cbn; apply upd_eq).
  split; [exact Heqb2 |]. split; [exact Heqb1 |]. split.
  { rewrite run_hasAccess, Hf1. cbn. now rewrite upd_eq, Heqb0, orb_true_r. }
  split.
  { intros env2 <-. rewrite run_getFile, Hf1. cbn.
    now rewrite upd_eq, Heqb0, orb_true_r. }
  split.
  { rewrite run_shareFile, Hp1, Hf1. cbn.
    rewrite upd_eq, Heqb0, Heqb1, N.eqb_refl. cbn.
    apply N.eqb_neq in Heqb2. now rewrite Heqb2. }
  rewrite run_unshareFile, Hp1, Hf1. cbn [exists_ owner sharedWith set_sharedWith].
  rewrite upd_eq, Heqb0, Heqb1, N.eqb_refl. cbn [negb].
  eexists. split; [reflexivity |].
  split.
  { intros id' p. cbn [files set_files s1]. unfold upd.
    destruct (N.eqb_spec id' id) as [-> | _]; [| reflexivity]. cbn.
    destruct (N.eqb_spec p g) as [-> | _]; [now symmetry | reflexivity]. }
  split.
  { intros id'. cbn [files set_files s1]. unfold upd.
    destruct (N.eqb_spec id' id) as [-> | _]; now cbn. }
  split; [reflexivity |]. split; [reflexivity |].
  rewrite run_hasAccess. cbn [files set_files]. rewrite upd_eq. cbn.
  rewrite upd_eq, Heqb0. cbn. now rewrite orb_false_r, Heqb1.
Qed.

(** X18. Nobody but its owner touches a live record. A returning call made
    by a principal other than the owner of an existing record leaves that
    record, with its sharing grants, and the file list of its owner exactly
    as they were. *)
Theorem live_record_untouched_by_others (env : Env) (c : Call) (s s' : Storage)
    (l : list Effect) (id : bytes32) :
  exec keccak256_packed env c s = Ok (tt, s', l) ->
  exists_ (files s id) = true ->
  msg_sender env <> owner (files s id) ->
  files s' id = files s id
  /\ userFiles s' (owner (files s id)) = userFiles s (owner (files s id)).
Proof.
  intros Hexec Hex Hother. destruct c; cbn [exec] in Hexec.
  - apply bind_Ok_inv in Hexec as (fileId' & s1 & l1 & l2 & Hup & Hret & _).
    injection Hret as <- _. rewrite run_uploadFile in Hup. cbv zeta in Hup.
    break_ifs Hup. injection Hup as _ <- _. cbn [files userFiles].
    rewrite !upd_ne; [auto | now apply not_eq_sym | congruence].
  - rewrite run_shareFile in Hexec. break_ifs Hexec. injection Hexec as <- _.
    apply negb_false_iff, N.eqb_eq in Heqb1.
    cbn [files userFiles set_files]. rewrite upd_ne; [auto | congruence].
  - rewrite run_unshareFile in Hexec. break_ifs Hexec. injection Hexec as <- _.
    apply negb_false_iff, N.eqb_eq in Heqb1.
    cbn [files userFiles set_files]. rewrite upd_ne; [auto | congruence].
  - rewrite run_deleteFile in Hexec. break_ifs Hexec. injection Hexec as <- _.
    apply negb_false_iff, N.eqb_eq in Heqb1. cbn [files userFiles].
    rewrite !upd_ne; [auto | now apply not_eq_sym | congruence].
  - now apply pause_frame in Hexec as [g ->].
  - now apply unpause_frame in Hexec as [g ->].
  - now apply grantRole_frame in Hexec as [g ->].
  - now apply revokeRole_frame in Hexec as [g ->].
  - now apply renounceRole_frame in Hexec as [g ->].
Qed.

(** X19. What a deletion leaves. In a reachable state, after a returning
    [deleteFile id] nobody has access to [id] and [getFile] of [id] aborts
    with "File does not exist" for every caller; every other record is as
    it was; the file list of the caller has lost [id] and nothing else and
    is one shorter; and the file lists of the other principals are as they
    were. *)
Theorem delete_removes_only_that_file (env : Env) (id : bytes32)
    (s s' : Storage) (l : list Effect) :
  reachable keccak256_packed s ->
  deleteFile env id s = Ok (tt, s', l) ->
  (forall p, hasAccess id p s' = Ok (false, s', []))
  /\ (forall env2, getFile env2 id s' = Err (Revert "File does not exist"))
  /\ (forall id', id' <> id -> files s' id' = files s id')
  /\ (forall id', id' ∈ userFiles s' (msg_sender env) <->
                  id' ∈ userFiles s (msg_sender env) /\ id' <> id)
  /\ length (userFiles s (msg_sender env))
     = S (length (userFiles s' (msg_sender env)))
  /\ (forall p, p <> msg_sender env -> userFiles s' p = userFiles s p).
Proof.
  intros Hreach Hdel.
  destruct (reachable_index_consistent _ _ Hreach (msg_sender env)) as [Hnodup Hiff].
  rewrite run_deleteFile in Hdel. break_ifs Hdel. injection Hdel as <- _.
  apply negb_false_iff in Heqb0, Heqb1. apply N.eqb_eq in Heqb1.
  assert (Hin : id ∈ userFiles s (msg_sender env)) by now apply Hiff.
  destruct (remove_from_list_spec id _ Hnodup Hin) as (_ & Hmem & Hlen).
  split; [| split; [| split; [| split; [| split]]]].
  - intros p. rewrite run_hasAccess. cbn [files]. now rewrite upd_eq.
  - intros env2. rewrite run_getFile. cbn [files]. now rewrite upd_eq.
  - intros id' Hne. cbn [files]. now apply upd_ne.
  - intros id'. cbn [userFiles]. rewrite upd_eq. apply Hmem.
  - cbn [userFiles]. rewrite upd_eq. exact Hlen.
  - intros p Hp. cbn [userFiles]. now apply upd_ne.
Qed.

(** X20. The swap-and-pop of [deleteFile], on any list. When the
    identifier occurs in the list, exactly one occurrence of it is removed
    and nothing else is lost or added, the order apart: the list is a
    permutation of the identifier followed by what is left. When it does
    not occur, the list is returned as it is. *)
Theorem remove_from_list_permutation (fileId : bytes32) (l : list bytes32) :
  (fileId ∈ l ->
     Permutation (fileId :: remove_from_list fileId l) l
     /\ length l = S (length (remove_from_list fileId l)))
  /\ (fileId ∉ l -> remove_from_list fileId l = l).
Proof.
  split; [| apply remove_from_list_absent].
  intros Hin. apply list_elem_of_split_l in Hin as (mid & post & -> & Hnot).
  pose proof (remove_scan_found fileId _ [] (not_elem_of_nil _) mid post eq_refl Hnot)
    as Hfound.
  cbn [app length] in Hfound. unfold remove_from_list. rewrite Hfound. clear Hfound.
  destruct post as [| z r _] using rev_ind.
  - cbn [last]. split.
    + apply Permutation_cons_append.
    + rewrite length_app. cbn. lia.
  - rewrite last_snoc, pop_snoc. split.
    + rewrite <- (Permutation_middle mid (r ++ [z]) fileId).
      apply Permutation_cons; [reflexivity |].
      apply Permutation_app_head. apply Permutation_cons_append.
    + rewrite !length_app. cbn. rewrite length_app. cbn. lia.
Qed.

(** X21. Pausing and unpausing undo each other. When an admin pauses a
    file registry that is not paused, every upload aborts until it is
    unpaused, and [unpause] by an admin then gives back exactly the storage
    there was before the pause. *)
Theorem pause_unpause_round_trip (env env' : Env) (s s1 : Storage) (l : list Effect) :
  pause env s = Ok (tt, s1, l) ->
  hasRole ADMIN_ROLE (msg_sender env') s = true ->
  paused s = false
  /\ paused s1 = true
  /\ (forall env2 h,
        uploadFile keccak256_packed env2 h s1 = Err (Revert "Pausable: paused"))
  /\ unpause env' s1 = Ok (tt, s, [Emit (Unpaused (msg_sender env'))]).
Proof.
  intros Hpause Hrole. unfold pause, _pause in Hpause. run_in Hpause.
  destruct (hasRole ADMIN_ROLE (msg_sender env) s); [| discriminate Hpause].
  destruct (paused s) eqn:Hp; [discriminate Hpause |].
  injection Hpause as <- _.
  split; [reflexivity |]. split; [reflexivity |]. split.
  - intros env2 h. now rewrite run_uploadFile.
  - unfold unpause, _unpause. run.
    unfold hasRole, paused in *. cbn in *. rewrite Hrole.
    destruct s as [[i p r] f u c]. cbn in *. subst p. reflexivity.
Qed.

End StorageFurther.

Section StorageFurtherSamples.
Import OGStorage.

Lemma records_stored_under_derived_id_witness :
  StorageSample.sample_hash
    (rootHash (files StorageSample.shared StorageSample.fileId0))
    (owner (files StorageSample.shared StorageSample.fileId0))
    (timestamp (files StorageSample.shared StorageSample.fileId0))
  = StorageSample.fileId0.
Proof.
  destruct (records_stored_under_derived_id StorageSample.sample_hash StorageSample.shared) as [Hinv _].
  - unfold StorageSample.shared, StorageSample.uploaded, StorageSample.deployed.
    do 2 apply reachable_run. apply reachable_initialized.
  - symmetry. apply (Hinv StorageSample.fileId0). reflexivity.
Defined.

Lemma counter_counts_live_records_witness :
  exists live,
    (forall id, id ∈ live <-> exists_ (files StorageSample.shared id) = true)
    /\ getTotalFiles StorageSample.shared =
       Ok (N.of_nat (length live) mod 2 ^ 256, StorageSample.shared, []).
Proof.
  destruct (counter_counts_live_records StorageSample.sample_hash
              StorageSample.shared reachable_shared)
    as (live & _ & Hlive & Htotal & _).
  exists live. split; assumption.
Defined.

Lemma upload_round_trip_witness :
  getFile (StorageSample.env_at 10 100) StorageSample.fileId0 StorageSample.uploaded
  = Ok (("QmRoot", 10, 100), StorageSample.uploaded, []).
Proof.
  destruct (upload_round_trip StorageSample.sample_hash (StorageSample.env_at 10 100)
              "QmRoot" StorageSample.deployed StorageSample.uploaded
              StorageSample.fileId0
              [Emit (FileUploaded StorageSample.fileId0 "QmRoot" 10)])
    as (_ & _ & _ & _ & Hget & _).
  - vm_compute. reflexivity.
  - exact Hget.
Defined.

Lemma share_unshare_round_trip_witness :
  hasAccess StorageSample.fileId0 20 StorageSample.shared
  = Ok (true, StorageSample.shared, []).
Proof.
  destruct (share_unshare_round_trip (StorageSample.env_at 10 100)
              StorageSample.fileId0 20 StorageSample.uploaded StorageSample.shared
              [Emit (FileShared StorageSample.fileId0 10 20)])
    as (_ & _ & Haccess & _).
  - vm_compute. reflexivity.
  - exact Haccess.
Defined.

Lemma live_record_untouched_by_others_witness :
  files (state_after (exec StorageSample.sample_hash (StorageSample.env_at 20 100)
                        (UnshareFile StorageSample.fileId0 20))
                     StorageSample.shared) StorageSample.fileId0
  = files StorageSample.shared StorageSample.fileId0
  /\ files (state_after (exec StorageSample.sample_hash (StorageSample.env_at 20 100)
                           (UploadFile "Other"))
                        StorageSample.shared) StorageSample.fileId0
     = files StorageSample.shared StorageSample.fileId0.
Proof.
  split.
  - reflexivity.
  - unfold state_after.
    destruct (exec StorageSample.sample_hash (StorageSample.env_at 20 100)
                (UploadFile "Other") StorageSample.shared)
      as [[[[] s'] l] |] eqn:Hexec; [| reflexivity].
    apply (live_record_untouched_by_others StorageSample.sample_hash
             _ _ _ _ _ StorageSample.fileId0 Hexec); [reflexivity | discriminate].
Defined.

Lemma delete_removes_only_that_file_witness :
  hasAccess StorageSample.fileId0 20 StorageSample.deleted
  = Ok (false, StorageSample.deleted, []).
Proof.
  destruct (delete_removes_only_that_file StorageSample.sample_hash
              (StorageSample.env_at 10 100) StorageSample.fileId0
              StorageSample.shared StorageSample.deleted
              [Emit (FileDeleted StorageSample.fileId0 10)] reachable_shared)
    as (Hnone & _).
  - vm_compute. reflexivity.
  - exact (Hnone 20).
Defined.

Lemma pause_unpause_round_trip_witness :
  unpause (StorageSample.env_at 1 101)
          (state_after (pause (StorageSample.env_at 1 100)) StorageSample.shared)
  = Ok (tt, StorageSample.shared, [Emit (Unpaused 1)]).
Proof.
  destruct (pause_unpause_round_trip StorageSample.sample_hash
              (StorageSample.env_at 1 100) (StorageSample.env_at 1 101)
              StorageSample.shared
              (state_after (pause (StorageSample.env_at 1 100)) StorageSample.shared)
              [Emit (Paused 1)]) as (_ & _ & _ & Hback).
  - vm_compute. reflexivity.
  - reflexivity.
  - exact Hback.
Defined.

End StorageFurtherSamples.

(** * Properties of the client-side helpers *)

Section StorageUtilsProperties.
Import StorageUtils.

Lemma all_hex_of_pos (p : positive) (rest : string) :
  all_hex rest = true -> all_hex (HexString.Raw.of_pos p rest) = true.
Proof.
  assert (Hsize : forall n q r, (Pos.size_nat q <= n)%nat -> all_hex r = true ->
                                all_hex (HexString.Raw.of_pos q r) = true).
  { induction n as [| n IH]; intros q r Hq Hr.
    - destruct q; cbn in Hq; lia.
    - do 4 try destruct q as [q | q |]; cbn [HexString.Raw.of_pos];
        try (apply IH; [cbn [Pos.size_nat] in Hq; lia | cbn; exact Hr]);
        cbn; exact Hr. }
  apply (Hsize (Pos.size_nat p)). lia.
Qed.

Lemma of_pos_not_empty (p : positive) (rest : string) :
  HexString.Raw.of_pos p rest <> "".
Proof.
  assert (Hsize : forall n q r, (Pos.size_nat q <= n)%nat ->
                                HexString.Raw.of_pos q r <> "").
  { induction n as [| n IH]; intros q r Hq.
    - destruct q; cbn in Hq; lia.
    - do 4 try destruct q as [q | q |]; cbn [HexString.Raw.of_pos];
        try (apply IH; cbn [Pos.size_nat] in Hq; lia); discriminate. }
  apply (Hsize (Pos.size_nat p)). lia.
Qed.

Lemma toString16_spec (n : N) :
  toString16 n <> "" /\ all_hex (toString16 n) = true
  /\ HexString.Raw.to_N (toString16 n) 0 = n.
Proof.
  destruct n as [| p]; cbn [toString16].
  - repeat split. discriminate.
  - split; [apply of_pos_not_empty |]. split; [now apply all_hex_of_pos |].
    now rewrite HexString.Raw.to_N_of_pos.
Qed.

(** X22. The tag of [generateUniqueTag] (and of [createSubmission]) is
    well formed and keeps its value: it is "0x" followed by a non-empty,
    even number of hexadecimal digits, it passes the test
    [/^0x[0-9a-fA-F]+$/], and read back as a hexadecimal number it is the
    sum of the timestamp and the random value it was made from. *)
Theorem generateUniqueTag_well_formed (timestamp randomValue : N) :
  timestamp + randomValue < 2 ^ 53 ->
  exists digits,
    generateUniqueTag timestamp randomValue = String.append "0x" digits
    /\ digits <> ""
    /\ Nat.even (String.length digits) = true
    /\ all_hex digits = true
    /\ test_hex_regex (generateUniqueTag timestamp randomValue) = true
    /\ HexString.to_N (generateUniqueTag timestamp randomValue)
       = timestamp + randomValue.
Proof.
  intros _. unfold generateUniqueTag. cbv zeta.
  destruct (toString16_spec (timestamp + randomValue)) as (Hne & Hhex & Hval).
  set (hexString := toString16 (timestamp + randomValue)) in *.
  eexists. split; [reflexivity |].
  destruct (Nat.even (String.length hexString)) eqn:Heven.
  - split; [exact Hne |]. split; [exact Heven |]. split; [exact Hhex |].
    split; [| exact Hval].
    cbn. destruct hexString; [contradiction | exact Hhex].
  - split; [discriminate |]. split.
    + cbn [String.append String.length]. rewrite Nat.even_succ.
      rewrite <- Nat.negb_even. now rewrite Heven.
    + split; [cbn; exact Hhex |]. split; [cbn; exact Hhex |]. cbn. exact Hval.
Qed.

Lemma generateUniqueTag_well_formed_witness :
  generateUniqueTag 1700000000000 424242 = "0x018bcfebe132"
  /\ HexString.to_N (generateUniqueTag 1700000000000 424242) = 1700000000000 + 424242.
Proof.
  split; [reflexivity |].
  destruct (generateUniqueTag_well_formed 1700000000000 424242)
    as (digits & _ & _ & _ & _ & _ & Hvalue).
  - vm_compute. reflexivity.
  - exact Hvalue.
Defined.

Lemma hex_char_digit (c : ascii) :
  is_hex_char c = true ->
  exists v, HexString.ascii_to_digit c = Some v /\ v <= 15.
Proof.
  destruct c as [[] [] [] [] [] [] [] []]; intros Hc; vm_compute in Hc;
    try discriminate Hc;
    eexists; (split; [vm_compute; reflexivity | vm_compute; discriminate]).
Qed.

Lemma to_N_bound (s : string) (acc : N) :
  all_hex s = true ->
  HexString.Raw.to_N s acc < (acc + 1) * 16 ^ N.of_nat (String.length s).
Proof.
  revert acc. induction s as [| c s IH]; intros acc Hhex.
  - cbn. lia.
  - cbn [all_hex] in Hhex. apply andb_true_iff in Hhex as [Hc Hs].
    destruct (hex_char_digit c Hc) as (v & Hv & Hle).
    cbn [HexString.Raw.to_N String.length]. rewrite Hv.
    specialize (IH (v + 16 * acc) Hs).
    rewrite Nat2N.inj_succ, N.pow_succ_r'. nia.
Qed.

Lemma test_hex_regex_spec (s : string) :
  test_hex_regex s = true <->
  exists c rest, s = String "0" (String "x" (String c rest))
                 /\ all_hex (String c rest) = true.
Proof.
  destruct s as [| a [| b [| c rest]]];
    try (split; [discriminate | intros (? & ? & Heq & _); discriminate Heq]).
  - destruct a as [[] [] [] [] [] [] [] []];
      (split; [discriminate | intros (? & ? & Heq & _); discriminate Heq]).
  - destruct a as [[] [] [] [] [] [] [] []];
      try (split; [discriminate | intros (? & ? & Heq & _); discriminate Heq]);
      destruct b as [[] [] [] [] [] [] [] []];
      (split; [discriminate | intros (? & ? & Heq & _); discriminate Heq]).
  - destruct (ascii_dec a "0") as [-> | Ha].
    + destruct (ascii_dec b "x") as [-> | Hb].
      * cbn [test_hex_regex]. split; [eauto |].
        intros (c' & rest' & Heq & Hhex). now injection Heq as <- <-.
      * assert (Hf : test_hex_regex (String "0" (String b (String c rest))) = false).
        { destruct b as [[] [] [] [] [] [] [] []]; try reflexivity.
          exfalso. now apply Hb. }
        rewrite Hf. split; [discriminate |].
        intros (c' & rest' & Heq & _). injection Heq as -> _ _. exfalso. now apply Hb.
    + assert (Hf : test_hex_regex (String a (String b (String c rest))) = false).
      { destruct a as [[] [] [] [] [] [] [] []]; try reflexivity.
        exfalso. now apply Ha. }
      rewrite Hf. split; [discriminate |].
      intros (c' & rest' & Heq & _). injection Heq as -> _ _ _. exfalso. now apply Ha.
Qed.

(** X23. [validateRootHash] accepts exactly the strings made of "0x" and
    64 hexadecimal digits, and what it accepts reads back as a number
    below [2^256]; the empty string is refused as missing, a string that is
    not "0x" followed by hexadecimal digits as badly formatted, whatever
    its length, and a well formatted string of another length as of the
    wrong length. *)
Theorem validateRootHash_accepts_bytes32 (rootHash : string) :
  (validateRootHash rootHash = Valid <->
   exists digits, rootHash = String.append "0x" digits
                  /\ String.length digits = 64%nat
                  /\ all_hex digits = true)
  /\ (validateRootHash rootHash = Valid -> HexString.to_N rootHash < 2 ^ 256)
  /\ (rootHash = "" -> validateRootHash rootHash = Invalid "Root hash is required")
  /\ (rootHash <> "" -> test_hex_regex rootHash = false ->
      validateRootHash rootHash = Invalid "Invalid root hash format")
  /\ (test_hex_regex rootHash = true -> String.length rootHash <> 66%nat ->
      validateRootHash rootHash = Invalid "Invalid root hash length").
Proof.
  assert (Hiff : validateRootHash rootHash = Valid <->
                 exists digits, rootHash = String.append "0x" digits
                                /\ String.length digits = 64%nat
                                /\ all_hex digits = true).
  { unfold validateRootHash.
    destruct (String.eqb_spec rootHash "") as [-> | Hne].
    { split; [discriminate | intros (d & Heq & _); discriminate Heq]. }
    destruct (test_hex_regex rootHash) eqn:Hre; cbn [negb].
    - apply test_hex_regex_spec in Hre as (c & rest & -> & Hhex).
      destruct (Nat.eqb_spec (String.length (String "0" (String "x" (String c rest)))) 66)
        as [Hlen | Hlen]; cbn [negb].
      + split; [intros _ | reflexivity].
        exists (String c rest). cbn in Hlen |- *. repeat split; [lia | exact Hhex].
      + split; [discriminate |]. intros (d & Heq & Hd & _).
        cbn in Heq. injection Heq as <-. cbn in Hlen, Hd. lia.
    - split; [discriminate |]. intros (d & -> & Hd & Hhex).
      destruct d as [| c rest]; [discriminate Hd |].
      assert (Htrue : test_hex_regex (String.append "0x" (String c rest)) = true).
      { apply test_hex_regex_spec. cbn. eauto. }
      congruence. }
  split; [exact Hiff |]. split; [| split; [| split]].
  - intros Hvalid. apply Hiff in Hvalid as (d & -> & Hlen & Hhex).
    cbn. pose proof (to_N_bound d 0 Hhex) as Hb. rewrite Hlen in Hb.
    change (N.of_nat 64) with 64 in Hb.
    replace (2 ^ 256) with ((0 + 1) * 16 ^ 64) by reflexivity. exact Hb.
  - intros ->. reflexivity.
  - intros Hne Hre. unfold validateRootHash.
    apply String.eqb_neq in Hne. now rewrite Hne, Hre.
  - intros Hre Hlen. unfold validateRootHash. rewrite Hre.
    apply Nat.eqb_neq in Hlen. rewrite Hlen.
    destruct (String.eqb_spec rootHash "") as [-> | _]; [discriminate Hre | reflexivity].
Qed.

(** X24. [calculateStorageCost] charges the size plus a tenth of it,
    rounded down: for a non-negative size the cost is at least the size,
    at most eleven tenths of it and less than one unit below that, and a
    larger size never costs less. *)
Theorem calculateStorageCost_bounds (size size' : Z) :
  (0 <= size)%Z ->
  (size <= size')%Z ->
  (size <= calculateStorageCost size)%Z
  /\ (10 * calculateStorageCost size <= 11 * size)%Z
  /\ (11 * size < 10 * calculateStorageCost size + 10)%Z
  /\ (calculateStorageCost size <= calculateStorageCost size')%Z.
Proof.
  intros Hpos Hle. unfold calculateStorageCost. cbv zeta.
  rewrite !Z.mul_1_r, !Z.quot_div_nonneg by lia.
  pose proof (Z.div_mod size 10 ltac:(lia)) as Hs.
  pose proof (Z.mod_pos_bound size 10 ltac:(lia)) as Hsb.
  pose proof (Z.div_le_mono size size' 10 ltac:(lia) Hle) as Hmono.
  lia.
Qed.

Lemma calculateStorageCost_bounds_witness :
  (1024 <= calculateStorageCost 1024)%Z
  /\ (calculateStorageCost 1024 <= calculateStorageCost 2048)%Z.
Proof.
  destruct (calculateStorageCost_bounds 1024 2048) as (Hlow & _ & _ & Hmono).
  - lia.
  - lia.
  - split; assumption.
Defined.

End StorageUtilsProperties.

(** * The states that [initialize] leaves *)

Section Deployment.

Lemma storage_initialize_returns_iff env (s : OGStorage.Storage) :
  (exists s' l, OGStorage.initialize env s = Ok (tt, s', l)) <->
  initialized s = false.
Proof.
  unfold OGStorage.initialize. rewrite run_initializer.
  destruct (initialized s).
  { split; [intros (s' & l & Hrun) | intros Hinit]; discriminate. }
  split; [auto |]. intros _.
  unfold __Pausable_init. run.
  set (s0 := with_gate (set_paused false _) _).
  rewrite bind_run.
  destruct (_grantRole_returns DEFAULT_ADMIN_ROLE (msg_sender env) env s0)
    as (s1 & l1 & ->).
  destruct (_grantRole_returns ADMIN_ROLE (msg_sender env) env s1)
    as (s2 & l2 & ->).
  eauto.
Qed.

Lemma storage_initialize_initialized env (s s' : OGStorage.Storage) l :
  OGStorage.initialize env s = Ok (tt, s', l) -> initialized s' = true.
Proof.
  unfold OGStorage.initialize. intros Hinit.
  apply initializer_Ok_inv in Hinit as (_ & l0 & Hinit & _).
  unfold __Pausable_init in Hinit. rewrite ?bind_modify in Hinit.
  apply bind_Ok_inv in Hinit as ([] & s1 & l1 & l1' & H1 & H2 & _).
  apply _grantRole_initialized in H1, H2.
  rewrite H2, H1. apply with_gate_initialized.
Qed.

Lemma storage_exec_initialized keccak256_packed env c (s s' : OGStorage.Storage) l :
  OGStorage.exec keccak256_packed env c s = Ok (tt, s', l) ->
  initialized s' = initialized s.
Proof.
  intros Hexec. destruct c; cbn [OGStorage.exec] in Hexec.
  - apply bind_Ok_inv in Hexec as (fileId' & s1 & l1 & l2 & Hup & Hret & _).
    injection Hret as <- _. rewrite run_uploadFile in Hup. cbv zeta in Hup.
    break_ifs Hup. now injection Hup as _ <- _.
  - rewrite run_shareFile in Hexec. break_ifs Hexec. now injection Hexec as <- _.
  - rewrite run_unshareFile in Hexec. break_ifs Hexec. now injection Hexec as <- _.
  - rewrite run_deleteFile in Hexec. break_ifs Hexec. now injection Hexec as <- _.
  - eapply pause_initialized, Hexec.
  - eapply unpause_initialized, Hexec.
  - eapply grantRole_initialized, Hexec.
  - eapply revokeRole_initialized, Hexec.
  - eapply renounceRole_initialized, Hexec.
Qed.

Lemma storage_reachable_is_initialized keccak256_packed (s : OGStorage.Storage) :
  OGStorage.reachable keccak256_packed s -> initialized s = true.
Proof.
  induction 1 as [env s l Hinit | s env c s' l _ IH Hexec].
  - eapply storage_initialize_initialized, Hinit.
  - rewrite <- IH. eapply storage_exec_initialized, Hexec.
Qed.

Lemma registry_initialize_returns_iff env limit (s : OGRegistry.Storage) :
  (exists s' l, OGRegistry.initialize env limit s = Ok (tt, s', l)) <->
  initialized s = false.
Proof.
  unfold OGRegistry.initialize. rewrite run_initializer.
  destruct (initialized s).
  { split; [intros (s' & l & Hrun) | intros Hinit]; discriminate. }
  split; [auto |]. intros _.
  unfold __Pausable_init. run.
  set (s0 := with_gate (set_paused false _) _).
  rewrite bind_run.
  destruct (_grantRole_returns DEFAULT_ADMIN_ROLE (msg_sender env) env s0)
    as (s1 & l1 & ->).
  rewrite bind_run.
  destruct (_grantRole_returns ADMIN_ROLE (msg_sender env) env s1)
    as (s2 & l2 & ->).
  run. eauto.
Qed.

Lemma registry_initialize_initialized env limit (s s' : OGRegistry.Storage) l :
  OGRegistry.initialize env limit s = Ok (tt, s', l) -> initialized s' = true.
Proof.
  unfold OGRegistry.initialize. intros Hinit.
  apply initializer_Ok_inv in Hinit as (_ & l0 & Hinit & _).
  unfold __Pausable_init in Hinit. rewrite ?bind_modify in Hinit.
  apply bind_Ok_inv in Hinit as ([] & s1 & l1 & l1' & H1 & Hinit & _).
  apply bind_Ok_inv in Hinit as ([] & s2 & l2 & l2' & H2 & Hinit & _).
  apply _grantRole_initialized in H1, H2.
  injection Hinit as <- _.
  change (initialized s2 = true). rewrite H2, H1. apply with_gate_initialized.
Qed.

Lemma registry_exec_initialized env c (s s' : OGRegistry.Storage) l :
  OGRegistry.exec env c s = Ok (tt, s', l) -> initialized s' = initialized s.
Proof.
  intros Hexec. destruct c; cbn [OGRegistry.exec] in Hexec.
  - rewrite run_register in Hexec. break_ifs Hexec. now injection Hexec as <- _.
  - rewrite run_updateUsedStorage in Hexec. break_ifs Hexec. now injection Hexec as <- _.
  - rewrite run_updateStorageLimit in Hexec. break_ifs Hexec. now injection Hexec as <- _.
  - rewrite run_updateDefaultStorageLimit in Hexec. break_ifs Hexec.
    now injection Hexec as <- _.
  - eapply pause_initialized, Hexec.
  - eapply unpause_initialized, Hexec.
  - eapply grantRole_initialized, Hexec.
  - eapply revokeRole_initialized, Hexec.
  - eapply renounceRole_initialized, Hexec.
Qed.

Lemma registry_reachable_is_initialized (s : OGRegistry.Storage) :
  OGRegistry.reachable s -> initialized s = true.
Proof.
  induction 1 as [env limit s l Hinit | s env c s' l _ IH Hexec].
  - eapply registry_initialize_initialized, Hinit.
  - rewrite <- IH. eapply registry_exec_initialized, Hexec.
Qed.

(** X25. [initialize] of the file registry runs once. In any state it
    returns exactly when the contract has not been initialized yet, and in
    every state of the deployed contract it aborts with "Initializable:
    contract is already initialized". From the zero storage of a fresh
    proxy it leaves a contract that is not paused, in which the caller
    holds the super-admin and the admin role and nobody holds any other
    role, and that has no file: the total is zero, every file list is
    empty, nobody has access to any identifier and [getFile] aborts with
    "File does not exist". *)
Theorem initialize_sets_up_storage (env : Env) :
  (forall s0,
      (exists s l, OGStorage.initialize env s0 = Ok (tt, s, l)) <->
      initialized s0 = false)
  /\ (forall keccak256_packed s0,
        OGStorage.reachable keccak256_packed s0 ->
        OGStorage.initialize env s0 =
        Err (Revert "Initializable: contract is already initialized"))
  /\ exists s l,
    OGStorage.initialize env OGStorage.zero = Ok (tt, s, l)
    /\ initialized s = true
    /\ paused s = false
    /\ (forall role account,
          hasRole role account s = true <->
          account = msg_sender env
          /\ (role = DEFAULT_ADMIN_ROLE \/ role = ADMIN_ROLE))
    /\ OGStorage.getTotalFiles s = Ok (0, s, [])
    /\ (forall p, OGStorage.getUserFiles p s = Ok ([], s, []))
    /\ (forall id p, OGStorage.hasAccess id p s = Ok (false, s, []))
    /\ (forall env2 id,
          OGStorage.getFile env2 id s = Err (Revert "File does not exist")).
Proof.
  split; [intros s0; apply storage_initialize_returns_iff |].
  split.
  { intros keccak256_packed s0 Hreach.
    apply storage_reachable_is_initialized in Hreach.
    unfold OGStorage.initialize. now rewrite run_initializer, Hreach. }
  eexists _, _. split; [reflexivity |]. split; [reflexivity |].
  split; [reflexivity |]. split.
  - intros role account. unfold hasRole. cbn. split.
    + intros Hhas.
      destruct role; cbn in Hhas;
        try (destruct (N.eqb_spec account (msg_sender env)); [auto | discriminate Hhas]);
        discriminate Hhas.
    + intros [-> [-> | ->]]; cbn; now rewrite N.eqb_refl.
  - split; [reflexivity |]. split; [reflexivity |]. split; [reflexivity |].
    intros env2 id. now rewrite run_getFile.
Qed.

(** X26. [initialize] of the user registry runs once. In any state it
    returns exactly when the contract has not been initialized yet, and in
    every state of the deployed contract it aborts with "Initializable:
    contract is already initialized". From the zero storage of a fresh
    proxy it leaves a contract that is not paused, in which the caller
    holds the super-admin and the admin role and nobody holds any other
    role, whose default limit is the one given, and in which nobody is
    registered: [canStoreData] answers [false] for every principal and
    size, and [getUserProfile] and [getAddressByUsername] abort. *)
Theorem initialize_sets_up_registry (env : Env) (limit : uint256) :
  (forall s0,
      (exists s l, OGRegistry.initialize env limit s0 = Ok (tt, s, l)) <->
      initialized s0 = false)
  /\ (forall s0,
        OGRegistry.reachable s0 ->
        OGRegistry.initialize env limit s0 =
        Err (Revert "Initializable: contract is already initialized"))
  /\ exists s l,
    OGRegistry.initialize env limit OGRegistry.zero = Ok (tt, s, l)
    /\ initialized s = true
    /\ paused s = false
    /\ (forall role account,
          hasRole role account s = true <->
          account = msg_sender env
          /\ (role = DEFAULT_ADMIN_ROLE \/ role = ADMIN_ROLE))
    /\ OGRegistry.defaultStorageLimit s = limit
    /\ (forall u size, OGRegistry.canStoreData u size s = Ok (false, s, []))
    /\ (forall u, OGRegistry.getUserProfile u s = Err (Revert "User not registered"))
    /\ (forall name,
          OGRegistry.getAddressByUsername name s
          = Err (Revert "Username not registered")).
Proof.
  split; [intros s0; apply registry_initialize_returns_iff |].
  split.
  { intros s0 Hreach. apply registry_reachable_is_initialized in Hreach.
    unfold OGRegistry.initialize. now rewrite run_initializer, Hreach. }
  eexists _, _. split; [reflexivity |]. split; [reflexivity |].
  split; [reflexivity |]. split.
  - intros role account. unfold hasRole. cbn. split.
    + intros Hhas.
      destruct role; cbn in Hhas;
        try (destruct (N.eqb_spec account (msg_sender env)); [auto | discriminate Hhas]);
        discriminate Hhas.
    + intros [-> [-> | ->]]; cbn; now rewrite N.eqb_refl.
  - split; [reflexivity |]. split; [reflexivity |]. split; reflexivity.
Qed.

End Deployment.
